(** * Validation engine: rule composition and evaluation

    A shallow embedding of the [Validation] module (the TypeScript source
    that follows the Gruntfile in [src/Gruntfile.js]): the declaration
    surface [AbstractValidator], the rule tree [AbstractValidationRule] and
    [AbstractListValidationRule], the leaf [PropertyValidationRule] and the
    shared [Validator] wrapper.

    JavaScript objects used as string-keyed maps are association lists in
    key-enumeration order: the order of [for ... in] and [_.each], and the
    lookup [o[k]], of a plain object whose keys are neither array indices
    nor names of members of [Object.prototype] ([JsObject.plain]; the
    properties stated of keys that come from a declaration carry this as a
    hypothesis); objects shared by reference (the validator
    instances of a declaration) live in an explicit store; exceptions are
    abrupt completions; a promise is described by the way it eventually
    settles. The capabilities supplied from outside (the acceptability
    checks, the shared validation functions, the optional predicates) are
    functions of their arguments. *)

From stdpp Require Import base strings list pretty.

Set Default Proof Using "Type".
Set Warnings "-register-all".
Local Open Scope string_scope.
Local Open Scope list_scope.

(** ** JavaScript objects as ordered maps *)

Abbreviation obj A := (list (string * A)).

Module JsObject.

(** [o[k]] among the object's own properties: [None] stands for
    [undefined]. *)
Fixpoint get {A : Type} (k : string) (o : obj A) : option A :=
  match o with
  | [] => None
  | (k', v) :: o' => if decide (k' = k) then Some v else get k o'
  end.

(** [o[k] = v]: an existing key keeps its place in the enumeration order,
    a new key (not an array index) is enumerated last. *)
Fixpoint set {A : Type} (k : string) (v : A) (o : obj A) : obj A :=
  match o with
  | [] => [(k, v)]
  | (k', v') :: o' =>
      if decide (k' = k) then (k, v) :: o' else (k', v') :: set k v o'
  end.

(** An assignment to a field of the object stored at [o[k]]. *)
Fixpoint alter {A : Type} (f : A -> A) (k : string) (o : obj A) : obj A :=
  match o with
  | [] => []
  | (k', v) :: o' =>
      if decide (k' = k) then (k', f v) :: o' else (k', v) :: alter f k o'
  end.

Definition keys {A : Type} (o : obj A) : list string := o.*1.

Definition values {A : Type} (o : obj A) : list A := o.*2.

(** The names of the members every plain object inherits from
    [Object.prototype]: where the object has no property of its own under
    such a name, [o[k]] is the inherited member and not [undefined]. *)
Definition Object_prototype : list string :=
  [ "constructor"; "hasOwnProperty"; "isPrototypeOf"; "propertyIsEnumerable";
    "toLocaleString"; "toString"; "valueOf"; "__proto__";
    "__defineGetter__"; "__defineSetter__"; "__lookupGetter__"; "__lookupSetter__" ].

Definition is_digit (c : Ascii.ascii) : bool :=
  (48 <=? Ascii.nat_of_ascii c)%nat && (Ascii.nat_of_ascii c <=? 57)%nat.

Fixpoint digits (k : string) : bool :=
  match k with
  | EmptyString => true
  | String c k' => is_digit c && digits k'
  end.

(** A key written in digits only. The array indices are among these keys;
    an object enumerates its array indices first, in numeric order, and
    not in the order they were assigned. *)
Definition index_like (k : string) : bool :=
  match k with
  | EmptyString => false
  | _ => digits k
  end.

(** The keys for which [get], [set] and [keys] are the lookup, the
    assignment and the enumeration of a plain object. *)
Definition plain (k : string) : Prop :=
  (k ∉ Object_prototype) /\ index_like k = false.

#[export] Instance plain_dec (k : string) : Decision (plain k).
Proof. unfold plain. apply _. Defined.

End JsObject.

(** ** Data contexts *)

(** The values a data context is made of. Objects carry their own
    properties only; a sub-object belongs to one parent (the data is a
    tree). *)
Inductive value : Type :=
| VUndefined
| VNull
| VBool (b : bool)
| VNum (n : Z)
| VStr (s : string)
| VObj (props : obj value)
| VArr (items : list value).

(** Abrupt completions. [Unsupported] marks a step whose JavaScript
    behaviour lies outside the modelled fragment (property access on a
    primitive, a list rule run on something that is not an array);
    [OutOfFuel] is the recursion bound of the tree traversals. *)
Inductive exn : Type :=
| TypeError
| Thrown (e : value)
| Unsupported
| OutOfFuel.

Inductive completion (A : Type) : Type :=
| Normal (a : A)
| Abrupt (e : exn).
Arguments Normal {A} a.
Arguments Abrupt {A} e.

(** [value === undefined || value === null] *)
Definition absent (v : value) : bool :=
  match v with
  | VUndefined | VNull => true
  | _ => false
  end.

(** [v === undefined] *)
Definition is_undefined (v : value) : bool :=
  match v with
  | VUndefined => true
  | _ => false
  end.

(** [context[key]], of the own properties of an object *)
Definition getProp (context : value) (key : string) : completion value :=
  match context with
  | VUndefined | VNull => Abrupt TypeError
  | VObj props => Normal (default VUndefined (JsObject.get key props))
  | _ => Abrupt Unsupported
  end.

(** [context[key] = v] *)
Definition setProp (context : value) (key : string) (v : value) : completion value :=
  match context with
  | VUndefined | VNull => Abrupt TypeError
  | VObj props => Normal (VObj (JsObject.set key v props))
  | _ => Abrupt Unsupported
  end.

(** [context.length] of a list context *)
Definition getLength (context : value) : completion nat :=
  match context with
  | VUndefined | VNull => Abrupt TypeError
  | VArr items => Normal (length items)
  | _ => Abrupt Unsupported
  end.

(** [context[i]] of a list context *)
Definition getIndex (context : value) (i : nat) : completion value :=
  match context with
  | VUndefined | VNull => Abrupt TypeError
  | VArr items => Normal (default VUndefined (items !! i))
  | _ => Abrupt Unsupported
  end.

(** The element [i] of a list context after the child rule worked on it in
    place. *)
Definition setIndex (context : value) (i : nat) (v : value) : value :=
  match context with
  | VArr items => VArr (<[i:=v]> items)
  | _ => context
  end.

(** ** Validator capabilities and the store they live in *)

(** How an externally supplied promise eventually settles. *)
Inductive settlement : Type :=
| Fulfils (result : bool)
| Rejects (reason : value).

Inductive retval : Type :=
| RBool (b : bool)
| RPromise (p : settlement).

Inductive CallResult : Type :=
| Returns (r : retval)
| Throws (e : value).

(** A validator instance (interfaces [IPropertyValidator] and
    [IAsyncPropertyValidator] of validators.ts): its tag, the [isAsync]
    flag, the acceptability check, and its remaining enumerable fields (the
    parameters used in messages, and [AttemptedValue] once an evaluation
    wrote it). *)
Record ValidatorObj : Type := mkValidatorObj {
  tagName : string;
  isAsync : bool;
  isAcceptable : value -> CallResult;
  fields : obj value
}.

(** What the engine does to the outside: calls of [isAcceptable] on the
    validator at a reference, and [console.log]. *)
Inductive event : Type :=
| EvCall (ref : nat) (v : value)
| EvLog (msg : string) (e : exn).

(** The store of validator instances, addressed by reference (every
    reference denotes an instance), and the events so far (oldest first). *)
Record World : Type := mkWorld {
  heap : nat -> ValidatorObj;
  trace : list event
}.

Definition emit (e : event) (w : World) : World :=
  {| heap := heap w; trace := trace w ++ [e] |}.

(** [_.extend(validator, {AttemptedValue: value})] on the instance at [ref] *)
Definition extend_AttemptedValue (ref : nat) (v : value) (w : World) : World :=
  {| heap := fun r =>
       if decide (r = ref)
       then {| tagName := tagName (heap w r); isAsync := isAsync (heap w r);
               isAcceptable := isAcceptable (heap w r);
               fields := JsObject.set "AttemptedValue" v (fields (heap w r)) |}
       else heap w r;
     trace := trace w |}.

(** ** Errors and failures *)

Module Err.

Record IErrorTranslateArgs : Type := mkTranslateArgs {
  TranslateId : string;
  MessageArgs : nat
}.

Record IError : Type := mkError {
  HasError : bool;
  ErrorMessage : string;
  TranslateArgs : option IErrorTranslateArgs
}.

(** Modelled from the spec: the class [Error] of errors.ts is not among the
    sources. A failure's error has [hasError], [message] and
    [translateArgs]. The spec does not say what a new error reports: here
    it reports a failure until a check has written it, and the properties
    below are stated so that they hold for the other choice as well. *)
Definition new_Error : IError :=
  {| HasError := true; ErrorMessage := ""; TranslateArgs := None |}.

Record IValidationFailure : Type := mkValidationFailure {
  Error : IError;
  IsAsync : bool
}.

(** Field assignments [error.HasError = b], [error.TranslateArgs = a],
    [error.ErrorMessage = m]. *)
Definition set_HasError (b : bool) (e : IError) : IError :=
  {| HasError := b; ErrorMessage := ErrorMessage e; TranslateArgs := TranslateArgs e |}.

Definition set_TranslateArgs (a : IErrorTranslateArgs) (e : IError) : IError :=
  {| HasError := HasError e; ErrorMessage := ErrorMessage e; TranslateArgs := Some a |}.

Definition set_ErrorMessage (m : string) (e : IError) : IError :=
  {| HasError := HasError e; ErrorMessage := m; TranslateArgs := TranslateArgs e |}.

(** An assignment to a field of [validation.Error]. *)
Definition on_Error (f : IError -> IError) (validation : IValidationFailure) : IValidationFailure :=
  {| Error := f (Error validation); IsAsync := IsAsync validation |}.

End Err.

(** An optional-suppression predicate is a closure over mutable external
    state; its argument is that state at the moment of the call. *)
Definition IOptional : Type := value -> bool.

(** [this.Optional != undefined && _.isFunction(this.Optional) && this.Optional()] *)
Definition suppressed (Optional : option IOptional) (ext : value) : bool :=
  match Optional with
  | Some fce => fce ext
  | None => false
  end.

(** ** Computations with state and abrupt completion *)

(** A computation over a frame [S] returns normally or abruptly; the frame
    it leaves behind is kept in both cases, since what was written before a
    [throw] stays written. *)
Definition M (S A : Type) : Type := S -> completion A * S.

Definition ret {S A : Type} (a : A) : M S A := fun s => (Normal a, s).

Definition bind {S A B : Type} (m : M S A) (k : A -> M S B) : M S B :=
  fun s =>
    match m s with
    | (Normal a, s') => k a s'
    | (Abrupt e, s') => (Abrupt e, s')
    end.

Definition throw {S A : Type} (e : exn) : M S A := fun s => (Abrupt e, s).

Definition gets {S A : Type} (f : S -> A) : M S A := fun s => (Normal (f s), s).

Definition modify {S : Type} (f : S -> S) : M S unit := fun s => (Normal tt, f s).

(** [try { m } catch (e) { h e }] *)
Definition try_catch {S A : Type} (m : M S A) (h : exn -> M S A) : M S A :=
  fun s =>
    match m s with
    | (Normal a, s') => (Normal a, s')
    | (Abrupt e, s') => h e s'
    end.

(** A value that is a completion already, used as a step. *)
Definition lift {S A : Type} (c : completion A) : M S A := fun s => (c, s).

Declare Scope js_scope.
Delimit Scope js_scope with js.
Notation "x <- m ;; k" := (bind m (fun x => k))
  (at level 100, m at next level, right associativity) : js_scope.
Notation "m ;;; k" := (bind m (fun _ => k))
  (at level 100, right associativity) : js_scope.

(** [for (var x in xs) body], over the keys enumerated when the loop
    starts. *)
Fixpoint for_each {S X : Type} (xs : list X) (body : X -> M S unit) : M S unit :=
  match xs with
  | [] => ret tt
  | x :: xs' => bind (body x) (fun _ => for_each xs' body)
  end.

(** ** Message localization *)

Module StringFce.

(** Replaces every occurrence of [pat] in the text, left to right. *)
Fixpoint replace_from (pat rep : string) (skip : nat) (s : string) : string :=
  match s with
  | EmptyString => EmptyString
  | String c s' =>
      match skip with
      | S k => replace_from pat rep k s'
      | O =>
          if String.prefix pat s
          then rep +:+ replace_from pat rep (String.length pat - 1) s'
          else String c (replace_from pat rep 0 s')
      end
  end.

Definition replace_all (pat rep s : string) : string :=
  match pat with
  | EmptyString => s
  | _ => replace_from pat rep 0 s
  end.

Definition to_text (v : value) : string :=
  match v with
  | VUndefined => "undefined"
  | VNull => "null"
  | VBool true => "true"
  | VBool false => "false"
  | VNum n => pretty n
  | VStr s => s
  | VObj _ => "[object Object]"
  | VArr _ => "[object Array]"
  end.

(** Modelled from the spec: [Validation.StringFce.format] (Utils.ts) is not
    among the sources. Template placeholders [{Field}] are substituted from
    the validator's extra parameters and the attempted value. *)
Definition format (msgText : string) (args : obj value) : string :=
  foldl (fun text '(prop, v) => replace_all ("{" +:+ prop +:+ "}") (to_text v) text)
        msgText args.

End StringFce.

Module MessageLocalization.

Definition customMsg : string := "Please, fix the field.".

Definition defaultMessages : obj string :=
  [ ("required", "This field is required.");
    ("remote", "Please fix the field.");
    ("email", "Please enter a valid email address.");
    ("url", "Please enter a valid URL.");
    ("date", "Please enter a valid date.");
    ("dateISO", "Please enter a valid date ( ISO ).");
    ("number", "Please enter a valid number.");
    ("digits", "Please enter only digits.");
    ("signedDigits", "Please enter only signed digits.");
    ("creditcard", "Please enter a valid credit card number.");
    ("equalTo", "Please enter the same value again.");
    ("maxlength", "Please enter no more than {MaxLength} characters..");
    ("minlength", "Please enter at least {MinLength} characters.");
    ("rangelength", "Please enter a value between {MinLength} and {MaxLength} characters long.");
    ("range", "Please enter a value between {Min} and {Max}.");
    ("max", "Please enter a value less than or equal to {Max}.");
    ("min", "Please enter a value greater than or equal to {Min}.");
    ("step", "Please enter a value with step {Step}.");
    ("contains", "Please enter a value from list of values. Attempted value '{AttemptedValue}'.");
    ("mask", "Please enter a value corresponding with {Mask}.");
    ("custom", customMsg) ].

Definition ValidationMessages : obj string := defaultMessages.

Definition GetValidationMessage (validator : ValidatorObj) : string :=
  let msgText :=
    match JsObject.get (tagName validator) ValidationMessages with
    | None => customMsg
    | Some "" => customMsg
    | Some msgText => msgText
    end in
  StringFce.format msgText (fields validator).

End MessageLocalization.

(** The eventual state of a promise the engine hands out. [Pending] is a
    promise that never settles. *)
Inductive promise (A : Type) : Type :=
| Pending
| Resolved (a : A)
| Rejected (reason : value).
Arguments Pending {A}.
Arguments Resolved {A} a.
Arguments Rejected {A} reason.

(** The order in which the fulfilled checks of one asynchronous pass run
    their [then] handlers: a rearrangement of their results, which are
    given in the order the checks were started. *)
Definition schedule : Type := list bool -> list bool.

Definition in_order : schedule := fun results => results.

(** ** ValidationContext *)

Module ValidationContext.

Record t : Type := mk {
  Key : string;
  Data : value
}.

(** [get Value() { return this.Data[this.Key]; }] *)
Definition Value (this : t) : completion value := getProp (Data this) (Key this).

End ValidationContext.

(** ** PropertyValidationRule *)

Module PropertyValidationRule.

Record t : Type := mk {
  Name : string;
  Optional : option IOptional;
  Validators : obj nat;
  ValidationFailures : obj Err.IValidationFailure
}.

(** The activation of a method: the receiver, the world and the method's
    [var]s. *)
Record frame (L : Type) : Type := mkFrame {
  this : t;
  world : World;
  locals : L
}.
Arguments mkFrame {L} this world locals.
Arguments this {L} f.
Arguments world {L} f.
Arguments locals {L} f.

Abbreviation state := (frame unit).

Definition with_world {L : Type} (f : World -> World) (fr : frame L) : frame L :=
  mkFrame (this fr) (f (world fr)) (locals fr).

Definition with_locals {L : Type} (f : L -> L) (fr : frame L) : frame L :=
  mkFrame (this fr) (world fr) (f (locals fr)).

Definition with_failure {L : Type} (index : string) (f : Err.IError -> Err.IError)
    (fr : frame L) : frame L :=
  mkFrame
    {| Name := Name (this fr); Optional := Optional (this fr);
       Validators := Validators (this fr);
       ValidationFailures :=
         JsObject.alter (Err.on_Error f) index (ValidationFailures (this fr)) |}
    (world fr) (locals fr).

Definition on_world {L : Type} (f : World -> World) : M (frame L) unit :=
  modify (with_world f).

Definition on_locals {L : Type} (f : L -> L) : M (frame L) unit :=
  modify (with_locals f).

(** An assignment to a field of [this.ValidationFailures[index].Error]. *)
Definition on_failure {L : Type} (index : string) (f : Err.IError -> Err.IError)
    : M (frame L) unit :=
  modify (with_failure index f).

(** Runs a method body with its own locals. *)
Definition call {L A : Type} (init : L) (m : M (frame L) A) : M state A :=
  fun s =>
    let '(r, fr) := m (mkFrame (this s) (world s) init) in
    (r, mkFrame (this fr) (world fr) tt).

(** Dereferencing a variable that may hold [undefined]. *)
Definition defined {S A : Type} (x : option A) : M S A :=
  match x with
  | Some a => ret a
  | None => throw TypeError
  end.

Definition AddValidator (w : World) (validator : nat) (this : t) : t :=
  {| Name := Name this; Optional := Optional this;
     Validators := JsObject.set (tagName (heap w validator)) validator (Validators this);
     ValidationFailures :=
       JsObject.set (tagName (heap w validator))
         {| Err.Error := Err.new_Error; Err.IsAsync := isAsync (heap w validator) |}
         (ValidationFailures this) |}.

Definition new (w : World) (Name : string) (validatorsToAdd : list nat) : t :=
  foldl (fun this validator => AddValidator w validator this)
        {| Name := Name; Optional := None; Validators := []; ValidationFailures := [] |}
        validatorsToAdd.

Definition Errors (this : t) : list Err.IError :=
  map Err.Error (JsObject.values (ValidationFailures this)).

Definition HasErrors (this : t) (ext : value) : bool :=
  if suppressed (Optional this) ext then false
  else existsb Err.HasError (Errors this).

Definition ErrorCount (this : t) (ext : value) : nat :=
  if HasErrors this ext then 1 else 0.

Definition ErrorMessage (this : t) (ext : value) : string :=
  if negb (HasErrors this ext) then ""
  else foldl (fun memo error => memo +:+ Err.ErrorMessage error) "" (Errors this).

Definition TranslateArgs (this : t) (ext : value) : list (option Err.IErrorTranslateArgs) :=
  if negb (HasErrors this ext) then []
  else map Err.TranslateArgs (filter (fun error => Err.HasError error = true) (Errors this)).

(** The three assignments that record an outcome in a failure slot, shared
    by the synchronous loop and the asynchronous [then] handler. *)
Definition record_outcome {L : Type} (index : string) (validator : nat)
    (value : value) (hasError : bool) : M (frame L) unit :=
  (on_failure index (Err.set_HasError hasError) ;;;
   tag <- gets (fun fr => tagName (heap (world fr) validator)) ;;
   on_world (extend_AttemptedValue validator value) ;;;
   on_failure index
     (Err.set_TranslateArgs {| Err.TranslateId := tag; Err.MessageArgs := validator |}) ;;;
   msg <- gets (fun fr =>
            if hasError
            then MessageLocalization.GetValidationMessage (heap (world fr) validator)
            else "") ;;
   on_failure index (Err.set_ErrorMessage msg))%js.

(** [console.log("Exception occurred when checking element'" + validator.tagName + "' method.", e); throw e;] *)
Definition log_and_rethrow {L : Type} (validator : option nat) (e : exn) : M (frame L) unit :=
  (validator <- defined validator ;;
   tag <- gets (fun fr => tagName (heap (world fr) validator)) ;;
   on_world (emit (EvLog ("Exception occurred when checking element'" +:+ tag +:+ "' method.") e)) ;;;
   throw e)%js.

Record sync_locals : Type := mkSync {
  lastPriority : Z;
  shortCircuited : bool
}.

(** [!validator.isAcceptable(value)] *)
Definition not_isAcceptable {L : Type} (validator : nat) (value : value) : M (frame L) bool :=
  (check <- gets (fun fr => isAcceptable (heap (world fr) validator)) ;;
   on_world (emit (EvCall validator value)) ;;;
   match check value with
   | Returns (RBool b) => ret (negb b)
   | Returns (RPromise _) => ret false
   | Throws e => throw (Thrown e)
   end)%js.

(** The body of the loop of [ValidateEx]. *)
Definition ValidateEx_body (value : value) (index : string) : M (frame sync_locals) unit :=
  (validation <- gets (fun fr => JsObject.get index (ValidationFailures (this fr))) ;;
   validation <- defined validation ;;
   if Err.IsAsync validation then ret tt
   else
     validator <- gets (fun fr => JsObject.get index (Validators (this fr))) ;;
     try_catch
       (let priority := 0%Z in
        l <- gets locals ;;
        if shortCircuited l && (lastPriority l <? priority)%Z
        then on_failure index (Err.set_HasError false)
        else
          validator <- defined validator ;;
          tag <- gets (fun fr => tagName (heap (world fr) validator)) ;;
          hasError <- (if absent value && negb (String.eqb tag "required")
                       then ret false
                       else not_isAcceptable validator value) ;;
          record_outcome index validator value hasError ;;;
          on_locals (fun _ => {| lastPriority := priority; shortCircuited := hasError |}))
       (log_and_rethrow validator))%js.

(** The loop of [ValidateEx]. *)
Definition ValidateEx_loop (value : value) : M (frame sync_locals) unit :=
  (keys <- gets (fun fr => JsObject.keys (ValidationFailures (this fr))) ;;
   for_each keys (ValidateEx_body value))%js.

Definition sync_failures (this : t) : list Err.IValidationFailure :=
  filter (fun item => Err.IsAsync item = false) (JsObject.values (ValidationFailures this)).

Definition ValidateEx (value : value) : M state (list Err.IValidationFailure) :=
  call {| lastPriority := 0; shortCircuited := false |}
    (ValidateEx_loop value ;;;
     gets (fun fr => sync_failures (this fr)))%js.

Definition Validate (context : ValidationContext.t) : M state (list Err.IValidationFailure) :=
  try_catch
    (value <- lift (ValidationContext.Value context) ;;
     ValidateEx value)%js
    (fun e =>
       on_world (emit (EvLog ("Exception occurred when checking element "
                              +:+ ValidationContext.Key context +:+ ".") e)) ;;;
       throw e)%js.

(** The [var]s of [ValidateAsyncEx] its [then] handlers close over, and the
    promises pushed so far. [validation] names the failure object the
    variable refers to by its key. *)
Record async_locals : Type := mkAsync {
  validation : option string;
  validator : option nat;
  promises : list settlement
}.

(** The body of the loop of [ValidateAsyncEx]. *)
Definition ValidateAsyncEx_body (value : value) (index : string) : M (frame async_locals) unit :=
  (failure <- gets (fun fr => JsObject.get index (ValidationFailures (this fr))) ;;
   on_locals (fun l => {| validation := (fun _ => index) <$> failure;
                          validator := validator l; promises := promises l |}) ;;;
   failure <- defined failure ;;
   if negb (Err.IsAsync failure) then ret tt
   else
     found <- gets (fun fr => JsObject.get index (Validators (this fr))) ;;
     on_locals (fun l => {| validation := validation l;
                            validator := found; promises := promises l |}) ;;;
     try_catch
       (ref <- defined found ;;
        tag <- gets (fun fr => tagName (heap (world fr) ref)) ;;
        hasErrorPromise <-
          (if absent value && negb (String.eqb tag "required")
           then ret (Fulfils true)
           else
             check <- gets (fun fr => isAcceptable (heap (world fr) ref)) ;;
             on_world (emit (EvCall ref value)) ;;;
             match check value with
             | Returns (RPromise p) => ret p
             | Returns (RBool _) => throw TypeError
             | Throws e => throw (Thrown e)
             end) ;;
        on_locals (fun l => {| validation := validation l; validator := validator l;
                               promises := promises l ++ [hasErrorPromise] |}))
       (log_and_rethrow found))%js.

(** The loop of [ValidateAsyncEx]. *)
Definition ValidateAsyncEx_loop (value : value) : M (frame async_locals) unit :=
  (keys <- gets (fun fr => JsObject.keys (ValidationFailures (this fr))) ;;
   for_each keys (ValidateAsyncEx_body value))%js.

(** The handler passed to [hasErrorPromise.then]. A promise runs its
    handlers in a later turn, so a handler runs when the loop has ended,
    and reads [validation] and [validator] as the loop left them. *)
Definition then_handler (value : value) (result : bool) : M (frame async_locals) unit :=
  (let hasError := negb result in
   l <- gets locals ;;
   index <- defined (validation l) ;;
   match validator l with
   | Some ref => record_outcome index ref value hasError
   | None => on_failure index (Err.set_HasError hasError) ;;; throw TypeError
   end)%js.

Definition fulfilled (ps : list settlement) : list bool :=
  omap (fun p => match p with Fulfils b => Some b | Rejects _ => None end) ps.

Definition all_fulfilled (ps : list settlement) : bool :=
  forallb (fun p => match p with Fulfils _ => true | Rejects _ => false end) ps.

(** Runs the handlers of the fulfilled promises; what a handler throws is
    kept by the promise [then] returned, which nobody holds. *)
Definition settle (sched : schedule) (value : value) : M (frame async_locals) unit :=
  (ps <- gets (fun fr => promises (locals fr)) ;;
   for_each (sched (fulfilled ps)) (fun result => try_catch (then_handler value result) (fun _ => ret tt)))%js.

Definition async_failures (this : t) : list Err.IValidationFailure :=
  filter (fun item => Err.IsAsync item = true) (JsObject.values (ValidationFailures this)).

(** [ValidateAsyncEx], with the state in which it leaves the rule once the
    promises of the validators have settled. The promise it returns is
    resolved by the [then] handler of [Q.all(promises)], which has no
    rejection handler. *)
Definition ValidateAsyncEx (sched : schedule) (value : value)
    : M state (promise (list Err.IValidationFailure)) :=
  call {| validation := None; validator := None; promises := [] |}
    (fun fr =>
       let '(r, fr1) := ValidateAsyncEx_loop value fr in
       let fr2 := (settle sched value fr1).2 in
       match r with
       | Abrupt e => (Abrupt e, fr2)
       | Normal _ =>
           (Normal (if all_fulfilled (promises (locals fr2))
                    then Resolved (async_failures (this fr2))
                    else Pending), fr2)
       end).

Definition ValidateAsync (sched : schedule) (context : ValidationContext.t)
    : M state (promise (list Err.IValidationFailure)) :=
  (value <- lift (ValidationContext.Value context) ;;
   ValidateAsyncEx sched value)%js.

End PropertyValidationRule.

(** ** Shared validators *)

(** [IValidate]: a validation function, run with the data context bound as
    [this] and handed the error object to populate. It works on the error
    object in place and may throw. *)
Definition IValidate : Type := value -> M Err.IError unit.

Module Validator.

Record t : Type := mk {
  Name : string;
  ValidateFce : IValidate;
  Error : Err.IError;
  Optional : option IOptional
}.

Definition new (Name : string) (ValidateFce : IValidate) : t :=
  {| Name := Name; ValidateFce := ValidateFce; Error := Err.new_Error; Optional := None |}.

Definition HasErrors (this : t) (ext : value) : bool :=
  if suppressed (Optional this) ext then false
  else Err.HasError (Error this).

Definition HasError (this : t) (ext : value) : bool := HasErrors this ext.

Definition ErrorCount (this : t) (ext : value) : nat :=
  if HasErrors this ext then 1 else 0.

Definition ErrorMessage (this : t) (ext : value) : string :=
  if negb (HasErrors this ext) then ""
  else Err.ErrorMessage (Error this).

Definition TranslateArgs (this : t) (ext : value) : list (option Err.IErrorTranslateArgs) :=
  if negb (HasErrors this ext) then []
  else [Err.TranslateArgs (Error this)].

(** [this.ValidateFce.bind(context)(this.Error); return this.HasError;]
    The boolean returned is what the getter reads from the external state
    at that moment. *)
Definition Validate (context : value) : M t (value -> bool) :=
  fun this =>
    let '(r, error) := ValidateFce this context (Error this) in
    let this' := {| Name := Name this; ValidateFce := ValidateFce this;
                    Error := error; Optional := Optional this |} in
    match r with
    | Normal _ => (Normal (HasError this'), this')
    | Abrupt e => (Abrupt e, this')
    end.

End Validator.

(** ** The declaration surface *)

Module AbstractValidator.

Record IValidatorFce : Type := mkFce {
  Name : string;
  ValidationFce : IValidate
}.

(** A declaration and its nested declarations form a tree: a nested
    declaration is recorded under its property with the [ForList] flag
    [ValidatorFor] gave it (one nested declaration object recorded under
    two properties is two subtrees here). *)
Inductive t : Type := mk {
  Validators : obj (list nat);
  AbstractValidators : obj t;
  ValidationFunctions : obj (list IValidatorFce);
  ForList : bool
}.

Definition new : t :=
  {| Validators := []; AbstractValidators := []; ValidationFunctions := []; ForList := false |}.

(** [RuleFor(prop, validator)], for a property that is a plain key. *)
Definition RuleFor (prop : string) (validator : nat) (this : t) : t :=
  {| Validators :=
       JsObject.set prop (default [] (JsObject.get prop (Validators this)) ++ [validator])%list
                    (Validators this);
     AbstractValidators := AbstractValidators this;
     ValidationFunctions := ValidationFunctions this;
     ForList := ForList this |}.

(** [ValidationFor(prop, fce)], for a property that is a plain key. *)
Definition ValidationFor (prop : string) (fce : IValidatorFce) (this : t) : t :=
  {| Validators := Validators this;
     AbstractValidators := AbstractValidators this;
     ValidationFunctions :=
       JsObject.set prop (default [] (JsObject.get prop (ValidationFunctions this)) ++ [fce])%list
                    (ValidationFunctions this);
     ForList := ForList this |}.

(** [ValidatorFor(prop, validator, forList)], for a nested declaration
    registered once. *)
Definition ValidatorFor (prop : string) (validator : t) (forList : bool) (this : t) : t :=
  {| Validators := Validators this;
     AbstractValidators :=
       JsObject.set prop
         {| Validators := Validators validator;
            AbstractValidators := AbstractValidators validator;
            ValidationFunctions := ValidationFunctions validator;
            ForList := forList |}
         (AbstractValidators this);
     ValidationFunctions := ValidationFunctions this;
     ForList := ForList this |}.

End AbstractValidator.

(** ** Composite results *)

Module CompositeValidationResult.

(** The results a rule adds to its composite are the rule's own objects; a
    contributor names the object by the place the rule keeps it in. *)
Inductive contributor : Type :=
| OfRule (prop : string)
| OfValidator (name : string)
| OfChild (key : string).

(** Modelled from the spec: the class [CompositeValidationResult] of
    errors.ts is not among the sources. A composite result is a named
    container of the results added to it, in the order they were added,
    with its own optional-suppression predicate. *)
Record t : Type := mk {
  Name : string;
  Optional : option IOptional;
  Children : list contributor
}.

Definition new (Name : string) : t :=
  {| Name := Name; Optional := None; Children := [] |}.

Definition Add (c : contributor) (this : t) : t :=
  {| Name := Name this; Optional := Optional this; Children := Children this ++ [c] |}.

End CompositeValidationResult.

(** ** AbstractValidationRule and AbstractListValidationRule *)

Module AbstractValidationRule.

(** A rule node. [IsList] tells the class of the node:
    [AbstractListValidationRule] overrides [Validate] and [ValidateAsync]. *)
Inductive t : Type := mk {
  Name : string;
  validator : AbstractValidator.t;
  IsList : bool;
  ValidationResult : CompositeValidationResult.t;
  Rules : obj PropertyValidationRule.t;
  Validators : obj Validator.t;
  Children : obj t
}.

Definition set_ValidationResult (x : CompositeValidationResult.t) (this : t) : t :=
  mk (Name this) (validator this) (IsList this) x (Rules this) (Validators this) (Children this).

Definition set_Rules (x : obj PropertyValidationRule.t) (this : t) : t :=
  mk (Name this) (validator this) (IsList this) (ValidationResult this) x (Validators this) (Children this).

Definition set_Validators (x : obj Validator.t) (this : t) : t :=
  mk (Name this) (validator this) (IsList this) (ValidationResult this) (Rules this) x (Children this).

Definition set_Children (x : obj t) (this : t) : t :=
  mk (Name this) (validator this) (IsList this) (ValidationResult this) (Rules this) (Validators this) x.

(** [this.ValidationResult.Add(result)] *)
Definition Add (c : CompositeValidationResult.contributor) (this : t) : t :=
  set_ValidationResult (CompositeValidationResult.Add c (ValidationResult this)) this.

(** The fields a constructor starts from. *)
Definition initial (Name : string) (validator : AbstractValidator.t) (isList : bool) : t :=
  {| Name := Name; validator := validator; IsList := isList;
     ValidationResult := CompositeValidationResult.new Name;
     Rules := []; Validators := []; Children := [] |}.

Definition createRuleFor (w : World) (prop : string) (this : t) : t :=
  Add (CompositeValidationResult.OfRule prop)
      (set_Rules (JsObject.set prop (PropertyValidationRule.new w prop []) (Rules this)) this).

(** First loop of the constructor: a property rule per declared property,
    with the declared validators added to it. *)
Definition add_rules (w : World) (this : t) : t :=
  foldl (fun this '(key, val) =>
           foldl (fun this validator =>
                    set_Rules (JsObject.alter (PropertyValidationRule.AddValidator w validator)
                                              key (Rules this)) this)
                 (createRuleFor w key this) val)
        this (AbstractValidator.Validators (validator this)).

(** The function the second loop of the constructor applies to each
    declared validation function: a [Validator] is made for its name
    unless there is one. *)
Definition add_validator (this : t) (validation : AbstractValidator.IValidatorFce) : t :=
  match JsObject.get (AbstractValidator.Name validation) (Validators this) with
  | None =>
      Add (CompositeValidationResult.OfValidator (AbstractValidator.Name validation))
          (set_Validators
             (JsObject.set (AbstractValidator.Name validation)
                (Validator.new (AbstractValidator.Name validation)
                               (AbstractValidator.ValidationFce validation))
                (Validators this)) this)
  | Some _ => this
  end.

(** Second loop of the constructor: a [Validator] per declared
    shared-validation name. *)
Definition add_validators (this : t) : t :=
  foldl (fun this val => foldl add_validator this val)
        this (JsObject.values (AbstractValidator.ValidationFunctions (validator this))).

(** [this.Children[key] = validationRule; this.ValidationResult.Add(validationRule.ValidationResult);] *)
Definition add_child (key : string) (validationRule : t) (this : t) : t :=
  Add (CompositeValidationResult.OfChild key)
      (set_Children (JsObject.set key validationRule (Children this)) this).

(** [new AbstractListValidationRule(Name, validator)]: [super(Name, validator, true)] *)
Definition new_list (Name : string) (validator : AbstractValidator.t) : t :=
  initial Name validator true.

(** [new AbstractValidationRule(Name, validator, forList)] *)
Fixpoint new (w : World) (Name : string) (validator : AbstractValidator.t)
    (forList : bool) {struct validator} : t :=
  let this := initial Name validator false in
  if forList then this
  else
    let this := add_validators (add_rules w this) in
    match validator with
    | AbstractValidator.mk _ nested _ _ =>
        (fix addChildren (nested : obj AbstractValidator.t) (this : t) {struct nested} : t :=
           match nested with
           | [] => this
           | (key, val) :: rest =>
               let validationRule :=
                 if AbstractValidator.ForList val
                 then new_list key val
                 else new w key val false in
               addChildren rest (add_child key validationRule this)
           end) nested this
    end.

Definition CreateAbstractRule (w : World) (validator : AbstractValidator.t) (name : string) : t :=
  new w name validator false.

Definition CreateAbstractListRule (w : World) (validator : AbstractValidator.t) (name : string) : t :=
  new_list name validator.

Definition CreateRule (w : World) (validator : AbstractValidator.t) (name : string) : t :=
  new w name validator false.

Definition addChildren (w : World) (this : t) : t :=
  foldl (fun this '(key, val) =>
           add_child key
             (if AbstractValidator.ForList val
              then CreateAbstractListRule w val key
              else CreateAbstractRule w val key) this)
        this (AbstractValidator.AbstractValidators (validator this)).

Definition SetOptional (fce : IOptional) (this : t) : t :=
  set_ValidationResult
    {| CompositeValidationResult.Name := CompositeValidationResult.Name (ValidationResult this);
       CompositeValidationResult.Optional := Some fce;
       CompositeValidationResult.Children := CompositeValidationResult.Children (ValidationResult this) |}
    this.

Definition getIndexedKey (this : t) (i : nat) : string := Name this +:+ pretty i.

Definition getValidationRule (this : t) (i : nat) : option t :=
  JsObject.get (getIndexedKey this i) (Children this).

(** The activation of a method: the receiver, the object the [context]
    argument refers to, the world and the method's [var]s. *)
Record frame (L : Type) : Type := mkFrame {
  this : t;
  data : value;
  world : World;
  locals : L
}.
Arguments mkFrame {L} this data world locals.
Arguments this {L} f.
Arguments data {L} f.
Arguments world {L} f.
Arguments locals {L} f.

Abbreviation state := (frame unit).

Definition on_this {L : Type} (f : t -> t) : M (frame L) unit :=
  modify (fun fr => mkFrame (f (this fr)) (data fr) (world fr) (locals fr)).

Definition on_data {L : Type} (f : value -> value) : M (frame L) unit :=
  modify (fun fr => mkFrame (this fr) (f (data fr)) (world fr) (locals fr)).

Definition on_locals {L : Type} (f : L -> L) : M (frame L) unit :=
  modify (fun fr => mkFrame (this fr) (data fr) (world fr) (f (locals fr))).

Definition call {L A : Type} (init : L) (m : M (frame L) A) : M state A :=
  fun s =>
    let '(r, fr) := m (mkFrame (this s) (data s) (world s) init) in
    (r, mkFrame (this fr) (data fr) (world fr) tt).

(** A method call on the property rule [this.Rules[prop]]. *)
Definition in_rule {L A : Type} (prop : string) (m : M PropertyValidationRule.state A)
    : M (frame L) A :=
  fun fr =>
    match JsObject.get prop (Rules (this fr)) with
    | None => (Abrupt TypeError, fr)
    | Some rule =>
        let '(r, s) := m (PropertyValidationRule.mkFrame rule (world fr) tt) in
        (r, mkFrame (set_Rules (JsObject.set prop (PropertyValidationRule.this s) (Rules (this fr)))
                               (this fr))
                    (data fr) (PropertyValidationRule.world s) (locals fr))
    end.

(** A method call on the shared validator [this.Validators[name]]. *)
Definition in_validator {L A : Type} (name : string) (m : M Validator.t A) : M (frame L) A :=
  fun fr =>
    match JsObject.get name (Validators (this fr)) with
    | None => (Abrupt TypeError, fr)
    | Some validator =>
        let '(r, validator') := m validator in
        (r, mkFrame (set_Validators (JsObject.set name validator' (Validators (this fr)))
                                    (this fr))
                    (data fr) (world fr) (locals fr))
    end.

(** A method call on the child rule [this.Children[key]] with the nested
    object [item] as its context; [store] puts the nested object, as the
    child left it, back in its place in the context. *)
Definition in_child {L A : Type} (key : string) (item : value)
    (store : value -> value -> value) (m : M state A) : M (frame L) A :=
  fun fr =>
    match JsObject.get key (Children (this fr)) with
    | None => (Abrupt TypeError, fr)
    | Some child =>
        let '(r, s) := m (mkFrame child item (world fr) tt) in
        (r, mkFrame (set_Children (JsObject.set key (this s) (Children (this fr))) (this fr))
                    (store (data fr) (data s)) (world s) (locals fr))
    end.

(** The nested object at [key], as the child left it, in its place in the
    context. Nothing is put where the context has no such property. *)
Definition put_prop (key : string) (context : value) (item : value) : value :=
  match context with
  | VObj props => VObj (JsObject.alter (fun _ => item) key props)
  | _ => context
  end.

Definition put_index (i : nat) (context : value) (item : value) : value :=
  setIndex context i item.

(** The body of the loop of [NotifyListChanged]. *)
Definition notify_item {L : Type} (i : nat) : M (frame L) unit :=
  (validationRule <- gets (fun fr => getValidationRule (this fr) i) ;;
   match validationRule with
   | Some _ => ret tt
   | None =>
       modify (fun fr =>
         let keyName := getIndexedKey (this fr) i in
         let validationRule := CreateAbstractRule (world fr) (validator (this fr)) keyName in
         mkFrame (add_child keyName validationRule (this fr)) (data fr) (world fr) (locals fr))
   end)%js.

(** [NotifyListChanged(list)] *)
Definition NotifyListChanged {L : Type} (list : value) : M (frame L) unit :=
  (length <- lift (getLength list) ;;
   for_each (seq 0 length) notify_item)%js.

(** The last loop of [Validate]: the shared validators behind the declared
    validation functions [valFunctions]. *)
Definition validate_shared {L : Type} (valFunctions : list AbstractValidator.IValidatorFce)
    : M (frame L) unit :=
  for_each valFunctions (fun valFce =>
    (found <- gets (fun fr => JsObject.get (AbstractValidator.Name valFce) (Validators (this fr))) ;;
     match found with
     | None => ret tt
     | Some _ =>
         context <- gets data ;;
         in_validator (AbstractValidator.Name valFce) (Validator.Validate context) ;;; ret tt
     end)%js).

(** The function [Validate] of the base class applies to each child:
    [function(val,key){ if (context[key] === undefined) context[key] = {};
    val.Validate(context[key]); }]. [Validate] is the method as the child
    runs it. *)
Definition validate_child {L : Type} (Validate : M state unit) (key : string) : M (frame L) unit :=
  (context <- gets data ;;
   item <- lift (getProp context key) ;;
   (if is_undefined item
    then context' <- lift (setProp context key (VObj [])) ;;
         on_data (fun _ => context')
    else ret tt) ;;;
   context <- gets data ;;
   item <- lift (getProp context key) ;;
   in_child key item (put_prop key) Validate)%js.

(** [rule.Validate(new ValidationContext(propName,context))] *)
Definition validate_rule {L : Type} (propName : string) : M (frame L) unit :=
  (context <- gets data ;;
   in_rule propName
     (PropertyValidationRule.Validate (ValidationContext.mk propName context)) ;;;
   ret tt)%js.

(** The body of the loop of [Validate] of the list class. *)
Definition validate_item {L : Type} (Validate : M state unit) (i : nat) : M (frame L) unit :=
  (validationRule <- gets (fun fr => getValidationRule (this fr) i) ;;
   match validationRule with
   | None => ret tt
   | Some _ =>
       key <- gets (fun fr => getIndexedKey (this fr) i) ;;
       context <- gets data ;;
       item <- lift (getIndex context i) ;;
       in_child key item (put_index i) Validate
   end)%js.

(** [Validate(context)], of the base class and of the list class. The
    traversal is bounded by [fuel]; one unit is used per level of the rule
    tree. *)
Fixpoint Validate (fuel : nat) : M state unit :=
  match fuel with
  | O => throw OutOfFuel
  | S fuel =>
      (is_list <- gets (fun fr => IsList (this fr)) ;;
       if (is_list : bool)
       then
         context <- gets data ;;
         NotifyListChanged context ;;;
         length <- lift (getLength context) ;;
         for_each (seq 0 length) (validate_item (Validate fuel))
       else
         keys <- gets (fun fr => JsObject.keys (Children (this fr))) ;;
         for_each keys (validate_child (Validate fuel)) ;;;
         props <- gets (fun fr => JsObject.keys (Rules (this fr))) ;;
         for_each props validate_rule ;;;
         declared <- gets (fun fr =>
           JsObject.values (AbstractValidator.ValidationFunctions (validator (this fr)))) ;;
         for_each declared validate_shared)%js
  end.

(** Whether [Q.all(promises)] is fulfilled. *)
Definition all_resolved (promises : list (promise unit)) : bool :=
  forallb (fun p => match p with Resolved _ => true | _ => false end) promises.

Definition push (p : promise unit) : M (frame (list (promise unit))) unit :=
  on_locals (fun promises => promises ++ [p]).

(** The function [ValidateAsync] of the base class applies to each child:
    [function(val,key){ promises.push(val.ValidateAsync(context[key])); }] *)
Definition validateAsync_child (ValidateAsync : M state (promise unit)) (key : string)
    : M (frame (list (promise unit))) unit :=
  (context <- gets data ;;
   item <- lift (getProp context key) ;;
   p <- in_child key item (put_prop key) ValidateAsync ;;
   push p)%js.

(** [promises.push(rule.ValidateAsync(new ValidationContext(propName,context)))] *)
Definition validateAsync_rule (sched : schedule) (propName : string)
    : M (frame (list (promise unit))) unit :=
  (context <- gets data ;;
   p <- in_rule propName
          (PropertyValidationRule.ValidateAsync sched (ValidationContext.mk propName context)) ;;
   push (match p with
         | Resolved _ => Resolved tt
         | Pending => Pending
         | Rejected reason => Rejected reason
         end))%js.

(** The body of the loop of [ValidateAsync] of the list class. *)
Definition validateAsync_item (ValidateAsync : M state (promise unit)) (i : nat)
    : M (frame (list (promise unit))) unit :=
  (validationRule <- gets (fun fr => getValidationRule (this fr) i) ;;
   match validationRule with
   | None => ret tt
   | Some _ =>
       key <- gets (fun fr => getIndexedKey (this fr) i) ;;
       context <- gets data ;;
       item <- lift (getIndex context i) ;;
       p <- in_child key item (put_index i) ValidateAsync ;;
       push p
   end)%js.

(** [ValidateAsync(context)], of the base class and of the list class, with
    the state in which it leaves the tree once the promises of the
    validators have settled. The promise it returns is resolved by the
    [then] handler of [Q.all(promises)], which has no rejection handler. *)
Fixpoint ValidateAsync (sched : schedule) (fuel : nat) : M state (promise unit) :=
  match fuel with
  | O => throw OutOfFuel
  | S fuel =>
      call []
        (is_list <- gets (fun fr => IsList (this fr)) ;;
         (if (is_list : bool)
          then
            context <- gets data ;;
            NotifyListChanged context ;;;
            length <- lift (getLength context) ;;
            for_each (seq 0 length) (validateAsync_item (ValidateAsync sched fuel))
          else
            keys <- gets (fun fr => JsObject.keys (Children (this fr))) ;;
            for_each keys (validateAsync_child (ValidateAsync sched fuel)) ;;;
            props <- gets (fun fr => JsObject.keys (Rules (this fr))) ;;
            for_each props (validateAsync_rule sched)) ;;;
         promises <- gets locals ;;
         ret (if all_resolved promises then Resolved tt else Pending))%js
  end.

Definition ValidateAll (sched : schedule) (fuel : nat) : M state unit :=
  (Validate fuel ;;;
   ValidateAsync sched fuel ;;; ret tt)%js.

Definition ValidateField (sched : schedule) (fuel : nat) (propName : string) : M state unit :=
  (childRule <- gets (fun fr => JsObject.get propName (Children (this fr))) ;;
   match childRule with
   | None => ret tt
   | Some _ =>
       context <- gets data ;;
       item <- lift (getProp context propName) ;;
       in_child propName item (put_prop propName) (Validate fuel)
   end ;;;
   rule <- gets (fun fr => JsObject.get propName (Rules (this fr))) ;;
   match rule with
   | None => ret tt
   | Some _ =>
       context <- gets data ;;
       in_rule propName
         (PropertyValidationRule.Validate (ValidationContext.mk propName context)) ;;;
       in_rule propName
         (PropertyValidationRule.ValidateAsync sched (ValidationContext.mk propName context)) ;;;
       ret tt
   end ;;;
   validationFces <- gets (fun fr =>
     JsObject.get propName (AbstractValidator.ValidationFunctions (validator (this fr)))) ;;
   match validationFces with
   | None => ret tt
   | Some validationFces => validate_shared validationFces
   end)%js.

End AbstractValidationRule.

(** ** Vocabulary of the statements *)

(** The value of [hasError] a synchronous check of [value] by the validator
    [o] is expected to record. *)
Definition hasError_of (o : ValidatorObj) (v : value) : bool :=
  if absent v && negb (String.eqb (tagName o) "required") then false
  else match isAcceptable o v with
       | Returns (RBool b) => negb b
       | _ => false
       end.

(** [w'] holds the validator instances of [w] with the same tag, flag and
    check, and the same fields but for [AttemptedValue]. *)
Definition validators_kept (w w' : World) : Prop :=
  forall r,
    tagName (heap w' r) = tagName (heap w r) /\
    isAsync (heap w' r) = isAsync (heap w r) /\
    isAcceptable (heap w' r) = isAcceptable (heap w r) /\
    forall k, k ≠ "AttemptedValue" ->
      JsObject.get k (fields (heap w' r)) = JsObject.get k (fields (heap w r)).

(** One iteration of the loop of [ValidateEx] on a frame whose
    [lastPriority] is 0, case by case. *)
Inductive sync_step (v : value) (index : string)
    (fr : PropertyValidationRule.frame PropertyValidationRule.sync_locals)
  : completion unit ->
    PropertyValidationRule.frame PropertyValidationRule.sync_locals -> Prop :=
| sync_step_no_failure :
    JsObject.get index (PropertyValidationRule.ValidationFailures (PropertyValidationRule.this fr)) = None ->
    sync_step v index fr (Abrupt TypeError) fr
| sync_step_async failure :
    JsObject.get index (PropertyValidationRule.ValidationFailures (PropertyValidationRule.this fr)) = Some failure ->
    Err.IsAsync failure = true ->
    sync_step v index fr (Normal tt) fr
| sync_step_no_validator failure :
    JsObject.get index (PropertyValidationRule.ValidationFailures (PropertyValidationRule.this fr)) = Some failure ->
    Err.IsAsync failure = false ->
    JsObject.get index (PropertyValidationRule.Validators (PropertyValidationRule.this fr)) = None ->
    sync_step v index fr (Abrupt TypeError) fr
| sync_step_absent failure ref :
    JsObject.get index (PropertyValidationRule.ValidationFailures (PropertyValidationRule.this fr)) = Some failure ->
    Err.IsAsync failure = false ->
    JsObject.get index (PropertyValidationRule.Validators (PropertyValidationRule.this fr)) = Some ref ->
    absent v && negb (String.eqb (tagName (heap (PropertyValidationRule.world fr) ref)) "required") = true ->
    sync_step v index fr (Normal tt)
      (PropertyValidationRule.with_locals
         (fun _ => PropertyValidationRule.mkSync 0 false)
         (PropertyValidationRule.record_outcome index ref v false fr).2)
| sync_step_checked failure ref r :
    JsObject.get index (PropertyValidationRule.ValidationFailures (PropertyValidationRule.this fr)) = Some failure ->
    Err.IsAsync failure = false ->
    JsObject.get index (PropertyValidationRule.Validators (PropertyValidationRule.this fr)) = Some ref ->
    absent v && negb (String.eqb (tagName (heap (PropertyValidationRule.world fr) ref)) "required") = false ->
    isAcceptable (heap (PropertyValidationRule.world fr) ref) v = Returns r ->
    sync_step v index fr (Normal tt)
      (PropertyValidationRule.with_locals
         (fun _ => PropertyValidationRule.mkSync 0 (hasError_of (heap (PropertyValidationRule.world fr) ref) v))
         (PropertyValidationRule.record_outcome index ref v
            (hasError_of (heap (PropertyValidationRule.world fr) ref) v)
            (PropertyValidationRule.with_world (emit (EvCall ref v)) fr)).2)
| sync_step_thrown failure ref e :
    JsObject.get index (PropertyValidationRule.ValidationFailures (PropertyValidationRule.this fr)) = Some failure ->
    Err.IsAsync failure = false ->
    JsObject.get index (PropertyValidationRule.Validators (PropertyValidationRule.this fr)) = Some ref ->
    absent v && negb (String.eqb (tagName (heap (PropertyValidationRule.world fr) ref)) "required") = false ->
    isAcceptable (heap (PropertyValidationRule.world fr) ref) v = Throws e ->
    sync_step v index fr (Abrupt (Thrown e))
      (PropertyValidationRule.with_world
         (fun w => emit (EvLog ("Exception occurred when checking element'"
                                +:+ tagName (heap w ref) +:+ "' method.") (Thrown e))
                        (emit (EvCall ref v) w))
         fr).

(** What a failure slot holds once an outcome was recorded in it. *)
Definition recorded (ref : nat) (v : value) (hasError : bool) (w : World)
    (failure : Err.IValidationFailure) : Err.IValidationFailure :=
  {| Err.Error :=
       {| Err.HasError := hasError;
          Err.ErrorMessage :=
            if hasError
            then MessageLocalization.GetValidationMessage (heap (extend_AttemptedValue ref v w) ref)
            else "";
          Err.TranslateArgs :=
            Some {| Err.TranslateId := tagName (heap w ref); Err.MessageArgs := ref |} |};
     Err.IsAsync := Err.IsAsync failure |}.

(** What a pass over a property rule leaves as it was: the rule's name,
    predicate, validators, the keys of its failure slots and their
    [IsAsync] flags, and the validator instances but for [AttemptedValue];
    the events of the pass are added to the trace. *)
Record rule_kept {L L' : Type}
    (fr : PropertyValidationRule.frame L) (fr' : PropertyValidationRule.frame L') : Prop :=
  mkRuleKept {
  kept_Name :
    PropertyValidationRule.Name (PropertyValidationRule.this fr')
    = PropertyValidationRule.Name (PropertyValidationRule.this fr);
  kept_Optional :
    PropertyValidationRule.Optional (PropertyValidationRule.this fr')
    = PropertyValidationRule.Optional (PropertyValidationRule.this fr);
  kept_Validators :
    PropertyValidationRule.Validators (PropertyValidationRule.this fr')
    = PropertyValidationRule.Validators (PropertyValidationRule.this fr);
  kept_keys :
    JsObject.keys (PropertyValidationRule.ValidationFailures (PropertyValidationRule.this fr'))
    = JsObject.keys (PropertyValidationRule.ValidationFailures (PropertyValidationRule.this fr));
  kept_IsAsync : forall k,
    Err.IsAsync <$> JsObject.get k (PropertyValidationRule.ValidationFailures (PropertyValidationRule.this fr'))
    = Err.IsAsync <$> JsObject.get k (PropertyValidationRule.ValidationFailures (PropertyValidationRule.this fr));
  kept_validators :
    validators_kept (PropertyValidationRule.world fr) (PropertyValidationRule.world fr');
  kept_trace : exists new,
    trace (PropertyValidationRule.world fr') = trace (PropertyValidationRule.world fr) ++ new
}.

(** The calls of [isAcceptable] a pass made between two frames: each is a
    call on the value under evaluation, of a validator of the rule, and not
    one the absent-value rule exempts. *)
Definition calls_justified {L L' : Type} (v : value)
    (fr : PropertyValidationRule.frame L) (fr' : PropertyValidationRule.frame L') : Prop :=
  exists new,
    trace (PropertyValidationRule.world fr') = trace (PropertyValidationRule.world fr) ++ new /\
    forall r v', EvCall r v' ∈ new ->
      v' = v /\
      (exists index,
         JsObject.get index (PropertyValidationRule.Validators (PropertyValidationRule.this fr))
         = Some r) /\
      absent v && negb (String.eqb (tagName (heap (PropertyValidationRule.world fr) r)) "required")
      = false.

(** The slot of [index] holds the outcome of the validator at [ref] for
    [v], and the validator was called unless the absent-value rule applied. *)
Definition slot_written {L : Type} (w0 : World) (v : value) (index : string) (ref : nat)
    (fr : PropertyValidationRule.frame L) : Prop :=
  (exists failure,
     JsObject.get index (PropertyValidationRule.ValidationFailures (PropertyValidationRule.this fr))
     = Some failure /\
     Err.HasError (Err.Error failure) = hasError_of (heap w0 ref) v /\
     Err.TranslateArgs (Err.Error failure)
     = Some {| Err.TranslateId := tagName (heap w0 ref); Err.MessageArgs := ref |} /\
     (Err.HasError (Err.Error failure) = false -> Err.ErrorMessage (Err.Error failure) = "")) /\
  (absent v && negb (String.eqb (tagName (heap w0 ref)) "required") = false ->
   EvCall ref v ∈ trace (PropertyValidationRule.world fr)).

(** The locals [ValidateEx] starts with. *)
Definition sync_init : PropertyValidationRule.sync_locals :=
  {| PropertyValidationRule.lastPriority := 0; PropertyValidationRule.shortCircuited := false |}.

(** The locals [ValidateAsyncEx] starts with. *)
Definition async_init : PropertyValidationRule.async_locals :=
  {| PropertyValidationRule.validation := None; PropertyValidationRule.validator := None;
     PropertyValidationRule.promises := [] |}.

(** One iteration of the loop of [ValidateAsyncEx], case by case. The
    iteration never writes to the rule; it sets the variables [validation]
    and [validator] and pushes a promise. *)
Inductive async_step (v : value) (index : string)
    (fr : PropertyValidationRule.frame PropertyValidationRule.async_locals)
  : completion unit ->
    PropertyValidationRule.frame PropertyValidationRule.async_locals -> Prop :=
| async_step_no_failure :
    JsObject.get index (PropertyValidationRule.ValidationFailures (PropertyValidationRule.this fr)) = None ->
    async_step v index fr (Abrupt TypeError)
      (PropertyValidationRule.with_locals
         (fun l => PropertyValidationRule.mkAsync None
                     (PropertyValidationRule.validator l) (PropertyValidationRule.promises l)) fr)
| async_step_sync failure :
    JsObject.get index (PropertyValidationRule.ValidationFailures (PropertyValidationRule.this fr)) = Some failure ->
    Err.IsAsync failure = false ->
    async_step v index fr (Normal tt)
      (PropertyValidationRule.with_locals
         (fun l => PropertyValidationRule.mkAsync (Some index)
                     (PropertyValidationRule.validator l) (PropertyValidationRule.promises l)) fr)
| async_step_no_validator failure :
    JsObject.get index (PropertyValidationRule.ValidationFailures (PropertyValidationRule.this fr)) = Some failure ->
    Err.IsAsync failure = true ->
    JsObject.get index (PropertyValidationRule.Validators (PropertyValidationRule.this fr)) = None ->
    async_step v index fr (Abrupt TypeError)
      (PropertyValidationRule.with_locals
         (fun l => PropertyValidationRule.mkAsync (Some index) None
                     (PropertyValidationRule.promises l)) fr)
| async_step_absent failure ref :
    JsObject.get index (PropertyValidationRule.ValidationFailures (PropertyValidationRule.this fr)) = Some failure ->
    Err.IsAsync failure = true ->
    JsObject.get index (PropertyValidationRule.Validators (PropertyValidationRule.this fr)) = Some ref ->
    absent v && negb (String.eqb (tagName (heap (PropertyValidationRule.world fr) ref)) "required") = true ->
    async_step v index fr (Normal tt)
      (PropertyValidationRule.with_locals
         (fun l => PropertyValidationRule.mkAsync (Some index) (Some ref)
                     (PropertyValidationRule.promises l ++ [Fulfils true])) fr)
| async_step_promise failure ref p :
    JsObject.get index (PropertyValidationRule.ValidationFailures (PropertyValidationRule.this fr)) = Some failure ->
    Err.IsAsync failure = true ->
    JsObject.get index (PropertyValidationRule.Validators (PropertyValidationRule.this fr)) = Some ref ->
    absent v && negb (String.eqb (tagName (heap (PropertyValidationRule.world fr) ref)) "required") = false ->
    isAcceptable (heap (PropertyValidationRule.world fr) ref) v = Returns (RPromise p) ->
    async_step v index fr (Normal tt)
      (PropertyValidationRule.with_locals
         (fun l => PropertyValidationRule.mkAsync (Some index) (Some ref)
                     (PropertyValidationRule.promises l ++ [p]))
         (PropertyValidationRule.with_world (emit (EvCall ref v)) fr))
| async_step_thrown failure ref e :
    JsObject.get index (PropertyValidationRule.ValidationFailures (PropertyValidationRule.this fr)) = Some failure ->
    Err.IsAsync failure = true ->
    JsObject.get index (PropertyValidationRule.Validators (PropertyValidationRule.this fr)) = Some ref ->
    absent v && negb (String.eqb (tagName (heap (PropertyValidationRule.world fr) ref)) "required") = false ->
    match isAcceptable (heap (PropertyValidationRule.world fr) ref) v with
    | Returns (RBool _) => e = TypeError
    | Throws x => e = Thrown x
    | Returns (RPromise _) => False
    end ->
    async_step v index fr (Abrupt e)
      (PropertyValidationRule.with_locals
         (fun l => PropertyValidationRule.mkAsync (Some index) (Some ref)
                     (PropertyValidationRule.promises l))
         (PropertyValidationRule.with_world
            (fun w => emit (EvLog ("Exception occurred when checking element'"
                                   +:+ tagName (heap w ref) +:+ "' method.") e)
                           (emit (EvCall ref v) w))
            fr)).

(** A promise pushed by the loop of [ValidateAsyncEx]: the fulfilled
    [Q.when(true)], or the promise a validator of the rule returned when it
    was called. *)
Definition promise_justified {L : Type} (v : value)
    (fr : PropertyValidationRule.frame L) (p : settlement) : Prop :=
  p = Fulfils true \/
  exists index ref,
    Err.IsAsync <$> JsObject.get index (PropertyValidationRule.ValidationFailures (PropertyValidationRule.this fr))
    = Some true /\
    JsObject.get index (PropertyValidationRule.Validators (PropertyValidationRule.this fr))
    = Some ref /\
    absent v && negb (String.eqb (tagName (heap (PropertyValidationRule.world fr) ref)) "required")
    = false /\
    isAcceptable (heap (PropertyValidationRule.world fr) ref) v = Returns (RPromise p).

(** No failure slot went from passing to failing between two states of a
    rule. *)
Definition no_new_failure (rule rule' : PropertyValidationRule.t) : Prop :=
  forall index failure',
    JsObject.get index (PropertyValidationRule.ValidationFailures rule') = Some failure' ->
    Err.HasError (Err.Error failure') = true ->
    exists failure,
      JsObject.get index (PropertyValidationRule.ValidationFailures rule) = Some failure /\
      Err.HasError (Err.Error failure) = true.

(** All failure slots but the one named by [target] are the same in two
    states of a rule. *)
Definition slots_kept_but (target : option string) (rule rule' : PropertyValidationRule.t) : Prop :=
  forall index, Some index ≠ target ->
    JsObject.get index (PropertyValidationRule.ValidationFailures rule')
    = JsObject.get index (PropertyValidationRule.ValidationFailures rule).

(** A property rule agrees with the validator instances of the world: its
    failure slots and its validators have the same keys, a validator is
    kept under its own tag, and a slot's [IsAsync] flag is the validator's. *)
Definition rule_wf (w : World) (rule : PropertyValidationRule.t) : Prop :=
  forall index,
    match JsObject.get index (PropertyValidationRule.ValidationFailures rule),
          JsObject.get index (PropertyValidationRule.Validators rule) with
    | Some failure, Some ref =>
        tagName (heap w ref) = index /\ Err.IsAsync failure = isAsync (heap w ref)
    | None, None => True
    | _, _ => False
    end.

(** ** Validators used in the examples *)

Module Fixtures.

(** Accepts everything but [undefined], [null] and the empty string. *)
Definition required : ValidatorObj :=
  {| tagName := "required"; isAsync := false;
     isAcceptable := fun v =>
       Returns (RBool (match v with
                       | VUndefined | VNull | VStr "" => false
                       | _ => true
                       end));
     fields := [] |}.

(** Accepts strings of at most three characters. *)
Definition maxlength : ValidatorObj :=
  {| tagName := "maxlength"; isAsync := false;
     isAcceptable := fun v =>
       Returns (RBool (match v with
                       | VStr s => bool_decide (String.length s <= 3)
                       | _ => true
                       end));
     fields := [("MaxLength", VNum 3)] |}.

(** Asynchronous; its promise is fulfilled with whether the value is one
    of the options A and B. *)
Definition contains : ValidatorObj :=
  {| tagName := "contains"; isAsync := true;
     isAcceptable := fun v =>
       Returns (RPromise (Fulfils (match v with
                                   | VStr "A" | VStr "B" => true
                                   | _ => false
                                   end)));
     fields := [] |}.

(** Asynchronous; its promise is rejected. *)
Definition unreachable : ValidatorObj :=
  {| tagName := "remote"; isAsync := true;
     isAcceptable := fun _ => Returns (RPromise (Rejects (VStr "service unreachable")));
     fields := [] |}.

(** Synchronous; its check throws. *)
Definition faulty : ValidatorObj :=
  {| tagName := "custom"; isAsync := false;
     isAcceptable := fun _ => Throws (VStr "fault");
     fields := [] |}.

(** Accepts numbers only. *)
Definition number : ValidatorObj :=
  {| tagName := "number"; isAsync := false;
     isAcceptable := fun v => Returns (RBool (match v with VNum _ => true | _ => false end));
     fields := [] |}.

Definition validators (ref : nat) : ValidatorObj :=
  match ref with
  | 0 => required
  | 1 => maxlength
  | 2 => contains
  | 3 => unreachable
  | 4 => faulty
  | _ => number
  end.

Definition world : World := {| heap := validators; trace := [] |}.

(** A rule with the asynchronous [contains] declared before [required]. *)
Definition code_rule : PropertyValidationRule.t :=
  PropertyValidationRule.new world "Code" [2; 0].

(** A rule with [maxlength] and [number]. *)
Definition size_rule : PropertyValidationRule.t :=
  PropertyValidationRule.new world "Size" [1; 5].

(** A rule whose only validator is [unreachable]. *)
Definition remote_rule : PropertyValidationRule.t :=
  PropertyValidationRule.new world "Login" [3].

(** A rule with [required] before [faulty]. *)
Definition faulty_rule : PropertyValidationRule.t :=
  PropertyValidationRule.new world "Note" [0; 4].




(** A shared validation that reports a failure when [From] is not a
    number. *)
Definition dates : AbstractValidator.IValidatorFce :=
  {| AbstractValidator.Name := "dates";
     AbstractValidator.ValidationFce := fun context error =>
       (Normal tt,
        Err.set_HasError
          (match getProp context "From" with Normal (VNum _) => false | _ => true end)
          error) |}.

(** The declaration of a phone: a [Code], required, at most three
    characters and among the options. *)
Definition phone : AbstractValidator.t :=
  AbstractValidator.RuleFor "Code" 2
    (AbstractValidator.RuleFor "Code" 1
       (AbstractValidator.RuleFor "Code" 0 AbstractValidator.new)).

(** The declaration of a person: a required [Name], a number [From] with
    the shared validation [dates], a nested [Mobile] and a list of
    [Phones]. *)
Definition person : AbstractValidator.t :=
  AbstractValidator.ValidatorFor "Phones" phone true
    (AbstractValidator.ValidatorFor "Mobile" phone false
       (AbstractValidator.ValidationFor "From" dates
          (AbstractValidator.RuleFor "From" 5
             (AbstractValidator.RuleFor "Name" 0 AbstractValidator.new)))).

Definition person_rule : AbstractValidationRule.t :=
  AbstractValidationRule.CreateRule world person "Main".

Definition person_data : value :=
  VObj [("Name", VStr "");
        ("From", VStr "soon");
        ("Mobile", VObj [("Code", VStr "+420")]);
        ("Phones", VArr [VObj [("Code", VStr "A")]])].

End Fixtures.

(** ** Relations a computation respects *)

(** Every run of [m] takes a frame to one related to it by [R], however the
    run ends. *)
Definition respects {S A : Type} (R : S -> S -> Prop) (m : M S A) : Prop :=
  forall s, R s (m s).2.

(** The validator instances of the world of a rule tree are kept. *)
Definition tree_world_kept {L L' : Type}
    (fr : AbstractValidationRule.frame L) (fr' : AbstractValidationRule.frame L') : Prop :=
  validators_kept (AbstractValidationRule.world fr) (AbstractValidationRule.world fr').



(** [error'] is what the error object [error] becomes when the validation
    function is run on it some number of times, each time on some context. *)
Inductive worked_on (fce : IValidate) : Err.IError -> Err.IError -> Prop :=
| worked_on_refl error : worked_on fce error error
| worked_on_step error context error' :
    worked_on fce (fce context error).2 error' -> worked_on fce error error'.

(** Two states of one shared validator node: the name, the function and
    the predicate are the same, and the error object is the earlier one as
    the function has worked on it since. *)
Definition same_instance (node node' : Validator.t) : Prop :=
  Validator.Name node' = Validator.Name node /\
  Validator.ValidateFce node' = Validator.ValidateFce node /\
  Validator.Optional node' = Validator.Optional node /\
  worked_on (Validator.ValidateFce node) (Validator.Error node) (Validator.Error node').

(** What every evaluation keeps of the node it is called on: its name,
    declaration and class, the keys of its property rules, its shared
    validator nodes, and all children and contributors it had; children
    and contributors may have been added after the ones it had. *)
Record node_kept {L L' : Type}
    (fr : AbstractValidationRule.frame L) (fr' : AbstractValidationRule.frame L') : Prop :=
  mkNodeKept {
  node_Name :
    AbstractValidationRule.Name (AbstractValidationRule.this fr')
    = AbstractValidationRule.Name (AbstractValidationRule.this fr);
  node_validator :
    AbstractValidationRule.validator (AbstractValidationRule.this fr')
    = AbstractValidationRule.validator (AbstractValidationRule.this fr);
  node_IsList :
    AbstractValidationRule.IsList (AbstractValidationRule.this fr')
    = AbstractValidationRule.IsList (AbstractValidationRule.this fr);
  node_Rules :
    JsObject.keys (AbstractValidationRule.Rules (AbstractValidationRule.this fr'))
    = JsObject.keys (AbstractValidationRule.Rules (AbstractValidationRule.this fr));
  node_Validators_keys :
    JsObject.keys (AbstractValidationRule.Validators (AbstractValidationRule.this fr'))
    = JsObject.keys (AbstractValidationRule.Validators (AbstractValidationRule.this fr));
  node_Validators : forall name node,
    JsObject.get name (AbstractValidationRule.Validators (AbstractValidationRule.this fr)) = Some node ->
    exists node',
      JsObject.get name (AbstractValidationRule.Validators (AbstractValidationRule.this fr')) = Some node' /\
      same_instance node node';
  node_Children : exists added,
    JsObject.keys (AbstractValidationRule.Children (AbstractValidationRule.this fr'))
    = JsObject.keys (AbstractValidationRule.Children (AbstractValidationRule.this fr)) ++ added;
  node_contributors : exists added,
    CompositeValidationResult.Children
      (AbstractValidationRule.ValidationResult (AbstractValidationRule.this fr'))
    = CompositeValidationResult.Children
        (AbstractValidationRule.ValidationResult (AbstractValidationRule.this fr)) ++ added
}.

(** A shared validator node as the constructor makes it for a declared
    validation function. *)
Definition made_for (declaration : AbstractValidator.t) (node : Validator.t) : Prop :=
  exists prop fces fce,
    (prop, fces) ∈ AbstractValidator.ValidationFunctions declaration /\
    fce ∈ fces /\
    node = Validator.new (AbstractValidator.Name fce) (AbstractValidator.ValidationFce fce).

(** [rule'] is the rule object [rule] as some number of validations with
    the given fuel, each on some context in some world, have left it. *)
Inductive validated (fuel : nat) : AbstractValidationRule.t -> AbstractValidationRule.t -> Prop :=
| validated_refl rule : validated fuel rule rule
| validated_step rule item w rule' :
    validated fuel
      (AbstractValidationRule.this
         (AbstractValidationRule.Validate fuel (AbstractValidationRule.mkFrame rule item w tt)).2)
      rule' ->
    validated fuel rule rule'.

(** What the loop of [Validate] of the list class does to the node: the
    node is the same but for its children, which are the same objects
    under the same keys, worked on by validation. *)
Record children_worked {L L' : Type} (fuel : nat)
    (fr : AbstractValidationRule.frame L) (fr' : AbstractValidationRule.frame L') : Prop :=
  mkChildrenWorked {
  worked_Name :
    AbstractValidationRule.Name (AbstractValidationRule.this fr')
    = AbstractValidationRule.Name (AbstractValidationRule.this fr);
  worked_ValidationResult :
    AbstractValidationRule.ValidationResult (AbstractValidationRule.this fr')
    = AbstractValidationRule.ValidationResult (AbstractValidationRule.this fr);
  worked_keys :
    JsObject.keys (AbstractValidationRule.Children (AbstractValidationRule.this fr'))
    = JsObject.keys (AbstractValidationRule.Children (AbstractValidationRule.this fr));
  worked_children : forall key child,
    JsObject.get key (AbstractValidationRule.Children (AbstractValidationRule.this fr)) = Some child ->
    exists child',
      JsObject.get key (AbstractValidationRule.Children (AbstractValidationRule.this fr')) = Some child' /\
      validated fuel child child'
}.

(** ** Vocabulary of the further properties *)

(** The elements of a list, each once, in the order of their first
    occurrence: the order in which a JavaScript object enumerates keys
    that were assigned in the order of the list. *)
Fixpoint nub (l : list string) : list string :=
  match l with
  | [] => []
  | x :: l => x :: filter (fun y => y ≠ x) (nub l)
  end.

(** The tag of the validator instance at a reference. *)
Definition tag_of (w : World) (ref : nat) : string := tagName (heap w ref).

(** The failure slot [AddValidator] makes for the validator at [ref]. *)
Definition new_slot (w : World) (ref : nat) : Err.IValidationFailure :=
  {| Err.Error := Err.new_Error; Err.IsAsync := isAsync (heap w ref) |}.

(** Whether the absent-value rule exempts the validator at [ref] from a
    check of [v]. *)
Definition exempt (w : World) (ref : nat) (v : value) : bool :=
  absent v && negb (String.eqb (tagName (heap w ref)) "required").

(** The validator a pass calls for the slot of [index], if any: the slot's
    validator when the slot is of the kind of the pass ([async] tells the
    asynchronous pass from the synchronous one) and the absent-value rule
    does not exempt it. *)
Definition due_at (async : bool) (w : World) (rule : PropertyValidationRule.t) (v : value)
    (index : string) : option nat :=
  match JsObject.get index (PropertyValidationRule.ValidationFailures rule),
        JsObject.get index (PropertyValidationRule.Validators rule) with
  | Some failure, Some ref =>
      if bool_decide (Err.IsAsync failure = async) && negb (exempt w ref v)
      then Some ref else None
  | _, _ => None
  end.

(** The validators a pass over a rule calls on [v], in enumeration
    order. *)
Definition due (async : bool) (w : World) (rule : PropertyValidationRule.t) (v : value)
    : list nat :=
  omap (due_at async w rule v) (JsObject.keys (PropertyValidationRule.ValidationFailures rule)).

(** The message [ValidateEx] and [ValidateAsyncEx] log for a check that
    threw. *)
Definition check_log (tag : string) (e : exn) : event :=
  EvLog ("Exception occurred when checking element'" +:+ tag +:+ "' method.") e.

(** The message [Validate] of a property rule logs. *)
Definition element_log (key : string) (e : exn) : event :=
  EvLog ("Exception occurred when checking element " +:+ key +:+ ".") e.

(** The shared validator node the constructor makes for a declared
    validation function. *)
Definition node_of (fce : AbstractValidator.IValidatorFce) : Validator.t :=
  Validator.new (AbstractValidator.Name fce) (AbstractValidator.ValidationFce fce).

(** The child the constructor makes for a nested declaration recorded under
    [key]. *)
Definition child_of (w : World) (key : string) (nested : AbstractValidator.t)
    : AbstractValidationRule.t :=
  if AbstractValidator.ForList nested
  then AbstractValidationRule.CreateAbstractListRule w nested key
  else AbstractValidationRule.CreateAbstractRule w nested key.

(** The contributors of the composite result of a rule. *)
Definition contributors (rule : AbstractValidationRule.t)
    : list CompositeValidationResult.contributor :=
  CompositeValidationResult.Children (AbstractValidationRule.ValidationResult rule).

(** An evaluation left the data context as it was. *)
Definition data_kept {L L' : Type}
    (fr : AbstractValidationRule.frame L) (fr' : AbstractValidationRule.frame L') : Prop :=
  AbstractValidationRule.data fr' = AbstractValidationRule.data fr.

(** [context'] is [context] but for the properties named in [keys], when
    it is an object; a list with as many elements, when it is a list; and
    the same value otherwise. *)
Definition context_kept_but (keys : list string) (context context' : value) : Prop :=
  match context with
  | VObj props =>
      exists props', context' = VObj props' /\
        forall key, key ∉ keys -> JsObject.get key props' = JsObject.get key props
  | VArr items => exists items', context' = VArr items' /\ length items' = length items
  | _ => context' = context
  end.

(** A call of [RuleFor] or of [ValidationFor] on a declaration. *)
Inductive registration : Type :=
| ARule (prop : string) (validator : nat)
| AValidation (prop : string) (fce : AbstractValidator.IValidatorFce).

Definition register (this : AbstractValidator.t) (r : registration) : AbstractValidator.t :=
  match r with
  | ARule prop validator => AbstractValidator.RuleFor prop validator this
  | AValidation prop fce => AbstractValidator.ValidationFor prop fce this
  end.

(** The property a registration is for. *)
Definition registered_prop (r : registration) : string :=
  match r with
  | ARule prop _ => prop
  | AValidation prop _ => prop
  end.

(** The property a registration adds a validator to, and the validator
    when the property is [prop]. *)
Definition rule_prop (r : registration) : option string :=
  match r with
  | ARule prop _ => Some prop
  | AValidation _ _ => None
  end.

Definition rule_for (prop : string) (r : registration) : option nat :=
  match r with
  | ARule prop' validator => if decide (prop' = prop) then Some validator else None
  | AValidation _ _ => None
  end.

(** The property a registration adds a validation function to, and the
    function when the property is [prop]. *)
Definition validation_prop (r : registration) : option string :=
  match r with
  | ARule _ _ => None
  | AValidation prop _ => Some prop
  end.

Definition validation_for (prop : string) (r : registration)
    : option AbstractValidator.IValidatorFce :=
  match r with
  | ARule _ _ => None
  | AValidation prop' fce => if decide (prop' = prop) then Some fce else None
  end.

(** What is recorded under a property for which [entries] were registered:
    nothing when there were none. *)
Definition recorded_list {A : Type} (entries : list A) : option (list A) :=
  match entries with
  | [] => None
  | _ => Some entries
  end.

(** An evaluation step left the property rules of the node as they
    were. *)
Definition rules_kept {L L' : Type}
    (fr : AbstractValidationRule.frame L) (fr' : AbstractValidationRule.frame L') : Prop :=
  AbstractValidationRule.Rules (AbstractValidationRule.this fr')
  = AbstractValidationRule.Rules (AbstractValidationRule.this fr).

(** What evaluation keeps of the names and the optional predicates of a
    node: those of its composite result and of each of its property
    rules. *)
Definition optionals_kept {L L' : Type}
    (fr : AbstractValidationRule.frame L) (fr' : AbstractValidationRule.frame L') : Prop :=
  let result (f : AbstractValidationRule.frame L) :=
    AbstractValidationRule.ValidationResult (AbstractValidationRule.this f) in
  let result' (f : AbstractValidationRule.frame L') :=
    AbstractValidationRule.ValidationResult (AbstractValidationRule.this f) in
  CompositeValidationResult.Name (result' fr') = CompositeValidationResult.Name (result fr) /\
  CompositeValidationResult.Optional (result' fr') = CompositeValidationResult.Optional (result fr) /\
  forall prop rule,
    JsObject.get prop (AbstractValidationRule.Rules (AbstractValidationRule.this fr)) = Some rule ->
    exists rule',
      JsObject.get prop (AbstractValidationRule.Rules (AbstractValidationRule.this fr'))
      = Some rule' /\
      PropertyValidationRule.Name rule' = PropertyValidationRule.Name rule /\
      PropertyValidationRule.Optional rule' = PropertyValidationRule.Optional rule.

(** The promise the asynchronous pass takes for the slot of [index], if
    any: for an asynchronous slot, the fulfilled [Q.when(true)] when the
    absent-value rule exempts the validator, and otherwise the promise the
    validator returns. *)
Definition taken_at (w : World) (rule : PropertyValidationRule.t) (v : value)
    (index : string) : option settlement :=
  match JsObject.get index (PropertyValidationRule.ValidationFailures rule),
        JsObject.get index (PropertyValidationRule.Validators rule) with
  | Some failure, Some ref =>
      if Err.IsAsync failure
      then if exempt w ref v then Some (Fulfils true)
           else match isAcceptable (heap w ref) v with
                | Returns (RPromise p) => Some p
                | _ => None
                end
      else None
  | _, _ => None
  end.

(** The promises an asynchronous pass over a rule takes, in enumeration
    order. *)
Definition taken (w : World) (rule : PropertyValidationRule.t) (v : value) : list settlement :=
  omap (taken_at w rule v) (JsObject.keys (PropertyValidationRule.ValidationFailures rule)).




(** * Properties *)

(** ** Ordered maps *)

Section js_object.
Context {A : Type}.
Implicit Types (o : obj A) (k : string).

Lemma get_alter_eq (f : A -> A) k o :
  JsObject.get k (JsObject.alter f k o) = f <$> JsObject.get k o.
Proof.
  induction o as [|[k' v] o IH]; simpl; [done|].
  destruct (decide (k' = k)); simpl.
  - rewrite decide_True by done. done.
  - rewrite decide_False by done. done.
Qed.

Lemma get_alter_ne (f : A -> A) k k' o :
  k ≠ k' -> JsObject.get k' (JsObject.alter f k o) = JsObject.get k' o.
Proof.
  intros Hne. induction o as [|[k0 v] o IH]; simpl; [done|].
  destruct (decide (k0 = k)) as [->|]; simpl.
  - rewrite !decide_False by done. done.
  - destruct (decide (k0 = k')); done.
Qed.

Lemma keys_alter (f : A -> A) k o :
  JsObject.keys (JsObject.alter f k o) = JsObject.keys o.
Proof.
  unfold JsObject.keys.
  induction o as [|[k' v] o IH]; simpl; [done|].
  destruct (decide (k' = k)); simpl; [done|]. by f_equal.
Qed.

Lemma get_set_eq k (v : A) o : JsObject.get k (JsObject.set k v o) = Some v.
Proof.
  induction o as [|[k' v'] o IH]; simpl.
  - by rewrite decide_True.
  - destruct (decide (k' = k)); simpl.
    + by rewrite decide_True.
    + by rewrite decide_False.
Qed.

Lemma get_set_ne k k' (v : A) o :
  k ≠ k' -> JsObject.get k' (JsObject.set k v o) = JsObject.get k' o.
Proof.
  intros Hne. induction o as [|[k0 v0] o IH]; simpl.
  - by rewrite decide_False.
  - destruct (decide (k0 = k)) as [->|]; simpl.
    + by rewrite !decide_False.
    + destruct (decide (k0 = k')); done.
Qed.

Lemma keys_set_Some k (v : A) o :
  is_Some (JsObject.get k o) -> JsObject.keys (JsObject.set k v o) = JsObject.keys o.
Proof.
  unfold JsObject.keys.
  induction o as [|[k' v'] o IH]; simpl; intros [x Hx]; [done|].
  destruct (decide (k' = k)) as [->|]; simpl; [done|].
  f_equal. apply IH. eauto.
Qed.

Lemma keys_set_None k (v : A) o :
  JsObject.get k o = None -> JsObject.keys (JsObject.set k v o) = JsObject.keys o ++ [k].
Proof.
  unfold JsObject.keys.
  induction o as [|[k' v'] o IH]; simpl; intros Hx; [done|].
  destruct (decide (k' = k)) as [->|]; simpl; [done|].
  f_equal. by apply IH.
Qed.

Lemma get_Some_keys k (v : A) o : JsObject.get k o = Some v -> k ∈ JsObject.keys o.
Proof.
  unfold JsObject.keys.
  induction o as [|[k' v'] o IH]; simpl; [done|].
  destruct (decide (k' = k)) as [->|]; intros H.
  - apply list_elem_of_here.
  - apply list_elem_of_further. auto.
Qed.

Lemma keys_get_Some k o : k ∈ JsObject.keys o -> is_Some (JsObject.get k o).
Proof.
  unfold JsObject.keys.
  induction o as [|[k' v'] o IH]; simpl; intros H.
  - by apply elem_of_nil in H.
  - destruct (decide (k' = k)) as [->|]; [eauto|].
    apply elem_of_cons in H as [->|H]; [done|auto].
Qed.

Lemma get_Some_values k (v : A) o : JsObject.get k o = Some v -> v ∈ JsObject.values o.
Proof.
  unfold JsObject.values.
  induction o as [|[k' v'] o IH]; simpl; [done|].
  destruct (decide (k' = k)) as [->|]; intros H.
  - injection H as ->. apply list_elem_of_here.
  - apply list_elem_of_further. auto.
Qed.
End js_object.

(** ** Loops *)

Section loops.
Context {S X : Type}.
Implicit Types (body : X -> M S unit) (xs : list X).

(** What every iteration keeps, the loop keeps, however it ends. *)
Lemma for_each_inv (I : S -> Prop) xs body :
  (forall x s, x ∈ xs -> I s -> I (body x s).2) ->
  forall s, I s -> I (for_each xs body s).2.
Proof.
  induction xs as [|x xs IH]; intros Hbody s Hs; simpl; [done|].
  unfold bind. pose proof (Hbody x s (list_elem_of_here _ _) Hs) as H1.
  destruct (body x s) as [[[]|e] s1]; simpl in *; [|done].
  apply IH; [|done]. intros y s' Hy. apply Hbody. by apply list_elem_of_further.
Qed.

(** What the iteration for [x] establishes and no iteration destroys
    holds after a loop over a list with [x] that ends normally. *)
Lemma for_each_establish (I Q : S -> Prop) xs body x :
  x ∈ xs ->
  (forall y s, I s -> I (body y s).2) ->
  (forall s, I s -> (body x s).1 = Normal tt -> Q (body x s).2) ->
  (forall y s, I s -> Q s -> (body y s).1 = Normal tt -> Q (body y s).2) ->
  forall s, I s -> (for_each xs body s).1 = Normal tt -> Q (for_each xs body s).2.
Proof.
  intros Hx HI Hest Hpres.
  assert (forall xs s, I s -> Q s -> (for_each xs body s).1 = Normal tt ->
                       Q (for_each xs body s).2) as Hkeep.
  { clear Hx. intros ys. induction ys as [|y ys IH]; intros s Hs HQ Hn; simpl in *; [done|].
    unfold bind in *. pose proof (HI y s Hs) as H1. pose proof (Hpres y s Hs HQ) as H2.
    destruct (body y s) as [[[]|e] s1]; simpl in *; [|done]. apply IH; auto. }
  induction xs as [|y xs IH]; intros s Hs Hn; [by apply elem_of_nil in Hx|].
  simpl in *. unfold bind in *.
  pose proof (HI y s Hs) as H1.
  apply elem_of_cons in Hx as [<-|Hx].
  - pose proof (Hest s Hs) as H2.
    destruct (body x s) as [[[]|e] s1]; simpl in *; [|done]. apply Hkeep; auto.
  - destruct (body y s) as [[[]|e] s1]; simpl in *; [|done]. apply IH; auto.
Qed.

(** A loop whose iterations all end normally ends normally. *)
Lemma for_each_normal (I : S -> Prop) xs body :
  (forall x s, x ∈ xs -> I s -> (body x s).1 = Normal tt /\ I (body x s).2) ->
  forall s, I s -> (for_each xs body s).1 = Normal tt.
Proof.
  induction xs as [|x xs IH]; intros Hbody s Hs; simpl; [done|].
  unfold bind. destruct (Hbody x s (list_elem_of_here _ _) Hs) as [H1 H2].
  destruct (body x s) as [[[]|e] s1]; simpl in *; [|done].
  apply IH; [|done]. intros y s' Hy. apply Hbody. by apply list_elem_of_further.
Qed.
End loops.

(** ** The loop of ValidateEx *)

Section property_rule.
Import PropertyValidationRule.

Lemma ValidateEx_body_step (v : value) (index : string) (fr : frame sync_locals) :
  lastPriority (locals fr) = 0%Z ->
  sync_step v index fr (ValidateEx_body v index fr).1 (ValidateEx_body v index fr).2.
Proof.
  destruct fr as [rule w [lp sc]]. simpl. intros ->.
  unfold ValidateEx_body, not_isAcceptable, log_and_rethrow, on_locals, on_world,
    defined, try_catch, bind, ret, gets, modify, throw. simpl.
  destruct (JsObject.get index (ValidationFailures rule)) as [failure|] eqn:Hf; simpl;
    [|by apply sync_step_no_failure].
  destruct (Err.IsAsync failure) eqn:Ha; simpl; [by eapply sync_step_async|].
  rewrite andb_false_r.
  destruct (JsObject.get index (Validators rule)) as [ref|] eqn:Hv; simpl;
    [|by eapply sync_step_no_validator].
  destruct (absent v && negb (tagName (heap w ref) =? "required")%string) eqn:Hab; simpl.
  { eapply sync_step_absent; eauto. }
  destruct (isAcceptable (heap w ref) v) as [r|e] eqn:Hacc; simpl.
  - assert (hasError_of (heap w ref) v = match r with RBool b => negb b | _ => false end) as Hh.
    { unfold hasError_of. by rewrite Hab, Hacc. }
    pose proof (sync_step_checked v index (mkFrame rule w (mkSync 0 sc)) failure ref r
                  Hf Ha Hv Hab Hacc) as Hstep.
    simpl in Hstep. rewrite Hh in Hstep. destruct r as [b|p]; simpl; exact Hstep.
  - simpl.
    exact (sync_step_thrown v index (mkFrame rule w (mkSync 0 sc)) failure ref e
             Hf Ha Hv Hab Hacc).
Qed.

Lemma validators_kept_refl w : validators_kept w w.
Proof. intros r. done. Qed.

Lemma validators_kept_trans w1 w2 w3 :
  validators_kept w1 w2 -> validators_kept w2 w3 -> validators_kept w1 w3.
Proof.
  intros H12 H23 r. destruct (H12 r) as (?&?&?&H4), (H23 r) as (?&?&?&H4').
  repeat split; try congruence. intros k Hk. rewrite H4', H4; done.
Qed.

Lemma validators_kept_emit e w : validators_kept w (emit e w).
Proof. intros r. done. Qed.

Lemma validators_kept_extend ref v w : validators_kept w (extend_AttemptedValue ref v w).
Proof.
  intros r. simpl. destruct (decide (r = ref)) as [->|]; simpl; [|done].
  repeat split. intros k Hk. by rewrite get_set_ne.
Qed.

Lemma hasError_of_kept w w' r v :
  validators_kept w w' -> hasError_of (heap w' r) v = hasError_of (heap w r) v.
Proof.
  intros H. destruct (H r) as (Ht&_&Ha&_). unfold hasError_of. by rewrite Ht, Ha.
Qed.

Section record_outcome.
Context {L : Type}.
Implicit Types (fr : frame L).

Lemma record_outcome_normal index ref v b fr :
  (record_outcome index ref v b fr).1 = Normal tt.
Proof. done. Qed.

Lemma record_outcome_world index ref v b fr :
  world (record_outcome index ref v b fr).2 = extend_AttemptedValue ref v (world fr).
Proof. done. Qed.

Lemma record_outcome_locals index ref v b fr :
  locals (record_outcome index ref v b fr).2 = locals fr.
Proof. done. Qed.

Lemma record_outcome_Validators index ref v b fr :
  Validators (this (record_outcome index ref v b fr).2) = Validators (this fr).
Proof. done. Qed.

Lemma record_outcome_get_ne index ref v b fr k :
  index ≠ k ->
  JsObject.get k (ValidationFailures (this (record_outcome index ref v b fr).2))
  = JsObject.get k (ValidationFailures (this fr)).
Proof.
  intros Hne. unfold record_outcome, on_failure, on_world, bind, gets, modify. simpl.
  by rewrite !get_alter_ne.
Qed.

Lemma record_outcome_get_eq index ref v b fr :
  JsObject.get index (ValidationFailures (this (record_outcome index ref v b fr).2))
  = recorded ref v b (world fr) <$> JsObject.get index (ValidationFailures (this fr)).
Proof.
  unfold record_outcome, on_failure, on_world, bind, gets, modify. simpl.
  rewrite !get_alter_eq. destruct (JsObject.get index _) as [[e a]|]; done.
Qed.

Lemma record_outcome_kept index ref v b fr :
  rule_kept fr (record_outcome index ref v b fr).2.
Proof.
  split; try done.
  - unfold record_outcome, on_failure, on_world, bind, gets, modify. simpl.
    by rewrite !keys_alter.
  - intros k. destruct (decide (index = k)) as [<-|Hne].
    + rewrite record_outcome_get_eq. by destruct (JsObject.get index _).
    + by rewrite record_outcome_get_ne.
  - rewrite record_outcome_world. apply validators_kept_extend.
  - exists []. rewrite record_outcome_world. simpl. by rewrite app_nil_r.
Qed.
End record_outcome.

Arguments record_outcome : simpl never.

Lemma rule_kept_refl {L : Type} (fr : frame L) : rule_kept fr fr.
Proof.
  split; try done; try apply validators_kept_refl.
  all: exists []; by rewrite app_nil_r.
Qed.

Lemma rule_kept_trans {L1 L2 L3 : Type} (fr1 : frame L1) (fr2 : frame L2) (fr3 : frame L3) :
  rule_kept fr1 fr2 -> rule_kept fr2 fr3 -> rule_kept fr1 fr3.
Proof.
  intros H12 H23. split.
  - rewrite (kept_Name _ _ H23). apply (kept_Name _ _ H12).
  - rewrite (kept_Optional _ _ H23). apply (kept_Optional _ _ H12).
  - rewrite (kept_Validators _ _ H23). apply (kept_Validators _ _ H12).
  - rewrite (kept_keys _ _ H23). apply (kept_keys _ _ H12).
  - intros k. rewrite (kept_IsAsync _ _ H23). apply (kept_IsAsync _ _ H12).
  - eapply validators_kept_trans; [apply (kept_validators _ _ H12)|apply (kept_validators _ _ H23)].
  - destruct (kept_trace _ _ H12) as [n1 H1], (kept_trace _ _ H23) as [n2 H2].
    exists (n1 ++ n2). by rewrite H2, H1, app_assoc.
Qed.

Lemma rule_kept_with_world {L : Type} (f : World -> World) (fr : frame L) :
  validators_kept (world fr) (f (world fr)) ->
  (exists new, trace (f (world fr)) = trace (world fr) ++ new) ->
  rule_kept fr (with_world f fr).
Proof. intros H1 H2. split; done. Qed.

Lemma rule_kept_with_locals {L L' : Type} (l : L') (fr : frame L) :
  rule_kept fr (mkFrame (this fr) (world fr) l).
Proof.
  split; try done; try apply validators_kept_refl.
  all: exists []; by rewrite app_nil_r.
Qed.

Lemma sync_step_kept v index fr r fr' :
  lastPriority (locals fr) = 0%Z ->
  sync_step v index fr r fr' -> rule_kept fr fr' /\ lastPriority (locals fr') = 0%Z.
Proof.
  intros H0. destruct 1; auto using rule_kept_refl.
  - split; [|done].
    eapply rule_kept_trans; [apply (record_outcome_kept index ref v false fr)|].
    apply rule_kept_with_locals.
  - split; [|done].
    eapply rule_kept_trans; [|apply rule_kept_with_locals].
    eapply rule_kept_trans; [|apply record_outcome_kept].
    apply rule_kept_with_world; [apply validators_kept_emit|]. simpl. by eexists.
  - split; [|done].
    apply rule_kept_with_world.
    + eapply validators_kept_trans; apply validators_kept_emit.
    + simpl. rewrite <-app_assoc. by eexists.
Qed.

Lemma calls_justified_refl {L : Type} v (fr : frame L) : calls_justified v fr fr.
Proof.
  exists []. split; [by rewrite app_nil_r|]. intros r v' H. by apply elem_of_nil in H.
Qed.

Lemma calls_justified_trans {L1 L2 L3 : Type} v
    (fr1 : frame L1) (fr2 : frame L2) (fr3 : frame L3) :
  rule_kept fr1 fr2 ->
  calls_justified v fr1 fr2 -> calls_justified v fr2 fr3 -> calls_justified v fr1 fr3.
Proof.
  intros Hk (n1 & H1 & J1) (n2 & H2 & J2). exists (n1 ++ n2). split.
  - by rewrite H2, H1, app_assoc.
  - intros r v' [H|H]%elem_of_app; [by apply J1|].
    destruct (J2 r v' H) as (-> & [index Hi] & Hab). split; [done|]. split.
    + exists index. by rewrite <-(kept_Validators _ _ Hk).
    + destruct (kept_validators _ _ Hk r) as (Ht&_). by rewrite <-Ht.
Qed.

Lemma calls_justified_quiet {L L' : Type} v (fr : frame L) (fr' : frame L') :
  trace (world fr') = trace (world fr) -> calls_justified v fr fr'.
Proof.
  intros H. exists []. split; [by rewrite app_nil_r|].
  intros r v' H'. by apply elem_of_nil in H'.
Qed.

Lemma sync_step_calls v index fr r fr' :
  sync_step v index fr r fr' -> calls_justified v fr fr'.
Proof.
  destruct 1; try apply calls_justified_refl.
  - by apply calls_justified_quiet.
  - exists [EvCall ref v]. split; [done|].
    intros r' v' Hin%list_elem_of_singleton. injection Hin as -> ->. eauto.
  - exists [EvCall ref v; EvLog ("Exception occurred when checking element'"
                                  +:+ tagName (heap (world fr) ref) +:+ "' method.")
                                 (Thrown e)].
    split; [simpl; by rewrite <-app_assoc|].
    intros r' v' [Hin|Hin]%elem_of_cons.
    + injection Hin as -> ->. eauto.
    + by apply list_elem_of_singleton in Hin.
Qed.

(** The invariant of the loop of [ValidateEx]. *)
Lemma ValidateEx_loop_kept v (fr : frame sync_locals) :
  lastPriority (locals fr) = 0%Z ->
  rule_kept fr (ValidateEx_loop v fr).2 /\
  calls_justified v fr (ValidateEx_loop v fr).2 /\
  lastPriority (locals (ValidateEx_loop v fr).2) = 0%Z.
Proof.
  intros H0. unfold ValidateEx_loop, bind, gets. simpl.
  apply (for_each_inv (fun fr' => rule_kept fr fr' /\ calls_justified v fr fr' /\
                                  lastPriority (locals fr') = 0%Z)).
  - intros index s _ (Hk & Hc & Hl).
    pose proof (ValidateEx_body_step v index s Hl) as Hstep.
    destruct (sync_step_kept _ _ _ _ _ Hl Hstep) as [Hk' Hl'].
    split; [by eapply rule_kept_trans|]. split; [|done].
    eapply calls_justified_trans; [done..|]. by eapply sync_step_calls.
  - split; [apply rule_kept_refl|]. split; [apply calls_justified_refl|done].
Qed.

Lemma slot_written_step w0 v index ref (fr0 fr : frame sync_locals) r fr' :
  rule_kept fr0 fr ->
  w0 = world fr0 ->
  lastPriority (locals fr) = 0%Z ->
  Err.IsAsync <$> JsObject.get index (ValidationFailures (this fr0)) = Some false ->
  JsObject.get index (Validators (this fr0)) = Some ref ->
  sync_step v index fr r fr' -> r = Normal tt ->
  slot_written w0 v index ref fr'.
Proof.
  intros Hk -> Hl Ha Hv Hstep Hn.
  rewrite <-(kept_IsAsync _ _ Hk), <-(kept_Validators _ _ Hk) in *.
  pose proof (kept_validators _ _ Hk) as Hw. destruct (Hw ref) as (Ht & _).
  destruct Hstep as [Hf|failure Hf Has|failure Hf Has Hnv|failure ref' Hf Has Hv' Hab
                     |failure ref' ret Hf Has Hv' Hab Hacc|]; try discriminate.
  - rewrite Hf in Ha. simpl in Ha. congruence.
  - rewrite Hv in Hv'. injection Hv' as <-. split.
    + unfold with_locals. cbn [this]. rewrite record_outcome_get_eq, Hf.
      eexists; split; [done|]. simpl.
      unfold hasError_of. rewrite <-Ht, Hab. done.
    + rewrite <-Ht, Hab. done.
  - rewrite Hv in Hv'. injection Hv' as <-. split.
    + unfold with_locals. cbn [this]. rewrite record_outcome_get_eq.
      unfold with_world. cbn [this world]. rewrite Hf.
      eexists; split; [done|]. simpl.
      rewrite (hasError_of_kept _ _ _ _ Hw). split; [done|]. split; [by rewrite Ht|].
      by intros ->.
    + intros _. unfold with_locals. cbn [world]. rewrite record_outcome_world. simpl.
      apply elem_of_app. right. apply list_elem_of_here.
Qed.

Lemma slot_written_kept w0 v index ref (fr : frame sync_locals) r fr' y :
  lastPriority (locals fr) = 0%Z ->
  y ≠ index ->
  sync_step v y fr r fr' ->
  slot_written w0 v index ref fr -> slot_written w0 v index ref fr'.
Proof.
  intros Hl Hne Hstep [Hslot Hcall]. split.
  - destruct Hstep; try done; unfold with_locals; cbn [this];
      rewrite record_outcome_get_ne by done; done.
  - intros Hab. specialize (Hcall Hab).
    destruct (sync_step_kept _ _ _ _ _ Hl Hstep) as [Hk _].
    destruct (kept_trace _ _ Hk) as [new ->]. apply elem_of_app. by left.
Qed.

(** ** ValidateEx *)

Lemma ValidateEx_unfold v (s : state) :
  ValidateEx v s =
  let fr := (ValidateEx_loop v (mkFrame (this s) (world s) sync_init)).2 in
  (match (ValidateEx_loop v (mkFrame (this s) (world s) sync_init)).1 with
   | Normal _ => Normal (sync_failures (this fr))
   | Abrupt e => Abrupt e
   end, mkFrame (this fr) (world fr) tt).
Proof.
  unfold ValidateEx, call, bind, gets, sync_init.
  destruct (ValidateEx_loop v _) as [[[]|e] fr]; done.
Qed.

Lemma rule_kept_frames {L1 L2 L1' L2' : Type}
    (fr : frame L1) (fr' : frame L2) (gr : frame L1') (gr' : frame L2') :
  this gr = this fr -> world gr = world fr ->
  this gr' = this fr' -> world gr' = world fr' ->
  rule_kept fr fr' -> rule_kept gr gr'.
Proof.
  intros Ht Hw Ht' Hw' [H1 H2 H3 H4 H5 H6 H7].
  split; rewrite ?Ht, ?Hw, ?Ht', ?Hw'; done.
Qed.

Lemma calls_justified_frames {L1 L2 L1' L2' : Type} v
    (fr : frame L1) (fr' : frame L2) (gr : frame L1') (gr' : frame L2') :
  this gr = this fr -> world gr = world fr -> world gr' = world fr' ->
  calls_justified v fr fr' -> calls_justified v gr gr'.
Proof.
  intros Ht Hw Hw' (new & H1 & H2). exists new. rewrite Ht, Hw, Hw'. done.
Qed.

(** A synchronous pass leaves the rule and the validator instances as they
    were, but for the contents of the failure slots and [AttemptedValue],
    and calls only validators that the absent-value rule does not exempt. *)
Lemma ValidateEx_kept v (s : state) :
  rule_kept s (ValidateEx v s).2 /\ calls_justified v s (ValidateEx v s).2.
Proof.
  rewrite ValidateEx_unfold. cbn zeta.
  destruct (ValidateEx_loop_kept v (mkFrame (this s) (world s) sync_init) eq_refl)
    as (Hk & Hc & _).
  split.
  - eapply rule_kept_frames; [..|exact Hk]; done.
  - eapply calls_justified_frames; [..|exact Hc]; done.
Qed.

(** After a synchronous pass that ends normally, the slot of every
    synchronous validator holds that validator's own outcome. *)
Lemma ValidateEx_slot v (s : state) index ref :
  (exists failures, (ValidateEx v s).1 = Normal failures) ->
  Err.IsAsync <$> JsObject.get index (ValidationFailures (this s)) = Some false ->
  JsObject.get index (Validators (this s)) = Some ref ->
  slot_written (world s) v index ref (ValidateEx v s).2.
Proof.
  intros [failures Hn] Ha Hv. rewrite ValidateEx_unfold in *. cbn zeta in *.
  set (fr0 := mkFrame (this s) (world s) sync_init) in *.
  assert ((ValidateEx_loop v fr0).1 = Normal tt) as Hloop.
  { simpl in Hn. by destruct (ValidateEx_loop v fr0).1 as [[]|]. }
  assert (slot_written (world s) v index ref (ValidateEx_loop v fr0).2) as Hslot.
  { unfold ValidateEx_loop, bind, gets in *. cbn [this fr0] in *.
    apply (for_each_establish
             (fun fr => rule_kept fr0 fr /\ lastPriority (locals fr) = 0%Z)
             (slot_written (world s) v index ref) _ _ index).
    - destruct (JsObject.get index (ValidationFailures (this s))) eqn:Hf; [|done].
      by eapply get_Some_keys.
    - intros y fr [Hk Hl]. pose proof (ValidateEx_body_step v y fr Hl) as Hstep.
      destruct (sync_step_kept _ _ _ _ _ Hl Hstep). split; [by eapply rule_kept_trans|done].
    - intros fr [Hk Hl] Hnorm. pose proof (ValidateEx_body_step v index fr Hl) as Hstep.
      by eapply slot_written_step.
    - intros y fr [Hk Hl] HQ Hnorm. pose proof (ValidateEx_body_step v y fr Hl) as Hstep.
      destruct (decide (y = index)) as [->|Hne].
      + by eapply slot_written_step.
      + by eapply slot_written_kept.
    - split; [apply rule_kept_refl|done].
    - done. }
  destruct Hslot as [Hs Hc]. split; done.
Qed.

(** When every synchronous slot has its validator and no synchronous
    validator that gets called throws on the value, the pass ends
    normally. *)
Lemma ValidateEx_normal v (s : state) :
  (forall index, Err.IsAsync <$> JsObject.get index (ValidationFailures (this s)) = Some false ->
     exists ref, JsObject.get index (Validators (this s)) = Some ref /\
       (absent v && negb (String.eqb (tagName (heap (world s) ref)) "required") = false ->
        forall e, isAcceptable (heap (world s) ref) v ≠ Throws e)) ->
  (ValidateEx v s).1 = Normal (sync_failures (this (ValidateEx v s).2)).
Proof.
  intros Hall. rewrite ValidateEx_unfold. cbn zeta.
  set (fr0 := mkFrame (this s) (world s) sync_init) in *.
  assert ((ValidateEx_loop v fr0).1 = Normal tt) as ->; [|done].
  unfold ValidateEx_loop, bind, gets. cbn beta.
  apply (for_each_normal (fun fr => rule_kept fr0 fr /\ lastPriority (locals fr) = 0%Z)).
  - intros y fr Hy [Hk Hl]. pose proof (ValidateEx_body_step v y fr Hl) as Hstep.
    destruct (sync_step_kept _ _ _ _ _ Hl Hstep) as [Hk' Hl'].
    split; [|split; [by eapply rule_kept_trans|done]].
    rewrite <-(kept_keys _ _ Hk) in Hy. apply keys_get_Some in Hy as [failure Hf].
    pose proof (kept_IsAsync _ _ Hk y) as Hasync. rewrite Hf in Hasync.
    change (this fr0) with (this s) in Hasync. simpl in Hasync.
    destruct Hstep as [Hf'|failure' Hf' Has|failure' Hf' Has Hnv|
                       |failure' ref ret Hf' Has Hv Hab Hacc
                       |failure' ref e Hf' Has Hv Hab Hacc]; try done.
    + congruence.
    + assert (failure' = failure) as -> by congruence.
      rewrite Has in Hasync. destruct (Hall y) as (ref & Hv & _); [done|].
      rewrite (kept_Validators _ _ Hk) in Hnv. change (this fr0) with (this s) in Hnv. congruence.
    + assert (failure' = failure) as -> by congruence.
      rewrite Has in Hasync. destruct (Hall y) as (ref' & Hv' & Hne); [done|].
      rewrite (kept_Validators _ _ Hk) in Hv. change (this fr0) with (this s) in Hv.
      assert (ref' = ref) as -> by congruence.
      destruct (kept_validators _ _ Hk ref) as (Ht & _ & Hacc' & _).
      rewrite Hacc' in Hacc. rewrite Ht in Hab.
      change (world fr0) with (world s) in Hacc, Hab. by destruct (Hne Hab e).
  - split; [apply rule_kept_refl|done].
Qed.

(** ** The loop of ValidateAsyncEx *)

Lemma ValidateAsyncEx_body_step (v : value) (index : string) (fr : frame async_locals) :
  async_step v index fr (ValidateAsyncEx_body v index fr).1 (ValidateAsyncEx_body v index fr).2.
Proof.
  destruct fr as [rule w [cv cr ps]].
  unfold ValidateAsyncEx_body, log_and_rethrow, on_locals, on_world,
    defined, try_catch, bind, ret, gets, modify, throw. simpl.
  destruct (JsObject.get index (ValidationFailures rule)) as [failure|] eqn:Hf; simpl;
    [|by apply async_step_no_failure].
  destruct (Err.IsAsync failure) eqn:Ha; simpl; [|by eapply async_step_sync].
  destruct (JsObject.get index (Validators rule)) as [ref|] eqn:Hv; simpl;
    [|by eapply async_step_no_validator].
  destruct (absent v && negb (tagName (heap w ref) =? "required")%string) eqn:Hab; simpl.
  { by eapply (async_step_absent v index (mkFrame rule w (mkAsync cv cr ps))). }
  destruct (isAcceptable (heap w ref) v) as [[b|p]|e] eqn:Hacc; simpl.
  - eapply (async_step_thrown v index (mkFrame rule w (mkAsync cv cr ps))); eauto.
    simpl. by rewrite Hacc.
  - by eapply (async_step_promise v index (mkFrame rule w (mkAsync cv cr ps))).
  - eapply (async_step_thrown v index (mkFrame rule w (mkAsync cv cr ps))); eauto.
    simpl. by rewrite Hacc.
Qed.

Lemma async_step_this v index fr r fr' :
  async_step v index fr r fr' ->
  this fr' = this fr /\ heap (world fr') = heap (world fr).
Proof. by destruct 1. Qed.

Lemma async_step_kept v index fr r fr' :
  async_step v index fr r fr' -> rule_kept fr fr' /\ calls_justified v fr fr'.
Proof.
  intros Hstep. split.
  - destruct (async_step_this _ _ _ _ _ Hstep) as [Ht Hh].
    split; rewrite ?Ht; try done.
    + intros r'. by rewrite Hh.
    + destruct Hstep; simpl; try (exists []; by rewrite app_nil_r); try by eexists.
      rewrite <-app_assoc. by eexists.
  - destruct Hstep; try (by apply calls_justified_quiet).
    + exists [EvCall ref v]. split; [done|].
      intros r' v' Hin%list_elem_of_singleton. injection Hin as -> ->. eauto.
    + exists [EvCall ref v; EvLog ("Exception occurred when checking element'"
                                    +:+ tagName (heap (world fr) ref) +:+ "' method.") e].
      split; [simpl; by rewrite <-app_assoc|].
      intros r' v' [Hin|Hin]%elem_of_cons.
      * injection Hin as -> ->. eauto.
      * by apply list_elem_of_singleton in Hin.
Qed.

Lemma async_step_promises v index fr r fr' :
  async_step v index fr r fr' ->
  promises (locals fr') = promises (locals fr) \/
  exists p, promises (locals fr') = promises (locals fr) ++ [p] /\ promise_justified v fr p.
Proof.
  destruct 1 as [| | | |failure ref p Hf Ha Hv Hab Hacc|]; auto; right; eexists; (split; [done|]).
  - by left.
  - right. exists index, ref. rewrite Hf. simpl. rewrite Ha. done.
Qed.

Lemma promise_justified_kept {L L' : Type} v (fr : frame L) (fr' : frame L') p :
  rule_kept fr fr' -> promise_justified v fr' p -> promise_justified v fr p.
Proof.
  intros Hk [->|(index & ref & Hf & Hv & Hab & Hacc)]; [by left|right].
  destruct (kept_validators _ _ Hk ref) as (Ht & _ & Ha & _).
  exists index, ref.
  rewrite <-(kept_IsAsync _ _ Hk), <-(kept_Validators _ _ Hk), <-Ht, <-Ha. done.
Qed.

(** The invariant of the loop of [ValidateAsyncEx]: the rule is not
    written to, and every promise pushed is accounted for. *)
Lemma ValidateAsyncEx_loop_kept v (fr : frame async_locals) :
  let fr' := (ValidateAsyncEx_loop v fr).2 in
  this fr' = this fr /\ heap (world fr') = heap (world fr) /\
  rule_kept fr fr' /\ calls_justified v fr fr' /\
  exists new, promises (locals fr') = promises (locals fr) ++ new /\
              Forall (promise_justified v fr) new.
Proof.
  unfold ValidateAsyncEx_loop, bind, gets. cbn beta zeta.
  apply (for_each_inv (fun fr' =>
           this fr' = this fr /\ heap (world fr') = heap (world fr) /\
           rule_kept fr fr' /\ calls_justified v fr fr' /\
           exists new, promises (locals fr') = promises (locals fr) ++ new /\
                       Forall (promise_justified v fr) new)).
  - intros index s _ (Ht & Hh & Hk & Hc & new & Hp & Hj).
    pose proof (ValidateAsyncEx_body_step v index s) as Hstep.
    destruct (async_step_this _ _ _ _ _ Hstep) as [Ht' Hh'].
    destruct (async_step_kept _ _ _ _ _ Hstep) as [Hk' Hc'].
    split; [congruence|]. split; [congruence|].
    split; [by eapply rule_kept_trans|].
    split; [by eapply calls_justified_trans|].
    destruct (async_step_promises _ _ _ _ _ Hstep) as [Heq|(p & Heq & Hp')].
    + exists new. by rewrite Heq.
    + exists (new ++ [p]). rewrite Heq, Hp, app_assoc. split; [done|].
      apply Forall_app. split; [done|]. apply Forall_singleton.
      by eapply promise_justified_kept.
  - split; [done|]. split; [done|]. split; [apply rule_kept_refl|].
    split; [apply calls_justified_refl|]. exists []. by rewrite app_nil_r.
Qed.

(** ** The handlers *)

Lemma then_handler_cases v result (fr : frame async_locals) :
  then_handler v result fr =
  match validation (locals fr), validator (locals fr) with
  | None, _ => (Abrupt TypeError, fr)
  | Some index, Some ref => record_outcome index ref v (negb result) fr
  | Some index, None => (Abrupt TypeError, with_failure index (Err.set_HasError (negb result)) fr)
  end.
Proof.
  unfold then_handler, defined, on_failure, bind, gets, modify, ret, throw. cbn beta.
  destruct (validation (locals fr)); [|done]. destruct (validator (locals fr)); done.
Qed.

Lemma with_failure_kept {L : Type} index f (fr : frame L) :
  rule_kept fr (with_failure index f fr).
Proof.
  split; simpl; try done.
  - apply keys_alter.
  - intros k. destruct (decide (index = k)) as [<-|Hne].
    + rewrite get_alter_eq. by destruct (JsObject.get index _).
    + by rewrite get_alter_ne.
  - exists []. by rewrite app_nil_r.
Qed.

(** A handler writes to the slot [validation] names and to no other, and
    records [!result] there. *)
Lemma then_handler_spec v result (fr : frame async_locals) :
  let fr' := (then_handler v result fr).2 in
  rule_kept fr fr' /\
  trace (world fr') = trace (world fr) /\
  locals fr' = locals fr /\
  slots_kept_but (validation (locals fr)) (this fr) (this fr') /\
  (forall index failure',
     validation (locals fr) = Some index ->
     JsObject.get index (ValidationFailures (this fr')) = Some failure' ->
     Err.HasError (Err.Error failure') = negb result).
Proof.
  rewrite then_handler_cases. cbn zeta.
  destruct (validation (locals fr)) as [index|] eqn:Hval.
  2:{ split; [apply rule_kept_refl|]. repeat split; try done. }
  destruct (validator (locals fr)) as [ref|] eqn:Href; cbn [snd].
  - split; [apply record_outcome_kept|]. split; [done|]. split; [done|]. split.
    + intros k Hk. apply record_outcome_get_ne. congruence.
    + intros k failure' [= <-]. rewrite record_outcome_get_eq.
      destruct (JsObject.get index _); [|done]. by intros [= <-].
  - split; [apply with_failure_kept|]. split; [done|]. split; [done|]. split.
    + intros k Hk. simpl. apply get_alter_ne. congruence.
    + intros k failure' [= <-]. simpl. rewrite get_alter_eq.
      destruct (JsObject.get index _); [|done]. by intros [= <-].
Qed.

Lemma try_catch_ignore {S : Type} (m : M S unit) (s : S) :
  try_catch m (fun _ => ret tt) s = (Normal tt, (m s).2).
Proof. unfold try_catch, ret. by destruct (m s) as [[[]|] s']. Qed.

Lemma settle_spec sched v (fr : frame async_locals) :
  let fr' := (settle sched v fr).2 in
  rule_kept fr fr' /\
  trace (world fr') = trace (world fr) /\
  locals fr' = locals fr /\
  slots_kept_but (validation (locals fr)) (this fr) (this fr') /\
  (Forall (fun result => result = true) (sched (fulfilled (promises (locals fr)))) ->
   no_new_failure (this fr) (this fr')).
Proof.
  unfold settle, bind, gets. cbn beta zeta.
  generalize (sched (fulfilled (promises (locals fr)))) as results. intros results.
  assert (forall fr1 : frame async_locals,
    let fr' := (for_each results (fun result => try_catch (then_handler v result) (fun _ => ret tt)) fr1).2 in
    rule_kept fr1 fr' /\ trace (world fr') = trace (world fr1) /\ locals fr' = locals fr1 /\
    slots_kept_but (validation (locals fr1)) (this fr1) (this fr') /\
    (Forall (fun result => result = true) results -> no_new_failure (this fr1) (this fr')))
    as Hgen; [|apply Hgen].
  induction results as [|result results IH]; intros fr1; cbn zeta.
  { simpl. split; [apply rule_kept_refl|]. repeat split; try done.
    intros _ k failure' Hf Hh. eauto. }
  cbn [for_each]. unfold bind. rewrite try_catch_ignore.
  destruct (then_handler_spec v result fr1) as (Hk & Ht & Hl & Hs & Hw).
  set (fr2 := (then_handler v result fr1).2) in *.
  specialize (IH fr2). cbn zeta in IH.
  destruct IH as (Hk' & Ht' & Hl' & Hs' & Hw').
  split; [by eapply rule_kept_trans|]. split; [congruence|]. split; [congruence|]. split.
  - intros k Hne. rewrite Hs', Hs; [done..|]. by rewrite Hl.
  - intros Hall. apply Forall_cons in Hall as [-> Hall]. specialize (Hw' Hall).
    intros k failure' Hf Hh'. destruct (Hw' k failure' Hf Hh') as (failure2 & Hf2 & Hh2).
    destruct (decide (Some k = validation (locals fr1))) as [Heq|Hne].
    + specialize (Hw k failure2 (eq_sym Heq) Hf2). simpl in Hw. congruence.
    + rewrite (Hs k Hne) in Hf2. eauto.
Qed.

(** ** ValidateAsyncEx *)

(** When the loop ends normally, [validation] is left referring to the slot
    enumerated last. *)
Lemma ValidateAsyncEx_loop_validation v (fr : frame async_locals) :
  (ValidateAsyncEx_loop v fr).1 = Normal tt ->
  validation (locals (ValidateAsyncEx_loop v fr).2)
  = from_option Some (validation (locals fr)) (last (JsObject.keys (ValidationFailures (this fr)))).
Proof.
  unfold ValidateAsyncEx_loop, bind, gets. cbn beta.
  generalize (JsObject.keys (ValidationFailures (this fr))) as keys. intros keys. revert fr.
  induction keys as [|k keys IH]; intros fr Hn; [done|].
  cbn [for_each] in *. unfold bind in *.
  pose proof (ValidateAsyncEx_body_step v k fr) as Hstep.
  destruct (ValidateAsyncEx_body v k fr) as [[[]|e] fr1]; [|done].
  rewrite IH by done. rewrite last_cons.
  assert (validation (locals fr1) = Some k) as ->.
  { simpl in Hstep. inversion Hstep; done. }
  by destruct (last keys).
Qed.

Lemma ValidateAsyncEx_unfold sched v (s : state) :
  ValidateAsyncEx sched v s =
  let fr1 := ValidateAsyncEx_loop v (mkFrame (this s) (world s) async_init) in
  let fr2 := (settle sched v fr1.2).2 in
  (match fr1.1 with
   | Abrupt e => Abrupt e
   | Normal _ => Normal (if all_fulfilled (promises (locals fr2))
                         then Resolved (async_failures (this fr2))
                         else Pending)
   end, mkFrame (this fr2) (world fr2) tt).
Proof.
  unfold ValidateAsyncEx, call, async_init. cbn [this world].
  destruct (ValidateAsyncEx_loop v _) as [[[]|e] fr1]; done.
Qed.

(** An asynchronous pass leaves the rule and the validator instances as
    they were, but for the contents of the failure slots and
    [AttemptedValue], and calls only validators that the absent-value rule
    does not exempt. *)
Lemma ValidateAsyncEx_kept sched v (s : state) :
  rule_kept s (ValidateAsyncEx sched v s).2 /\
  calls_justified v s (ValidateAsyncEx sched v s).2.
Proof.
  rewrite ValidateAsyncEx_unfold. cbn zeta.
  set (fr0 := mkFrame (this s) (world s) async_init).
  destruct (ValidateAsyncEx_loop_kept v fr0) as (_ & _ & Hk & Hc & _).
  destruct (settle_spec sched v (ValidateAsyncEx_loop v fr0).2) as (Hk' & Ht' & _).
  split.
  - eapply rule_kept_frames; [..|eapply rule_kept_trans; [exact Hk|exact Hk']]; done.
  - eapply calls_justified_frames; [..|eapply calls_justified_trans; [exact Hk|exact Hc|]]; try done.
    by apply calls_justified_quiet.
Qed.

(** The promise [ValidateAsyncEx] returns is never rejected. *)
Lemma ValidateAsyncEx_never_rejected sched v (s : state) reason :
  (ValidateAsyncEx sched v s).1 ≠ Normal (Rejected reason).
Proof.
  rewrite ValidateAsyncEx_unfold. cbn zeta. cbn [fst].
  destruct (ValidateAsyncEx_loop v _).1; [|done].
  by destruct (all_fulfilled _).
Qed.

(** The handlers of an asynchronous pass that ends normally write to the
    failure slot enumerated last, whichever validators they belong to. *)
Lemma ValidateAsyncEx_writes_last sched v (s : state) p :
  (ValidateAsyncEx sched v s).1 = Normal p ->
  slots_kept_but (last (JsObject.keys (ValidationFailures (this s))))
                 (this s) (this (ValidateAsyncEx sched v s).2).
Proof.
  rewrite ValidateAsyncEx_unfold. cbn zeta. cbn [fst snd this].
  set (fr0 := mkFrame (this s) (world s) async_init).
  intros Hn.
  assert ((ValidateAsyncEx_loop v fr0).1 = Normal tt) as Hloop.
  { by destruct (ValidateAsyncEx_loop v fr0).1 as [[]|]. }
  destruct (ValidateAsyncEx_loop_kept v fr0) as (Ht & _).
  destruct (settle_spec sched v (ValidateAsyncEx_loop v fr0).2) as (_ & _ & _ & Hs & _).
  rewrite (ValidateAsyncEx_loop_validation v fr0 Hloop) in Hs.
  change (this fr0) with (this s) in *. rewrite Ht in Hs.
  intros k Hk. apply Hs. simpl. by destruct (last _).
Qed.

(** ** Rules made by the constructor *)

Lemma AddValidator_wf w validator rule :
  rule_wf w rule -> rule_wf w (AddValidator w validator rule).
Proof.
  intros Hwf index. unfold AddValidator. cbn [ValidationFailures Validators].
  destruct (decide (tagName (heap w validator) = index)) as [<-|Hne].
  - rewrite !get_set_eq. done.
  - rewrite !get_set_ne by done. apply Hwf.
Qed.

Lemma new_wf w name validatorsToAdd : rule_wf w (new w name validatorsToAdd).
Proof.
  unfold new.
  assert (forall rule0, rule_wf w rule0 ->
            rule_wf w (foldl (fun this validator => AddValidator w validator this)
                             rule0 validatorsToAdd)) as H.
  { induction validatorsToAdd as [|x xs IH]; intros rule0 H0; simpl; [done|].
    apply IH. by apply AddValidator_wf. }
  apply H. by intros index.
Qed.

Lemma rule_wf_validator w rule index ref :
  rule_wf w rule ->
  JsObject.get index (Validators rule) = Some ref ->
  tagName (heap w ref) = index /\
  Err.IsAsync <$> JsObject.get index (ValidationFailures rule) = Some (isAsync (heap w ref)).
Proof.
  intros Hwf Hv. specialize (Hwf index). rewrite Hv in Hwf.
  destruct (JsObject.get index (ValidationFailures rule)); [|done].
  destruct Hwf as [Ht Ha]. simpl. by rewrite Ha.
Qed.

Lemma rule_wf_failure w rule index failure :
  rule_wf w rule ->
  JsObject.get index (ValidationFailures rule) = Some failure ->
  exists ref, JsObject.get index (Validators rule) = Some ref /\
              tagName (heap w ref) = index /\ Err.IsAsync failure = isAsync (heap w ref).
Proof.
  intros Hwf Hf. specialize (Hwf index). rewrite Hf in Hwf.
  destruct (JsObject.get index (Validators rule)) as [ref|]; [|done]. eauto.
Qed.

(** ** Claims on the property rule *)

(** C4, as the code has it. In a synchronous pass over a property rule in
    which no check throws, every non-async validator registered on the
    property is evaluated and its own failure slot is written with its own
    outcome, whether or not an earlier validator failed: the pass ends
    normally, the slot of each such validator holds [HasError] as that
    validator alone decides it and [TranslateArgs] naming that validator,
    and its [isAcceptable] was called (unless the value is absent and the
    validator is not the required one). The short-circuit branch is never
    taken. *)
Theorem ValidateEx_evaluates_every_validator (w : World) (rule : t) (v : value) :
  rule_wf w rule ->
  (forall index ref, JsObject.get index (Validators rule) = Some ref ->
     isAsync (heap w ref) = false -> forall e, isAcceptable (heap w ref) v ≠ Throws e) ->
  let result := ValidateEx v (mkFrame rule w tt) in
  result.1 = Normal (sync_failures (this result.2)) /\
  forall index ref,
    JsObject.get index (Validators rule) = Some ref -> isAsync (heap w ref) = false ->
    (exists failure,
       JsObject.get index (ValidationFailures (this result.2)) = Some failure /\
       Err.HasError (Err.Error failure) = hasError_of (heap w ref) v /\
       Err.TranslateArgs (Err.Error failure)
       = Some {| Err.TranslateId := tagName (heap w ref); Err.MessageArgs := ref |}) /\
    (absent v && negb (String.eqb (tagName (heap w ref)) "required") = false ->
     EvCall ref v ∈ trace (world result.2)).
Proof.
  intros Hwf Hthrow result.
  assert (result.1 = Normal (sync_failures (this result.2))) as Hn.
  { apply ValidateEx_normal. cbn [this world]. intros index Ha.
    destruct (JsObject.get index (ValidationFailures rule)) as [failure|] eqn:Hf; [|done].
    destruct (rule_wf_failure _ _ _ _ Hwf Hf) as (ref & Hv & _ & Has).
    exists ref. split; [done|]. intros _. apply (Hthrow index ref Hv).
    injection Ha as Ha. congruence. }
  split; [done|]. intros index ref Hv Ha.
  destruct (rule_wf_validator _ _ _ _ Hwf Hv) as [_ Hf].
  destruct (ValidateEx_slot v (mkFrame rule w tt) index ref) as [(failure & H1 & H2 & H3 & _) Hc].
  - eauto.
  - cbn [this]. by rewrite Hf, Ha.
  - done.
  - split; [|done]. exists failure. done.
Qed.

(** Witness for C4: a value both validators of a rule refuse; both slots
    report the failure. *)
Lemma ValidateEx_evaluates_every_validator_witness :
  let result := ValidateEx (VStr "abcdef") (mkFrame Fixtures.size_rule Fixtures.world tt) in
  result.1 = Normal (sync_failures (this result.2)) /\
  forall index ref,
    JsObject.get index (Validators Fixtures.size_rule) = Some ref ->
    isAsync (heap Fixtures.world ref) = false ->
    (exists failure,
       JsObject.get index (ValidationFailures (this result.2)) = Some failure /\
       Err.HasError (Err.Error failure) = hasError_of (heap Fixtures.world ref) (VStr "abcdef") /\
       Err.TranslateArgs (Err.Error failure)
       = Some {| Err.TranslateId := tagName (heap Fixtures.world ref); Err.MessageArgs := ref |}) /\
    (absent (VStr "abcdef")
     && negb (String.eqb (tagName (heap Fixtures.world ref)) "required") = false ->
     EvCall ref (VStr "abcdef") ∈ trace (world result.2)).
Proof.
  apply (ValidateEx_evaluates_every_validator Fixtures.world Fixtures.size_rule (VStr "abcdef")).
  - apply new_wf.
  - intros index ref Hv _ e. vm_compute in Hv.
    repeat match type of Hv with
           | context [match ?d with left _ => _ | right _ => _ end] => destruct d
           end; simplify_eq; done.
Defined.

(** Counterexample to C4 as stated: a check that throws ends the pass. In
    a rule with [faulty] before [required], on a value [required] would
    accept, the check of [faulty] throws, is logged and rethrown;
    [required] is not checked and its slot is the one the rule was made
    with. *)
Lemma thrown_check_skips_later_validators :
  let rule := new Fixtures.world "Note" [4; 0] in
  let result := ValidateEx (VStr "abc") (mkFrame rule Fixtures.world tt) in
  JsObject.get "required" (Validators rule) = Some 0 /\
  isAsync (heap Fixtures.world 0) = false /\
  result.1 = Abrupt (Thrown (VStr "fault")) /\
  trace (world result.2)
  = [EvCall 4 (VStr "abc");
     EvLog "Exception occurred when checking element'custom' method." (Thrown (VStr "fault"))] /\
  JsObject.get "required" (ValidationFailures (this result.2))
  = JsObject.get "required" (ValidationFailures rule) /\
  ~ (forall index ref,
       JsObject.get index (Validators rule) = Some ref ->
       isAsync (heap Fixtures.world ref) = false ->
       EvCall ref (VStr "abc") ∈ trace (world result.2)).
Proof.
  cbn zeta. do 5 (split; [vm_compute; reflexivity|]).
  intros Hall. specialize (Hall "required" 0 eq_refl eq_refl). vm_compute in Hall.
  repeat (apply elem_of_cons in Hall as [Hall|Hall]; [discriminate|]).
  by apply elem_of_nil in Hall.
Qed.

(** Both validators of the rule refuse the value, and both slots say so. *)
Example both_slots_report :
  let rule := this (ValidateEx (VStr "abcdef")
                      (mkFrame Fixtures.size_rule Fixtures.world tt)).2 in
  (fun failure => Err.HasError (Err.Error failure))
    <$> JsObject.get "maxlength" (ValidationFailures rule) = Some true /\
  (fun failure => Err.HasError (Err.Error failure))
    <$> JsObject.get "number" (ValidationFailures rule) = Some true /\
  ErrorMessage rule VUndefined = "Please enter no more than 3 characters..Please enter a valid number.".
Proof. vm_compute. done. Qed.

Lemma absent_call_required w v r :
  absent v = true ->
  absent v && negb (String.eqb (tagName (heap w r)) "required") = false ->
  tagName (heap w r) = "required".
Proof.
  intros -> H. simpl in H. apply negb_false_iff in H. by apply String.eqb_eq.
Qed.

Lemma calls_only_required {L L' : Type} w v (fr : frame L) (fr' : frame L') :
  absent v = true -> world fr = w ->
  calls_justified v fr fr' ->
  exists new, trace (world fr') = trace w ++ new /\
              forall r v', EvCall r v' ∈ new -> tagName (heap w r) = "required".
Proof.
  intros Hab <- (new & Ht & Hc). exists new. split; [done|].
  intros r v' Hin. destruct (Hc r v' Hin) as (_ & _ & H). by eapply absent_call_required.
Qed.

(** Absent values in the two passes. Against a value that is undefined or
    null, a validator whose tag is not "required" is not called, in either
    pass.
    In the synchronous pass (no required-tagged validator throwing)
    its slot gets [HasError = false]; every [isAcceptable] call of either
    pass is on a required-tagged validator. In the asynchronous pass the
    promise taken for such a validator is the fulfilled [Q.when(true)]:
    every promise of the pass is that one, unless a required-tagged
    validator returned it; the handler of a promise fulfilled with true
    sets [HasError] to false in the slot it writes to; and when no
    asynchronous validator is tagged "required" the pass turns no slot into
    a failing one. *)
Lemma absent_value_checked_by_required_only
    (w : World) (rule : t) (v : value) (sched : schedule) :
  rule_wf w rule ->
  absent v = true ->
  (forall index ref, JsObject.get index (Validators rule) = Some ref ->
     isAsync (heap w ref) = false -> tagName (heap w ref) = "required" ->
     forall e, isAcceptable (heap w ref) v ≠ Throws e) ->
  let sync := ValidateEx v (mkFrame rule w tt) in
  let loop := ValidateAsyncEx_loop v (mkFrame rule w async_init) in
  let async := ValidateAsyncEx sched v (mkFrame rule w tt) in
  (forall index ref,
     JsObject.get index (Validators rule) = Some ref ->
     isAsync (heap w ref) = false -> tagName (heap w ref) ≠ "required" ->
     exists failure,
       JsObject.get index (ValidationFailures (this sync.2)) = Some failure /\
       Err.HasError (Err.Error failure) = false) /\
  (exists new, trace (world sync.2) = trace w ++ new /\
     forall r v', EvCall r v' ∈ new -> tagName (heap w r) = "required") /\
  (exists new, trace (world async.2) = trace w ++ new /\
     forall r v', EvCall r v' ∈ new -> tagName (heap w r) = "required") /\
  Forall (fun p =>
            p = Fulfils true \/
            exists index ref,
              JsObject.get index (Validators rule) = Some ref /\
              isAsync (heap w ref) = true /\ tagName (heap w ref) = "required" /\
              isAcceptable (heap w ref) v = Returns (RPromise p))
         (promises (locals loop.2)) /\
  (forall (fr : frame async_locals) index failure,
     validation (locals fr) = Some index ->
     JsObject.get index (ValidationFailures (this (then_handler v true fr).2)) = Some failure ->
     Err.HasError (Err.Error failure) = false) /\
  ((forall index ref, JsObject.get index (Validators rule) = Some ref ->
      isAsync (heap w ref) = true -> tagName (heap w ref) ≠ "required") ->
   (forall results, sched results ≡ₚ results) ->
   no_new_failure rule (this async.2)).
Proof.
  intros Hwf Hab Hthrow sync loop async.
  assert (Forall (fun p =>
            p = Fulfils true \/
            exists index ref,
              JsObject.get index (Validators rule) = Some ref /\
              isAsync (heap w ref) = true /\ tagName (heap w ref) = "required" /\
              isAcceptable (heap w ref) v = Returns (RPromise p))
         (promises (locals loop.2))) as Hpromises.
  { destruct (ValidateAsyncEx_loop_kept v (mkFrame rule w async_init))
      as (_ & _ & _ & _ & new & Hp & Hj).
    fold loop in Hp. rewrite Hp. simpl. eapply Forall_impl; [exact Hj|].
    intros p [->|(index & ref & Hf & Hv & Hex & Hacc)]; [by left|right].
    exists index, ref. cbn [this world] in *.
    destruct (rule_wf_validator _ _ _ _ Hwf Hv) as [_ Hf']. rewrite Hf' in Hf.
    split; [done|]. split; [congruence|]. split; [|done].
    by eapply absent_call_required. }
  split; [|split; [|split; [|split; [done|split]]]].
  - intros index ref Hv Ha Htag.
    destruct (rule_wf_validator _ _ _ _ Hwf Hv) as [_ Hf].
    destruct (ValidateEx_slot v (mkFrame rule w tt) index ref)
      as [(failure & H1 & H2 & _) _].
    + exists (sync_failures (this sync.2)). apply ValidateEx_normal. cbn [this world].
      intros index' Ha'.
      destruct (JsObject.get index' (ValidationFailures rule)) as [failure|] eqn:Hf'; [|done].
      destruct (rule_wf_failure _ _ _ _ Hwf Hf') as (ref' & Hv' & _ & Has).
      exists ref'. split; [done|]. intros Hex. apply (Hthrow index' ref' Hv').
      * injection Ha' as Ha'. congruence.
      * by eapply absent_call_required.
    + cbn [this]. by rewrite Hf, Ha.
    + done.
    + exists failure. split; [done|]. rewrite H2. unfold hasError_of. rewrite Hab. simpl.
      destruct (String.eqb_spec (tagName (heap w ref)) "required"); done.
  - eapply (calls_only_required w v (mkFrame rule w tt)); [done..|].
    apply ValidateEx_kept.
  - eapply (calls_only_required w v (mkFrame rule w tt)); [done..|].
    apply ValidateAsyncEx_kept.
  - intros fr index failure Hval Hf.
    destruct (then_handler_spec v true fr) as (_ & _ & _ & _ & Hwrites).
    by apply (Hwrites index failure Hval Hf).
  - intros Hnone Hperm. unfold async. rewrite ValidateAsyncEx_unfold. cbn zeta. cbn [snd this world].
    fold loop.
    destruct (ValidateAsyncEx_loop_kept v (mkFrame rule w async_init)) as (Ht & _).
    fold loop in Ht. cbn [this] in Ht.
    destruct (settle_spec sched v loop.2) as (_ & _ & _ & _ & Hno).
    rewrite Ht in Hno. apply Hno.
    rewrite Hperm. unfold fulfilled. rewrite Forall_forall. intros result Hin.
    apply list_elem_of_omap in Hin as (p & Hp & Hres).
    rewrite Forall_forall in Hpromises. destruct (Hpromises p Hp) as [->|(index & ref & Hv & Ha & Htag & _)].
    + by injection Hres as <-.
    + by destruct (Hnone index ref Hv Ha).
Qed.

(** The same at an instance: the rule with [contains] and [required],
    evaluated on [undefined]. *)
Lemma absent_value_checked_by_required_only_witness :
  let w := Fixtures.world in
  let rule := Fixtures.code_rule in
  let v := VUndefined in
  let sync := ValidateEx v (mkFrame rule w tt) in
  let loop := ValidateAsyncEx_loop v (mkFrame rule w async_init) in
  let async := ValidateAsyncEx in_order v (mkFrame rule w tt) in
  (forall index ref,
     JsObject.get index (Validators rule) = Some ref ->
     isAsync (heap w ref) = false -> tagName (heap w ref) ≠ "required" ->
     exists failure,
       JsObject.get index (ValidationFailures (this sync.2)) = Some failure /\
       Err.HasError (Err.Error failure) = false) /\
  (exists new, trace (world sync.2) = trace w ++ new /\
     forall r v', EvCall r v' ∈ new -> tagName (heap w r) = "required") /\
  (exists new, trace (world async.2) = trace w ++ new /\
     forall r v', EvCall r v' ∈ new -> tagName (heap w r) = "required") /\
  Forall (fun p =>
            p = Fulfils true \/
            exists index ref,
              JsObject.get index (Validators rule) = Some ref /\
              isAsync (heap w ref) = true /\ tagName (heap w ref) = "required" /\
              isAcceptable (heap w ref) v = Returns (RPromise p))
         (promises (locals loop.2)) /\
  (forall (fr : frame async_locals) index failure,
     validation (locals fr) = Some index ->
     JsObject.get index (ValidationFailures (this (then_handler v true fr).2)) = Some failure ->
     Err.HasError (Err.Error failure) = false) /\
  ((forall index ref, JsObject.get index (Validators rule) = Some ref ->
      isAsync (heap w ref) = true -> tagName (heap w ref) ≠ "required") ->
   (forall results, in_order results ≡ₚ results) ->
   no_new_failure rule (this async.2)).
Proof.
  apply (absent_value_checked_by_required_only
           Fixtures.world Fixtures.code_rule VUndefined in_order).
  - apply new_wf.
  - reflexivity.
  - intros index ref Hv _ Htag e. vm_compute in Hv.
    repeat match type of Hv with
           | context [match ?d with left _ => _ | right _ => _ end] => destruct d
           end; simplify_eq; done.
Defined.

(** C3 fails on the code in the asynchronous pass. Against [undefined] the
    asynchronous [contains] is not called, and the promise taken for it is
    the fulfilled [Q.when(true)]; but the handler of that promise writes to
    the slot enumerated last (the defect of C1). With [contains] declared
    before [required], the pass does not set [HasError] in the slot of
    [contains]: whatever error that slot held it still holds, a reported
    failure included. The pass sets [HasError] to false in the slot of
    [required] instead, where the synchronous pass had recorded that
    [required] refuses [undefined]. *)
Theorem absent_value_clears_the_last_slot :
  let has_error (index : string) (rule : t) :=
    (fun failure => Err.HasError (Err.Error failure))
      <$> JsObject.get index (ValidationFailures rule) in
  let holding (error : Err.IError) : t :=
    {| Name := Name Fixtures.code_rule; Optional := Optional Fixtures.code_rule;
       Validators := Validators Fixtures.code_rule;
       ValidationFailures :=
         JsObject.alter (Err.on_Error (fun _ => error)) "contains"
                        (ValidationFailures Fixtures.code_rule) |} in
  let sync (error : Err.IError) :=
    (ValidateEx VUndefined (mkFrame (holding error) Fixtures.world tt)).2 in
  let async (error : Err.IError) := (ValidateAsyncEx in_order VUndefined (sync error)).2 in
  holding Err.new_Error = Fixtures.code_rule /\
  JsObject.keys (ValidationFailures Fixtures.code_rule) = ["contains"; "required"] /\
  tagName (heap Fixtures.world 2) = "contains" /\
  isAsync (heap Fixtures.world 2) = true /\
  isAcceptable Fixtures.required VUndefined = Returns (RBool false) /\
  forall error : Err.IError,
    trace (world (async error)) = [EvCall 0 VUndefined] /\
    Err.Error <$> JsObject.get "contains" (ValidationFailures (this (async error))) = Some error /\
    has_error "required" (this (sync error)) = Some true /\
    has_error "required" (this (async error)) = Some false.
Proof.
  cbn zeta. do 5 (split; [vm_compute; reflexivity|]).
  intros error. vm_compute. done.
Qed.



(** C1 fails on the code. The [then] handlers of [ValidateAsyncEx] read the
    function-scoped variables [validation] and [validator] after the loop
    has ended, so they all write to the failure slot enumerated last. With
    the asynchronous [contains] declared before [required]: on "C", which
    [contains] refuses and [required] accepts, after both passes the slot
    of [contains] is the one the rule was made with, no outcome having
    been written to it, and the slot of [required] reports the error of
    [contains]; on [undefined], which [required] refuses, the fulfilled
    promise taken for [contains] clears the slot of [required]. The
    failure of [required] is lost to the rule: it reports on [undefined]
    what it reports on "A", which both validators accept. *)
Theorem async_outcome_lands_in_last_slot :
  let has_error (index : string) (rule : t) :=
    (fun failure => Err.HasError (Err.Error failure))
      <$> JsObject.get index (ValidationFailures rule) in
  let translate_id (index : string) (rule : t) :=
    (fun failure => Err.TranslateId <$> Err.TranslateArgs (Err.Error failure))
      <$> JsObject.get index (ValidationFailures rule) in
  let unwritten (index : string) (rule : t) :=
    JsObject.get index (ValidationFailures rule)
    = JsObject.get index (ValidationFailures Fixtures.code_rule) in
  let both (v : value) :=
    (ValidateEx v ;;; ValidateAsyncEx in_order v)%js
      (mkFrame Fixtures.code_rule Fixtures.world tt) in
  (isAcceptable Fixtures.contains (VStr "C") = Returns (RPromise (Fulfils false)) /\
   isAcceptable Fixtures.required (VStr "C") = Returns (RBool true) /\
   unwritten "contains" (this (both (VStr "C")).2) /\
   has_error "required" (this (both (VStr "C")).2) = Some true /\
   translate_id "required" (this (both (VStr "C")).2) = Some (Some "contains")) /\
  (isAcceptable Fixtures.required VUndefined = Returns (RBool false) /\
   has_error "required" (this (ValidateEx VUndefined
                                 (mkFrame Fixtures.code_rule Fixtures.world tt)).2) = Some true /\
   unwritten "contains" (this (both VUndefined).2) /\
   has_error "required" (this (both VUndefined).2) = Some false /\
   translate_id "required" (this (both VUndefined).2) = Some (Some "contains")) /\
  (isAcceptable Fixtures.contains (VStr "A") = Returns (RPromise (Fulfils true)) /\
   isAcceptable Fixtures.required (VStr "A") = Returns (RBool true) /\
   forall ext, HasErrors (this (both VUndefined).2) ext = HasErrors (this (both (VStr "A")).2) ext).
Proof. vm_compute. done. Qed.

(** C2 fails on the code for a rejected asynchronous check. The promise
    [ValidateAsyncEx] returns is never rejected; with a validator whose
    promise is rejected, the promise returned by [ValidateAsync] of the
    property rule, and by [ValidateAsync] of the rule tree above it, stays
    pending, and nothing is logged. *)
Theorem rejected_check_leaves_promise_pending :
  (forall sched v s reason, (ValidateAsyncEx sched v s).1 ≠ Normal (Rejected reason)) /\
  let data := VObj [("Login", VStr "guest")] in
  let declaration := AbstractValidator.RuleFor "Login" 3 AbstractValidator.new in
  let run := ValidateAsync in_order (ValidationContext.mk "Login" data)
               (mkFrame Fixtures.remote_rule Fixtures.world tt) in
  let tree_run := AbstractValidationRule.ValidateAsync in_order 1
                    (AbstractValidationRule.mkFrame
                       (AbstractValidationRule.CreateRule Fixtures.world declaration "Main")
                       data Fixtures.world tt) in
  isAcceptable Fixtures.unreachable (VStr "guest")
  = Returns (RPromise (Rejects (VStr "service unreachable"))) /\
  run.1 = Normal Pending /\
  trace (world run.2) = [EvCall 3 (VStr "guest")] /\
  tree_run.1 = Normal Pending /\
  trace (AbstractValidationRule.world tree_run.2) = [EvCall 3 (VStr "guest")].
Proof.
  split.
  - intros sched v s reason. apply ValidateAsyncEx_never_rejected.
  - vm_compute. done.
Qed.

(** The synchronous half of C2 holds: a check that throws is logged by
    [ValidateEx] and by [Validate], and rethrown; the slot of the validator
    evaluated before it keeps its outcome. *)
Example thrown_check_is_logged_and_rethrown :
  let data := VObj [("Note", VStr "")] in
  let run := Validate (ValidationContext.mk "Note" data)
               (mkFrame Fixtures.faulty_rule Fixtures.world tt) in
  run.1 = Abrupt (Thrown (VStr "fault")) /\
  trace (world run.2)
  = [EvCall 0 (VStr ""); EvCall 4 (VStr "");
     EvLog "Exception occurred when checking element'custom' method." (Thrown (VStr "fault"));
     EvLog "Exception occurred when checking element Note." (Thrown (VStr "fault"))] /\
  (fun failure => Err.HasError (Err.Error failure))
    <$> JsObject.get "required" (ValidationFailures (this run.2)) = Some true.
Proof. vm_compute. done. Qed.

(** ** Validate and ValidateAsync of a property rule *)

Lemma Validate_kept context (s : state) : rule_kept s (Validate context s).2.
Proof.
  unfold Validate, try_catch, bind, lift, on_world, modify, throw.
  destruct (ValidationContext.Value context) as [v|e]; cbn [fst snd].
  - destruct (ValidateEx_kept v s) as [Hk _].
    destruct (ValidateEx v s) as [[failures|e] s']; [done|]. cbn [snd] in *.
    eapply rule_kept_trans; [exact Hk|].
    apply rule_kept_with_world; [apply validators_kept_emit|]. simpl. by eexists.
  - apply rule_kept_with_world; [apply validators_kept_emit|]. simpl. by eexists.
Qed.

Lemma ValidateAsync_kept sched context (s : state) :
  rule_kept s (ValidateAsync sched context s).2.
Proof.
  unfold ValidateAsync, bind, lift.
  destruct (ValidationContext.Value context) as [v|e]; cbn [fst snd].
  - destruct (ValidateAsyncEx_kept sched v s) as [Hk _].
    by destruct (ValidateAsyncEx sched v s) as [[p|e] s'].
  - apply rule_kept_refl.
Qed.

(** ** More on ordered maps *)

Section js_object_more.
Context {A : Type}.
Implicit Types (o : obj A) (k : string).

Lemma keys_set k (v : A) o :
  JsObject.keys (JsObject.set k v o)
  = if decide (k ∈ JsObject.keys o) then JsObject.keys o else JsObject.keys o ++ [k].
Proof.
  destruct (decide (k ∈ JsObject.keys o)) as [Hin|Hnin].
  - apply keys_set_Some. by apply keys_get_Some.
  - apply keys_set_None. destruct (JsObject.get k o) eqn:E; [|done].
    destruct Hnin. by eapply get_Some_keys.
Qed.

Lemma get_None_keys k o : JsObject.get k o = None <-> k ∉ JsObject.keys o.
Proof.
  split.
  - intros Hn Hin. apply keys_get_Some in Hin as [x Hx]. congruence.
  - intros Hnin. destruct (JsObject.get k o) eqn:E; [|done].
    destruct Hnin. by eapply get_Some_keys.
Qed.

Lemma values_set_Forall (P : A -> Prop) k (v : A) o :
  P v -> Forall P (JsObject.values o) -> Forall P (JsObject.values (JsObject.set k v o)).
Proof.
  unfold JsObject.values. intros Hv.
  induction o as [|[k' v'] o IH]; simpl; intros Ho.
  - by apply Forall_singleton.
  - apply Forall_cons in Ho as [H1 H2].
    destruct (decide (k' = k)); simpl; apply Forall_cons; auto.
Qed.

Lemma alter_id (f : A -> A) k o :
  (forall x, JsObject.get k o = Some x -> f x = x) -> JsObject.alter f k o = o.
Proof.
  induction o as [|[k' v] o IH]; simpl; intros Hf; [done|].
  destruct (decide (k' = k)) as [->|Hne].
  - rewrite Hf; [done|]. done.
  - f_equal. apply IH. done.
Qed.

Lemma alter_set (f : A -> A) k (v : A) o :
  JsObject.alter f k (JsObject.set k v o) = JsObject.set k (f v) o.
Proof.
  induction o as [|[k' v'] o IH]; simpl.
  - by rewrite decide_True.
  - destruct (decide (k' = k)) as [->|Hne]; simpl.
    + by rewrite decide_True.
    + rewrite decide_False by done. by f_equal.
Qed.

Lemma set_set k (v v' : A) o :
  JsObject.set k v' (JsObject.set k v o) = JsObject.set k v' o.
Proof.
  induction o as [|[k' v0] o IH]; simpl.
  - by rewrite decide_True.
  - destruct (decide (k' = k)) as [->|Hne]; simpl.
    + by rewrite decide_True.
    + rewrite decide_False by done. by f_equal.
Qed.
Lemma set_new k (v : A) o :
  k ∉ JsObject.keys o -> JsObject.set k v o = o ++ [(k, v)].
Proof.
  unfold JsObject.keys. induction o as [|[k' v'] o IH]; simpl; intros Hk; [done|].
  rewrite decide_False.
  - f_equal. apply IH. intros Hin. apply Hk. by apply list_elem_of_further.
  - intros ->. apply Hk. apply list_elem_of_here.
Qed.

Lemma alter_last (f : A -> A) k (v : A) o :
  k ∉ JsObject.keys o -> JsObject.alter f k (o ++ [(k, v)]) = o ++ [(k, f v)].
Proof.
  unfold JsObject.keys. induction o as [|[k' v'] o IH]; simpl; intros Hk.
  - by rewrite decide_True.
  - rewrite decide_False.
    + f_equal. apply IH. intros Hin. apply Hk. by apply list_elem_of_further.
    + intros ->. apply Hk. apply list_elem_of_here.
Qed.

Lemma keys_app o o' : JsObject.keys (o ++ o') = JsObject.keys o ++ JsObject.keys o'.
Proof. unfold JsObject.keys. apply fmap_app. Qed.

Lemma get_app o o' k :
  JsObject.get k (o ++ o') = from_option Some (JsObject.get k o') (JsObject.get k o).
Proof.
  induction o as [|[k' v'] o IH]; simpl; [done|]. by destruct (decide (k' = k)).
Qed.

Lemma keys_fmap_entries {B : Type} (g : string -> A -> B) o :
  JsObject.keys ((fun kv => (kv.1, g kv.1 kv.2)) <$> o) = JsObject.keys o.
Proof.
  unfold JsObject.keys. rewrite <-list_fmap_compose. done.
Qed.

Lemma get_fmap_entries {B : Type} (g : string -> A -> B) o k :
  JsObject.get k ((fun kv => (kv.1, g kv.1 kv.2)) <$> o) = g k <$> JsObject.get k o.
Proof.
  induction o as [|[k' v'] o IH]; simpl; [done|].
  destruct (decide (k' = k)) as [->|]; done.
Qed.
End js_object_more.

(** ** First occurrences *)

Lemma filter_all {A : Type} (P : A -> Prop) `{!forall x, Decision (P x)} (l : list A) :
  Forall P l -> filter P l = l.
Proof.
  induction 1 as [|x l Hx _ IH]; [done|]. rewrite filter_cons_True by done. by f_equal.
Qed.

Lemma filter_none {A : Type} (P : A -> Prop) `{!forall x, Decision (P x)} (l : list A) :
  Forall (fun x => ~ P x) l -> filter P l = [].
Proof.
  induction 1 as [|x l Hx _ IH]; [done|]. by rewrite filter_cons_False.
Qed.

Lemma nub_filter_ne x (l : list string) :
  filter (fun y => y ≠ x) (nub l) = nub (filter (fun y => y ≠ x) l).
Proof.
  induction l as [|y l IH]; [done|]. cbn [nub].
  rewrite filter_cons. destruct (decide (y ≠ x)) as [Hne|Heq].
  - rewrite filter_cons_True by done. cbn [nub]. f_equal.
    rewrite <-IH, !list_filter_filter. apply list_filter_iff. intros z. tauto.
  - apply dec_stable in Heq as ->. rewrite filter_cons_False by tauto.
    rewrite <-IH, list_filter_filter. apply list_filter_iff. intros z. tauto.
Qed.

Lemma elem_of_nub x (l : list string) : x ∈ nub l <-> x ∈ l.
Proof.
  induction l as [|y l IH]; [done|]. cbn [nub].
  rewrite !elem_of_cons, list_elem_of_filter, IH.
  destruct (decide (x = y)); tauto.
Qed.

Lemma NoDup_nub (l : list string) : NoDup (nub l).
Proof.
  induction l as [|y l IH]; [apply NoDup_nil_2|]. cbn [nub].
  apply NoDup_cons. split.
  - rewrite list_elem_of_filter. tauto.
  - by apply NoDup_filter.
Qed.

(** The keys of an object through a series of steps, each of which
    assigns to one key or to none. *)
Lemma keys_accumulate {S B : Type} (key : B -> option string) (step : S -> B -> S)
    (keys_of : S -> list string) :
  (forall s x, keys_of (step s x)
               = match key x with
                 | Some k => if decide (k ∈ keys_of s) then keys_of s else keys_of s ++ [k]
                 | None => keys_of s
                 end) ->
  forall xs s,
    keys_of (foldl step s xs)
    = keys_of s ++ filter (fun k => k ∉ keys_of s) (nub (omap key xs)).
Proof.
  intros Hstep xs. induction xs as [|x xs IH]; intros s.
  { simpl. by rewrite app_nil_r. }
  cbn [foldl omap list_omap]. rewrite IH, Hstep.
  destruct (key x) as [k|]; [|done]. cbn [nub].
  destruct (decide (k ∈ keys_of s)) as [Hin|Hnin].
  - rewrite filter_cons_False by tauto. f_equal.
    rewrite list_filter_filter. apply list_filter_iff. intros z. split; [|tauto].
    intros Hz. split; [done|]. by intros ->.
  - rewrite filter_cons_True by done. rewrite <-app_assoc. cbn [app]. do 2 f_equal.
    rewrite list_filter_filter. apply list_filter_iff. intros z.
    rewrite elem_of_app, list_elem_of_singleton. tauto.
Qed.

Lemma omap_Some {A B : Type} (f : A -> B) (l : list A) :
  omap (fun x => Some (f x)) l = f <$> l.
Proof. induction l as [|x l IH]; [done|]. cbn. by rewrite IH. Qed.

(** The keys of an object after a series of assignments. *)
Lemma keys_foldl_set {A B : Type} (key : B -> string) (val : B -> A) (xs : list B) (o : obj A) :
  JsObject.keys (foldl (fun o x => JsObject.set (key x) (val x) o) o xs)
  = JsObject.keys o ++ filter (fun k => k ∉ JsObject.keys o) (nub (key <$> xs)).
Proof.
  rewrite <-(omap_Some key).
  apply (keys_accumulate (fun x => Some (key x))
           (fun o x => JsObject.set (key x) (val x) o) JsObject.keys).
  intros s x. apply keys_set.
Qed.

(** ** Rules as the constructor and AddValidator leave them *)

Lemma AddValidator_fold w (validatorsToAdd : list nat) (rule0 : t) :
  let rule := foldl (fun this validator => AddValidator w validator this) rule0 validatorsToAdd in
  Name rule = Name rule0 /\ Optional rule = Optional rule0 /\
  Validators rule
  = foldl (fun o ref => JsObject.set (tag_of w ref) ref o) (Validators rule0) validatorsToAdd /\
  ValidationFailures rule
  = foldl (fun o ref => JsObject.set (tag_of w ref) (new_slot w ref) o)
          (ValidationFailures rule0) validatorsToAdd.
Proof.
  revert rule0. induction validatorsToAdd as [|ref refs IH]; intros rule0; [done|].
  cbn [foldl]. cbn zeta. specialize (IH (AddValidator w ref rule0)). cbn zeta in IH.
  destruct IH as (-> & -> & -> & ->). done.
Qed.

Lemma get_foldl_set {A : Type} w (val : nat -> A) (refs : list nat) (o : obj A) tag :
  JsObject.get tag (foldl (fun o ref => JsObject.set (tag_of w ref) (val ref) o) o refs)
  = from_option (fun ref => Some (val ref)) (JsObject.get tag o)
                (last (filter (fun ref => tag_of w ref = tag) refs)).
Proof.
  revert o. induction refs as [|ref refs IH]; intros o; [done|].
  cbn [foldl]. rewrite IH. rewrite filter_cons.
  destruct (decide (tag_of w ref = tag)) as [<-|Hne].
  - rewrite last_cons, get_set_eq. by destruct (last _).
  - by rewrite get_set_ne.
Qed.

(** X2. A property rule made with a list of validators keeps them under
    their tags. When the tags are plain keys (no array index, no name of a
    member of [Object.prototype]), they are enumerated once each, in the
    order of their first occurrence in the list, the failure slots have
    the same keys, the validator kept under a tag is the last one of the
    list with that tag, and its slot is a new one, made for that
    validator. *)
Theorem new_rule_keeps_last_validator_of_each_tag
    (w : World) (name : string) (validatorsToAdd : list nat) :
  Forall (fun ref => JsObject.plain (tag_of w ref)) validatorsToAdd ->
  let rule := new w name validatorsToAdd in
  let last_with tag := last (filter (fun ref => tag_of w ref = tag) validatorsToAdd) in
  JsObject.keys (Validators rule) = nub (tag_of w <$> validatorsToAdd) /\
  JsObject.keys (ValidationFailures rule) = nub (tag_of w <$> validatorsToAdd) /\
  (forall tag,
     JsObject.get tag (Validators rule) = last_with tag /\
     JsObject.get tag (ValidationFailures rule) = new_slot w <$> last_with tag).
Proof.
  intros _. cbn zeta. unfold new.
  destruct (AddValidator_fold w validatorsToAdd
              {| Name := name; Optional := None; Validators := []; ValidationFailures := [] |})
    as (_ & Hopt & Hv & Hf).
  cbn zeta in *. cbn [Validators ValidationFailures Optional] in *.
  rewrite Hv, Hf. split; [|split].
  - rewrite (keys_foldl_set (tag_of w) (fun ref => ref)). cbn [JsObject.keys fmap list_fmap app].
    rewrite filter_all; [done|]. apply Forall_forall. intros x _ Hx. by apply elem_of_nil in Hx.
  - rewrite (keys_foldl_set (tag_of w) (new_slot w)). cbn [JsObject.keys fmap list_fmap app].
    rewrite filter_all; [done|]. apply Forall_forall. intros x _ Hx. by apply elem_of_nil in Hx.
  - intros tag. rewrite (get_foldl_set w (fun ref => ref)), (get_foldl_set w (new_slot w)).
    cbn [JsObject.get]. by destruct (last _).
Qed.

(** Witness for X2: [maxlength], [number] and [maxlength] again. *)
Lemma new_rule_keeps_last_validator_of_each_tag_witness :
  let rule := new Fixtures.world "Size" [1; 5; 1] in
  JsObject.keys (Validators rule) = ["maxlength"; "number"] /\
  JsObject.keys (ValidationFailures rule) = ["maxlength"; "number"] /\
  JsObject.get "maxlength" (Validators rule) = Some 1 /\
  JsObject.get "maxlength" (ValidationFailures rule) = Some (new_slot Fixtures.world 1).
Proof.
  destruct (new_rule_keeps_last_validator_of_each_tag Fixtures.world "Size" [1; 5; 1])
    as (Hkeys & Hslots & Hget).
  - apply (bool_decide_unpack _). vm_compute. exact I.
  - split; [exact Hkeys|]. split; [exact Hslots|]. exact (Hget "maxlength").
Defined.

(** ** The getters of a rule and of a shared validator *)

Lemma existsb_filter_nil {A : Type} (f : A -> bool) (l : list A) :
  existsb f l = false <-> filter (fun x => f x = true) l = [].
Proof.
  induction l as [|x l IH]; [done|]. cbn [existsb].
  destruct (f x) eqn:E; simpl.
  - rewrite filter_cons_True by done. split; done.
  - rewrite filter_cons_False by congruence. done.
Qed.

(** X3. How the getters of a property rule and of a shared validator go
    together. A property rule counts as one error however many of its
    validators fail, while [TranslateArgs] has an entry for each failing
    slot; [ErrorCount] is 0 exactly when [HasErrors] is false and exactly
    when [TranslateArgs] is empty, and then [ErrorMessage] is empty. A
    shared validator has as many [TranslateArgs] as its [ErrorCount]. *)
Theorem getters_agree (rule : t) (node : Validator.t) (ext : value) :
  let failing := filter (fun error => Err.HasError error = true) (Errors rule) in
  (ErrorCount rule ext <= 1 /\
   (ErrorCount rule ext = 0 <-> HasErrors rule ext = false) /\
   (ErrorCount rule ext = 0 <-> TranslateArgs rule ext = []) /\
   (ErrorCount rule ext = 0 -> ErrorMessage rule ext = "") /\
   (ErrorCount rule ext = 1 -> 1 <= length failing /\
      TranslateArgs rule ext = Err.TranslateArgs <$> failing)) /\
  (Validator.ErrorCount node ext = length (Validator.TranslateArgs node ext) /\
   (Validator.ErrorCount node ext = 0 <-> Validator.HasError node ext = false) /\
   (Validator.ErrorCount node ext = 0 -> Validator.ErrorMessage node ext = "")).
Proof.
  cbn zeta. split.
  - unfold ErrorCount, ErrorMessage, TranslateArgs.
    destruct (HasErrors rule ext) eqn:Hh; cbn [negb].
    + assert (filter (fun error => Err.HasError error = true) (Errors rule) ≠ []) as Hne.
      { unfold HasErrors in Hh. destruct (suppressed _ _); [done|].
        intros Hnil. apply existsb_filter_nil in Hnil. congruence. }
      split; [lia|]. split; [done|]. split.
      * split; [done|]. intros Hnil. apply fmap_nil_inv in Hnil. done.
      * split; [done|]. intros _. split; [|done].
        destruct (filter _ _); [done|]. simpl. lia.
    + split; [lia|]. repeat split; done.
  - unfold Validator.ErrorCount, Validator.ErrorMessage, Validator.TranslateArgs,
      Validator.HasError.
    destruct (Validator.HasErrors node ext); cbn [negb]; repeat split; done.
Qed.

(** ** Passes with nothing to do, and missing data *)

Lemma ValidateAsyncEx_loop_idle v (keys : list string) (fr : frame async_locals) :
  (forall index, index ∈ keys ->
     exists failure, JsObject.get index (ValidationFailures (this fr)) = Some failure /\
                     Err.IsAsync failure = false) ->
  for_each keys (ValidateAsyncEx_body v) fr
  = (Normal tt,
     with_locals (fun l => mkAsync (from_option Some (validation l) (last keys))
                                   (validator l) (promises l)) fr).
Proof.
  revert fr. induction keys as [|k keys IH]; intros fr Hall.
  { simpl. unfold ret. by destruct fr as [rule w [cv cr ps]]. }
  cbn [for_each]. unfold bind.
  destruct (Hall k (list_elem_of_here _ _)) as (failure & Hf & Ha).
  pose proof (ValidateAsyncEx_body_step v k fr) as Hstep.
  destruct (ValidateAsyncEx_body v k fr) as [r fr1]. cbn [fst snd] in Hstep.
  inversion Hstep; subst; try congruence.
  rewrite IH.
  - rewrite last_cons. unfold with_locals. cbn. by destruct (last keys).
  - intros index Hin. cbn. apply Hall. by apply list_elem_of_further.
Qed.

Lemma ValidateEx_loop_idle v (keys : list string) (fr : frame sync_locals) :
  (forall index, index ∈ keys ->
     exists failure, JsObject.get index (ValidationFailures (this fr)) = Some failure /\
                     Err.IsAsync failure = true) ->
  for_each keys (ValidateEx_body v) fr = (Normal tt, fr).
Proof.
  induction keys as [|k keys IH]; intros Hall; [done|].
  cbn [for_each]. unfold bind.
  destruct (Hall k (list_elem_of_here _ _)) as (failure & Hf & Ha).
  assert (ValidateEx_body v k fr = (Normal tt, fr)) as ->.
  { unfold ValidateEx_body, bind, gets, defined, ret. rewrite Hf. cbn. by rewrite Ha. }
  apply IH. intros index Hin. apply Hall. by apply list_elem_of_further.
Qed.

(** X4. A pass with no validator of its kind does nothing. On a rule
    whose validators are all synchronous the asynchronous pass calls no
    validator, writes to no slot and returns a promise resolved with the
    empty list; on a rule whose validators are all asynchronous the
    synchronous pass calls none, writes nothing and returns the empty
    list. A rule without validators is both. *)
Theorem pass_without_validators_of_its_kind_is_idle
    (sched : schedule) (rule : t) (w : World) (v : value) :
  (forall results, sched results ≡ₚ results) ->
  (Forall (fun failure => Err.IsAsync failure = false)
          (JsObject.values (ValidationFailures rule)) ->
   ValidateAsyncEx sched v (mkFrame rule w tt) = (Normal (Resolved []), mkFrame rule w tt)) /\
  (Forall (fun failure => Err.IsAsync failure = true)
          (JsObject.values (ValidationFailures rule)) ->
   ValidateEx v (mkFrame rule w tt) = (Normal [], mkFrame rule w tt)).
Proof.
  intros Hsched. split; intros Hall.
  - rewrite ValidateAsyncEx_unfold. cbn zeta. cbn [this world].
    unfold ValidateAsyncEx_loop, bind, gets. cbn [this].
    rewrite ValidateAsyncEx_loop_idle.
    2:{ intros index [failure Hf]%keys_get_Some. exists failure. split; [done|].
        cbn [this] in Hf. apply get_Some_values in Hf.
        by apply (proj1 (Forall_forall _ _) Hall). }
    cbn [fst snd]. unfold settle, bind, gets, with_locals, async_init. cbn.
    assert (sched [] = []) as ->.
    { apply Permutation_nil_r. by rewrite Hsched. }
    cbn. unfold async_failures. rewrite filter_none; [done|].
    eapply Forall_impl; [exact Hall|]. intros failure ->. done.
  - rewrite ValidateEx_unfold. cbn zeta. cbn [this world].
    unfold ValidateEx_loop, bind, gets. cbn [this].
    rewrite ValidateEx_loop_idle.
    2:{ intros index [failure Hf]%keys_get_Some. exists failure. split; [done|].
        cbn [this] in Hf. apply get_Some_values in Hf.
        by apply (proj1 (Forall_forall _ _) Hall). }
    cbn [fst snd this world]. unfold sync_failures. rewrite filter_none; [done|].
    eapply Forall_impl; [exact Hall|]. intros failure ->. done.
Qed.

(** Witness for X4: the rule with [maxlength] and [number] in an
    asynchronous pass, and the rule with the remote check in a synchronous
    one. *)
Lemma pass_without_validators_of_its_kind_is_idle_witness :
  ValidateAsyncEx in_order (VStr "abcdef") (mkFrame Fixtures.size_rule Fixtures.world tt)
  = (Normal (Resolved []), mkFrame Fixtures.size_rule Fixtures.world tt) /\
  ValidateEx (VStr "abcdef") (mkFrame Fixtures.remote_rule Fixtures.world tt)
  = (Normal [], mkFrame Fixtures.remote_rule Fixtures.world tt).
Proof.
  split.
  - apply (pass_without_validators_of_its_kind_is_idle
             in_order Fixtures.size_rule Fixtures.world (VStr "abcdef")); [done|].
    vm_compute. repeat constructor.
  - apply (pass_without_validators_of_its_kind_is_idle
             in_order Fixtures.remote_rule Fixtures.world (VStr "abcdef")); [done|].
    vm_compute. repeat constructor.
Defined.

(** X5. A property rule evaluated on a data context that is undefined or
    null: reading the value of the property throws a TypeError. [Validate]
    catches it, logs it with the key of the property and throws it again;
    [ValidateAsync] has no handler and throws it as it is. Neither calls a
    validator nor writes to the rule. *)
Theorem property_rule_on_missing_data
    (sched : schedule) (key : string) (data : value) (s : state) :
  absent data = true ->
  Validate (ValidationContext.mk key data) s
  = (Abrupt TypeError,
     mkFrame (this s)
       (emit (EvLog ("Exception occurred when checking element " +:+ key +:+ ".") TypeError)
             (world s))
       (locals s)) /\
  ValidateAsync sched (ValidationContext.mk key data) s = (Abrupt TypeError, s).
Proof.
  intros Habsent. destruct data; try discriminate; done.
Qed.

(** Witness for X5: the rule of a property of a person that is null. *)
Lemma property_rule_on_missing_data_witness :
  let s := mkFrame Fixtures.size_rule Fixtures.world tt in
  Validate (ValidationContext.mk "Size" VNull) s
  = (Abrupt TypeError,
     mkFrame Fixtures.size_rule
       (emit (EvLog ("Exception occurred when checking element " +:+ "Size" +:+ ".") TypeError)
             Fixtures.world)
       tt) /\
  ValidateAsync in_order (ValidationContext.mk "Size" VNull) s = (Abrupt TypeError, s).
Proof.
  apply (property_rule_on_missing_data in_order "Size" VNull
           (mkFrame Fixtures.size_rule Fixtures.world tt)).
  reflexivity.
Defined.

(** ** The calls of a pass *)

Lemma kept_slot {L L' : Type} (fr0 : frame L) (fr : frame L') index failure :
  rule_kept fr0 fr ->
  JsObject.get index (ValidationFailures (this fr0)) = Some failure ->
  exists failure', JsObject.get index (ValidationFailures (this fr)) = Some failure' /\
                   Err.IsAsync failure' = Err.IsAsync failure.
Proof.
  intros Hk Hf. pose proof (kept_IsAsync _ _ Hk index) as Ha. rewrite Hf in Ha.
  destruct (JsObject.get index (ValidationFailures (this fr))) as [failure'|]; [|done].
  exists failure'. split; [done|]. by injection Ha.
Qed.

Lemma exempt_kept w w' ref v : validators_kept w w' -> exempt w' ref v = exempt w ref v.
Proof. intros Hw. destruct (Hw ref) as (Ht & _). unfold exempt. by rewrite Ht. Qed.

Lemma due_at_kept {L L' : Type} async v (fr0 : frame L) (fr : frame L') index :
  rule_kept fr0 fr ->
  due_at async (world fr) (this fr) v index = due_at async (world fr0) (this fr0) v index.
Proof.
  intros Hk. unfold due_at. rewrite (kept_Validators _ _ Hk).
  pose proof (kept_IsAsync _ _ Hk index) as Ha.
  destruct (JsObject.get index (ValidationFailures (this fr))) as [failure'|],
           (JsObject.get index (ValidationFailures (this fr0))) as [failure|]; try done.
  injection Ha as ->. destruct (JsObject.get index (Validators (this fr0))) as [ref|]; [|done].
  by rewrite (exempt_kept _ _ _ _ (kept_validators _ _ Hk)).
Qed.

(** One iteration of the synchronous loop, by what it calls. *)
Lemma sync_step_due v index (fr : frame sync_locals) r fr' :
  sync_step v index fr r fr' ->
  is_Some (JsObject.get index (ValidationFailures (this fr))) ->
  is_Some (JsObject.get index (Validators (this fr))) ->
  (forall k, k ≠ index ->
     JsObject.get k (ValidationFailures (this fr')) = JsObject.get k (ValidationFailures (this fr))) /\
  match due_at false (world fr) (this fr) v index with
  | None => r = Normal tt /\ trace (world fr') = trace (world fr)
  | Some ref =>
      match isAcceptable (heap (world fr) ref) v with
      | Returns _ => r = Normal tt /\ trace (world fr') = trace (world fr) ++ [EvCall ref v]
      | Throws e =>
          r = Abrupt (Thrown e) /\ this fr' = this fr /\
          trace (world fr')
          = trace (world fr) ++ [EvCall ref v; check_log (tagName (heap (world fr) ref)) (Thrown e)]
      end
  end.
Proof.
  intros Hstep [failure0 Hf0] [ref0 Hv0]. unfold due_at, exempt.
  destruct Hstep as [Hf|failure Hf Has|failure Hf Has Hnv|failure ref Hf Has Hv Hab
                     |failure ref ret Hf Has Hv Hab Hacc|failure ref e Hf Has Hv Hab Hacc];
    try congruence; rewrite Hf, ?Hv, ?Hv0, ?Has, ?Hab; cbn [bool_decide andb negb].
  - split; [done|]. rewrite bool_decide_eq_false_2 by done. done.
  - split; [|by rewrite bool_decide_eq_true_2].
    intros k Hne. unfold with_locals. cbn [this]. by apply record_outcome_get_ne.
  - split.
    + intros k Hne. unfold with_locals. cbn [this]. rewrite record_outcome_get_ne by done. done.
    + rewrite bool_decide_eq_true_2 by done. cbn [andb]. rewrite Hacc.
      split; [done|]. unfold with_locals. cbn [world]. by rewrite record_outcome_world.
  - split; [done|]. rewrite bool_decide_eq_true_2 by done. cbn [andb]. rewrite Hacc.
    split; [done|]. split; [done|]. unfold with_world. cbn [world]. simpl.
    by rewrite <-app_assoc.
Qed.

(** One iteration of the asynchronous loop, by what it calls. *)
Lemma async_step_due v index (fr : frame async_locals) r fr' :
  async_step v index fr r fr' ->
  is_Some (JsObject.get index (ValidationFailures (this fr))) ->
  is_Some (JsObject.get index (Validators (this fr))) ->
  match due_at true (world fr) (this fr) v index with
  | None => r = Normal tt /\ trace (world fr') = trace (world fr)
  | Some ref =>
      match isAcceptable (heap (world fr) ref) v with
      | Returns (RPromise _) => r = Normal tt /\ trace (world fr') = trace (world fr) ++ [EvCall ref v]
      | other =>
          let e := match other with Throws x => Thrown x | _ => TypeError end in
          r = Abrupt e /\
          trace (world fr')
          = trace (world fr) ++ [EvCall ref v; check_log (tagName (heap (world fr) ref)) e]
      end
  end.
Proof.
  intros Hstep [failure0 Hf0] [ref0 Hv0]. unfold due_at, exempt.
  destruct Hstep as [Hf|failure Hf Has|failure Hf Has Hnv|failure ref Hf Has Hv Hab
                     |failure ref p Hf Has Hv Hab Hacc|failure ref e Hf Has Hv Hab Hacc];
    try congruence; rewrite Hf, ?Hv, ?Hv0, ?Has, ?Hab; cbn [bool_decide andb negb].
  - rewrite bool_decide_eq_false_2 by done. done.
  - by rewrite bool_decide_eq_true_2.
  - rewrite bool_decide_eq_true_2 by done. cbn [andb]. by rewrite Hacc.
  - rewrite bool_decide_eq_true_2 by done. cbn [andb].
    destruct (isAcceptable (heap (world fr) ref) v) as [[b|p]|x]; try done; subst e;
      (split; [done|]); unfold with_locals, with_world; cbn [world]; simpl;
      by rewrite <-app_assoc.
Qed.

Lemma ValidateEx_loop_calls v (fr0 : frame sync_locals) (keys : list string) :
  (forall index, index ∈ keys ->
     is_Some (JsObject.get index (ValidationFailures (this fr0))) /\
     is_Some (JsObject.get index (Validators (this fr0)))) ->
  (forall ref, ref ∈ omap (due_at false (world fr0) (this fr0) v) keys ->
     forall e, isAcceptable (heap (world fr0) ref) v ≠ Throws e) ->
  forall fr, rule_kept fr0 fr -> lastPriority (locals fr) = 0%Z ->
  (for_each keys (ValidateEx_body v) fr).1 = Normal tt /\
  trace (world (for_each keys (ValidateEx_body v) fr).2)
  = trace (world fr)
    ++ ((fun ref => EvCall ref v) <$> omap (due_at false (world fr0) (this fr0) v) keys).
Proof.
  induction keys as [|k keys IH]; intros Hslots Hquiet fr Hk Hl.
  { simpl. by rewrite app_nil_r. }
  cbn [for_each omap list_omap]. unfold bind.
  pose proof (ValidateEx_body_step v k fr Hl) as Hstep.
  destruct (sync_step_kept _ _ _ _ _ Hl Hstep) as [Hk1 Hl1].
  destruct (Hslots k (list_elem_of_here _ _)) as [[failure Hf] Hv].
  destruct (kept_slot _ _ _ _ Hk Hf) as (failure' & Hf' & _).
  rewrite <-(kept_Validators _ _ Hk) in Hv.
  destruct (sync_step_due _ _ _ _ _ Hstep (mk_is_Some _ _ Hf') Hv) as [_ Hdue].
  rewrite (due_at_kept false v fr0 fr k Hk) in Hdue.
  destruct (ValidateEx_body v k fr) as [r fr1]. cbn [fst snd] in *.
  assert (forall ref, ref ∈ omap (due_at false (world fr0) (this fr0) v) keys ->
            forall e, isAcceptable (heap (world fr0) ref) v ≠ Throws e) as Hquiet'.
  { intros ref Hin. apply Hquiet. cbn [omap list_omap].
    destruct (due_at false (world fr0) (this fr0) v k); [by apply list_elem_of_further|done]. }
  assert (forall index, index ∈ keys ->
            is_Some (JsObject.get index (ValidationFailures (this fr0))) /\
            is_Some (JsObject.get index (Validators (this fr0)))) as Hslots'.
  { intros index Hin. apply Hslots. by apply list_elem_of_further. }
  specialize (IH Hslots' Hquiet' fr1 (rule_kept_trans _ _ _ Hk Hk1) Hl1).
  destruct (due_at false (world fr0) (this fr0) v k) as [ref|] eqn:Hd.
  - destruct (kept_validators _ _ Hk ref) as (_ & _ & Hacc & _). rewrite Hacc in Hdue.
    destruct (isAcceptable (heap (world fr0) ref) v) as [ret|e] eqn:Ha.
    + destruct Hdue as [-> Ht]. destruct IH as [-> ->]. split; [done|].
      rewrite Ht, <-app_assoc. done.
    + destruct (Hquiet ref) with e; [|done]. cbn [omap list_omap]. rewrite Hd.
      apply list_elem_of_here.
  - destruct Hdue as [-> Ht]. destruct IH as [-> ->]. split; [done|]. by rewrite Ht.
Qed.

Lemma ValidateAsyncEx_loop_calls v (fr0 : frame async_locals) (keys : list string) :
  (forall index, index ∈ keys ->
     is_Some (JsObject.get index (ValidationFailures (this fr0))) /\
     is_Some (JsObject.get index (Validators (this fr0)))) ->
  (forall ref, ref ∈ omap (due_at true (world fr0) (this fr0) v) keys ->
     exists p, isAcceptable (heap (world fr0) ref) v = Returns (RPromise p)) ->
  forall fr, rule_kept fr0 fr ->
  (for_each keys (ValidateAsyncEx_body v) fr).1 = Normal tt /\
  trace (world (for_each keys (ValidateAsyncEx_body v) fr).2)
  = trace (world fr)
    ++ ((fun ref => EvCall ref v) <$> omap (due_at true (world fr0) (this fr0) v) keys).
Proof.
  induction keys as [|k keys IH]; intros Hslots Hquiet fr Hk.
  { simpl. by rewrite app_nil_r. }
  cbn [for_each omap list_omap]. unfold bind.
  pose proof (ValidateAsyncEx_body_step v k fr) as Hstep.
  destruct (async_step_kept _ _ _ _ _ Hstep) as [Hk1 _].
  destruct (Hslots k (list_elem_of_here _ _)) as [[failure Hf] Hv].
  destruct (kept_slot _ _ _ _ Hk Hf) as (failure' & Hf' & _).
  rewrite <-(kept_Validators _ _ Hk) in Hv.
  pose proof (async_step_due _ _ _ _ _ Hstep (mk_is_Some _ _ Hf') Hv) as Hdue.
  rewrite (due_at_kept true v fr0 fr k Hk) in Hdue.
  destruct (ValidateAsyncEx_body v k fr) as [r fr1]. cbn [fst snd] in *.
  assert (forall ref, ref ∈ omap (due_at true (world fr0) (this fr0) v) keys ->
            exists p, isAcceptable (heap (world fr0) ref) v = Returns (RPromise p)) as Hquiet'.
  { intros ref Hin. apply Hquiet. cbn [omap list_omap].
    destruct (due_at true (world fr0) (this fr0) v k); [by apply list_elem_of_further|done]. }
  assert (forall index, index ∈ keys ->
            is_Some (JsObject.get index (ValidationFailures (this fr0))) /\
            is_Some (JsObject.get index (Validators (this fr0)))) as Hslots'.
  { intros index Hin. apply Hslots. by apply list_elem_of_further. }
  specialize (IH Hslots' Hquiet' fr1 (rule_kept_trans _ _ _ Hk Hk1)).
  destruct (due_at true (world fr0) (this fr0) v k) as [ref|] eqn:Hd.
  - destruct (kept_validators _ _ Hk ref) as (_ & _ & Hacc & _). rewrite Hacc in Hdue.
    destruct (Hquiet ref) as [p Hp].
    { cbn [omap list_omap]. rewrite Hd. apply list_elem_of_here. }
    rewrite Hp in Hdue. destruct Hdue as [-> Ht]. destruct IH as [-> ->]. split; [done|].
    rewrite Ht, <-app_assoc. done.
  - destruct Hdue as [-> Ht]. destruct IH as [-> ->]. split; [done|]. by rewrite Ht.
Qed.

Lemma rule_wf_slots w rule index :
  rule_wf w rule -> index ∈ JsObject.keys (ValidationFailures rule) ->
  is_Some (JsObject.get index (ValidationFailures rule)) /\
  is_Some (JsObject.get index (Validators rule)).
Proof.
  intros Hwf [failure Hf]%keys_get_Some. split; [eauto|].
  destruct (rule_wf_failure _ _ _ _ Hwf Hf) as (ref & Hv & _). eauto.
Qed.

Lemma due_at_tag async w rule v index ref :
  rule_wf w rule -> due_at async w rule v index = Some ref -> tagName (heap w ref) = index.
Proof.
  intros Hwf. unfold due_at.
  destruct (JsObject.get index (ValidationFailures rule)) as [failure|] eqn:Hf; [|done].
  destruct (JsObject.get index (Validators rule)) as [ref'|] eqn:Hv; [|done].
  destruct (_ && _); [|done]. intros [= <-].
  by destruct (rule_wf_validator _ _ _ _ Hwf Hv).
Qed.

Lemma due_NoDup async w rule v (keys : list string) :
  rule_wf w rule -> NoDup keys -> NoDup (omap (due_at async w rule v) keys).
Proof.
  intros Hwf. induction 1 as [|k keys Hk _ IH]; [apply NoDup_nil_2|].
  cbn [omap list_omap]. destruct (due_at async w rule v k) as [ref|] eqn:Hd; [|done].
  apply NoDup_cons. split; [|done].
  intros (k' & Hk' & Hd')%list_elem_of_omap.
  apply (due_at_tag _ _ _ _ _ _ Hwf) in Hd, Hd'. congruence.
Qed.

(** X9. The calls of a pass. A synchronous pass in which no check throws
    calls [isAcceptable] on the value once for each synchronous validator
    the absent-value rule does not exempt, in the order the slots are
    enumerated, and does nothing else to the outside; an asynchronous pass
    in which every check returns a promise does the same for the
    asynchronous validators. No validator is called by both passes, and
    (the keys of the slots being distinct) none is called twice by one. *)
Theorem pass_calls_each_due_validator_once
    (sched : schedule) (w : World) (rule : t) (v : value) :
  rule_wf w rule ->
  ((forall ref, ref ∈ due false w rule v -> forall e, isAcceptable (heap w ref) v ≠ Throws e) ->
   trace (world (ValidateEx v (mkFrame rule w tt)).2)
   = trace w ++ ((fun ref => EvCall ref v) <$> due false w rule v)) /\
  ((forall ref, ref ∈ due true w rule v ->
      exists p, isAcceptable (heap w ref) v = Returns (RPromise p)) ->
   trace (world (ValidateAsyncEx sched v (mkFrame rule w tt)).2)
   = trace w ++ ((fun ref => EvCall ref v) <$> due true w rule v)) /\
  (forall ref, ref ∈ due false w rule v -> ref ∉ due true w rule v) /\
  (NoDup (JsObject.keys (ValidationFailures rule)) ->
   NoDup (due false w rule v) /\ NoDup (due true w rule v)).
Proof.
  intros Hwf. split; [|split; [|split]]; [intros Hquiet|intros Hquiet| |].
  3:{ intros ref (k & Hk & Hd)%list_elem_of_omap (k' & Hk' & Hd')%list_elem_of_omap.
      pose proof (due_at_tag _ _ _ _ _ _ Hwf Hd) as Ht.
      pose proof (due_at_tag _ _ _ _ _ _ Hwf Hd') as Ht'.
      assert (k' = k) as -> by congruence. unfold due_at in Hd, Hd'.
      destruct (JsObject.get k (ValidationFailures rule)) as [failure|]; [|done].
      destruct (JsObject.get k (Validators rule)); [|done].
      destruct (Err.IsAsync failure); cbn in Hd, Hd'; done. }
  3:{ intros Hnd. split; by apply due_NoDup. }
  - rewrite ValidateEx_unfold. cbn zeta. cbn [snd world this].
    unfold ValidateEx_loop, bind, gets. cbn [this].
    set (fr0 := mkFrame rule w sync_init).
    destruct (ValidateEx_loop_calls v fr0 (JsObject.keys (ValidationFailures rule)))
      with (fr := fr0) as [_ Ht]; try done.
    + intros index Hin. by apply (rule_wf_slots w).
    + apply rule_kept_refl.
  - rewrite ValidateAsyncEx_unfold. cbn zeta. cbn [snd world this].
    set (fr0 := mkFrame rule w async_init).
    destruct (settle_spec sched v (ValidateAsyncEx_loop v fr0).2) as (_ & -> & _).
    unfold ValidateAsyncEx_loop, bind, gets. cbn [this fr0].
    destruct (ValidateAsyncEx_loop_calls v fr0 (JsObject.keys (ValidationFailures rule)))
      with (fr := fr0) as [_ Ht]; try done.
    + intros index Hin. by apply (rule_wf_slots w).
    + apply rule_kept_refl.
Qed.

(** Witness for X9: the rule with the asynchronous [contains] and
    [required], on a value [required] accepts. *)
Lemma pass_calls_each_due_validator_once_witness :
  trace (world (ValidateEx (VStr "C") (mkFrame Fixtures.code_rule Fixtures.world tt)).2)
  = [EvCall 0 (VStr "C")] /\
  trace (world (ValidateAsyncEx in_order (VStr "C")
                  (mkFrame Fixtures.code_rule Fixtures.world tt)).2)
  = [EvCall 2 (VStr "C")].
Proof.
  destruct (pass_calls_each_due_validator_once in_order Fixtures.world Fixtures.code_rule
              (VStr "C") (new_wf _ _ _)) as (Hsync & Hasync & _).
  split.
  - apply Hsync. intros ref Hin e. vm_compute in Hin.
    apply list_elem_of_singleton in Hin as ->. done.
  - apply Hasync. intros ref Hin. vm_compute in Hin.
    apply list_elem_of_singleton in Hin as ->. by eexists.
Defined.

(** ** A check that throws *)

Lemma due_at_Some async w rule v index ref :
  due_at async w rule v index = Some ref ->
  exists failure, JsObject.get index (ValidationFailures rule) = Some failure /\
                  Err.IsAsync failure = async /\
                  JsObject.get index (Validators rule) = Some ref /\
                  exempt w ref v = false.
Proof.
  unfold due_at.
  destruct (JsObject.get index (ValidationFailures rule)) as [failure|]; [|done].
  destruct (JsObject.get index (Validators rule)) as [ref'|]; [|done].
  destruct (bool_decide _) eqn:Hb; [|done]. apply bool_decide_eq_true_1 in Hb.
  destruct (exempt w ref' v) eqn:He; [done|]. intros [= <-]. exists failure.
  repeat split; done.
Qed.

Lemma ValidateEx_loop_throw v (fr0 : frame sync_locals) k ref e (after before : list string) :
  due_at false (world fr0) (this fr0) v k = Some ref ->
  isAcceptable (heap (world fr0) ref) v = Throws e ->
  (forall index, index ∈ before ->
     is_Some (JsObject.get index (ValidationFailures (this fr0))) /\
     is_Some (JsObject.get index (Validators (this fr0)))) ->
  (forall ref', ref' ∈ omap (due_at false (world fr0) (this fr0) v) before ->
     forall e', isAcceptable (heap (world fr0) ref') v ≠ Throws e') ->
  forall fr, rule_kept fr0 fr -> lastPriority (locals fr) = 0%Z ->
  let run := for_each (before ++ k :: after) (ValidateEx_body v) fr in
  run.1 = Abrupt (Thrown e) /\
  trace (world run.2)
  = trace (world fr)
    ++ ((fun ref => EvCall ref v) <$> omap (due_at false (world fr0) (this fr0) v) before)
    ++ [EvCall ref v; check_log (tagName (heap (world fr0) ref)) (Thrown e)] /\
  (forall index, index ∉ before ->
     JsObject.get index (ValidationFailures (this run.2))
     = JsObject.get index (ValidationFailures (this fr))).
Proof.
  intros Hdk Hthrow. induction before as [|b before IH]; intros Hslots Hquiet fr Hk Hl; cbn zeta.
  - cbn [app for_each omap list_omap fmap list_fmap]. unfold bind.
    pose proof (ValidateEx_body_step v k fr Hl) as Hstep.
    destruct (due_at_Some _ _ _ _ _ _ Hdk) as (failure & Hf & _ & Hv & _).
    destruct (kept_slot _ _ _ _ Hk Hf) as (failure' & Hf' & _).
    rewrite <-(kept_Validators _ _ Hk) in Hv.
    destruct (sync_step_due _ _ _ _ _ Hstep (mk_is_Some _ _ Hf') (mk_is_Some _ _ Hv))
      as [_ Hdue].
    rewrite (due_at_kept false v fr0 fr k Hk), Hdk in Hdue.
    destruct (kept_validators _ _ Hk ref) as (Htag & _ & Hacc & _).
    rewrite Hacc, Hthrow, Htag in Hdue. destruct Hdue as (Hr & Hthis & Htrace).
    destruct (ValidateEx_body v k fr) as [r fr1]. cbn [fst snd] in *. subst r.
    cbn [fst snd]. split; [done|]. split; [done|]. intros index _. by rewrite Hthis.
  - cbn [app for_each omap list_omap]. unfold bind.
    pose proof (ValidateEx_body_step v b fr Hl) as Hstep.
    destruct (sync_step_kept _ _ _ _ _ Hl Hstep) as [Hk1 Hl1].
    destruct (Hslots b (list_elem_of_here _ _)) as [[failure Hf] Hv].
    destruct (kept_slot _ _ _ _ Hk Hf) as (failure' & Hf' & _).
    rewrite <-(kept_Validators _ _ Hk) in Hv.
    destruct (sync_step_due _ _ _ _ _ Hstep (mk_is_Some _ _ Hf') Hv) as [Hother Hdue].
    rewrite (due_at_kept false v fr0 fr b Hk) in Hdue.
    destruct (ValidateEx_body v b fr) as [r fr1]. cbn [fst snd] in *.
    assert (forall ref', ref' ∈ omap (due_at false (world fr0) (this fr0) v) before ->
              forall e', isAcceptable (heap (world fr0) ref') v ≠ Throws e') as Hquiet'.
    { intros ref' Hin. apply Hquiet. cbn [omap list_omap].
      destruct (due_at false (world fr0) (this fr0) v b); [by apply list_elem_of_further|done]. }
    assert (forall index, index ∈ before ->
              is_Some (JsObject.get index (ValidationFailures (this fr0))) /\
              is_Some (JsObject.get index (Validators (this fr0)))) as Hslots'.
    { intros index Hin. apply Hslots. by apply list_elem_of_further. }
    specialize (IH Hslots' Hquiet' fr1 (rule_kept_trans _ _ _ Hk Hk1) Hl1). cbn zeta in IH.
    destruct IH as (Hres & Htrace & Hkeep).
    assert (r = Normal tt /\
            trace (world fr1)
            = trace (world fr)
              ++ ((fun ref => EvCall ref v)
                    <$> from_option (fun ref' => [ref']) []
                          (due_at false (world fr0) (this fr0) v b))) as [-> Ht1].
    { destruct (due_at false (world fr0) (this fr0) v b) as [ref'|] eqn:Hd.
      - destruct (kept_validators _ _ Hk ref') as (_ & _ & Hacc & _). rewrite Hacc in Hdue.
        destruct (isAcceptable (heap (world fr0) ref') v) as [ret|e'] eqn:Ha; [done|].
        destruct (Hquiet ref') with e'; [|done]. cbn [omap list_omap]. rewrite Hd.
        apply list_elem_of_here.
      - destruct Hdue as [-> ->]. split; [done|]. simpl. by rewrite app_nil_r. }
    split; [done|]. split.
    + rewrite Htrace, Ht1.
      destruct (due_at false (world fr0) (this fr0) v b); simpl;
        rewrite <-?app_assoc; simpl; by rewrite ?app_nil_r.
    + intros index Hnin. rewrite Hkeep.
      * apply Hother. intros ->. apply Hnin, list_elem_of_here.
      * intros Hin. apply Hnin. by apply list_elem_of_further.
Qed.

(** X6. A check that throws ends the synchronous pass. When the validator
    of the slot [k] throws on the value and no validator of the slots
    enumerated before it does, [ValidateEx] ends with the exception; it
    has called the validators due before [k] and the one of [k], logged
    the exception with the tag of the validator, and left the slot of [k]
    and the slots enumerated after it as they were. [Validate] logs the
    exception a second time, with the key of the property, and throws it
    again. *)
Theorem throwing_check_ends_the_pass
    (w : World) (rule : t) (v : value) (before after : list string) (k : string)
    (ref : nat) (e : value) (key : string) (data : value) :
  rule_wf w rule ->
  JsObject.keys (ValidationFailures rule) = before ++ k :: after ->
  (forall ref', ref' ∈ omap (due_at false w rule v) before ->
     forall e', isAcceptable (heap w ref') v ≠ Throws e') ->
  due_at false w rule v k = Some ref ->
  isAcceptable (heap w ref) v = Throws e ->
  getProp data key = Normal v ->
  let run := ValidateEx v (mkFrame rule w tt) in
  let outer := Validate (ValidationContext.mk key data) (mkFrame rule w tt) in
  run.1 = Abrupt (Thrown e) /\
  trace (world run.2)
  = trace w ++ ((fun ref => EvCall ref v) <$> omap (due_at false w rule v) before)
      ++ [EvCall ref v; check_log k (Thrown e)] /\
  (forall index, index ∉ before ->
     JsObject.get index (ValidationFailures (this run.2))
     = JsObject.get index (ValidationFailures rule)) /\
  outer.1 = Abrupt (Thrown e) /\
  this outer.2 = this run.2 /\
  trace (world outer.2) = trace (world run.2) ++ [element_log key (Thrown e)].
Proof.
  intros Hwf Hkeys Hquiet Hdk Hthrow Hvalue. cbn zeta.
  assert (let run := ValidateEx v (mkFrame rule w tt) in
          run.1 = Abrupt (Thrown e) /\
          trace (world run.2)
          = trace w ++ ((fun ref => EvCall ref v) <$> omap (due_at false w rule v) before)
              ++ [EvCall ref v; check_log k (Thrown e)] /\
          (forall index, index ∉ before ->
             JsObject.get index (ValidationFailures (this run.2))
             = JsObject.get index (ValidationFailures rule))) as Hrun.
  { cbn zeta. rewrite ValidateEx_unfold. cbn zeta. cbn [fst snd this world].
    unfold ValidateEx_loop, bind, gets. cbn [this].
    set (fr0 := mkFrame rule w sync_init).
    pose proof (ValidateEx_loop_throw v fr0 k ref e after before) as Hloop.
    cbn zeta in Hloop. rewrite <-Hkeys in Hloop.
    destruct Hloop with (fr := fr0) as (Hres & Htrace & Hkeep); try done.
    - intros index Hin. apply (rule_wf_slots w); [done|]. cbn [fr0 this]. rewrite Hkeys.
      apply elem_of_app. by left.
    - apply rule_kept_refl.
    - rewrite Hres. split; [done|]. split; [|done].
      rewrite Htrace. cbn [fr0 world]. by rewrite (due_at_tag _ _ _ _ _ _ Hwf Hdk). }
  cbn zeta in Hrun. destruct Hrun as (Hres & Htrace & Hkeep).
  split; [done|]. split; [done|]. split; [done|].
  unfold Validate, try_catch, bind, lift, ValidationContext.Value.
  cbn [ValidationContext.Data ValidationContext.Key]. rewrite Hvalue.
  destruct (ValidateEx v (mkFrame rule w tt)) as [r s1]. cbn [fst snd] in *. subst r.
  done.
Qed.

(** Witness for X6: the rule with [required] before the validator whose
    check throws. *)
Lemma throwing_check_ends_the_pass_witness :
  let data := VObj [("Note", VStr "")] in
  let run := ValidateEx (VStr "") (mkFrame Fixtures.faulty_rule Fixtures.world tt) in
  let outer := Validate (ValidationContext.mk "Note" data)
                 (mkFrame Fixtures.faulty_rule Fixtures.world tt) in
  run.1 = Abrupt (Thrown (VStr "fault")) /\
  trace (world run.2)
  = trace Fixtures.world
      ++ ((fun ref => EvCall ref (VStr ""))
            <$> omap (due_at false Fixtures.world Fixtures.faulty_rule (VStr "")) ["required"])
      ++ [EvCall 4 (VStr ""); check_log "custom" (Thrown (VStr "fault"))] /\
  (forall index, index ∉ ["required"] ->
     JsObject.get index (ValidationFailures (this run.2))
     = JsObject.get index (ValidationFailures Fixtures.faulty_rule)) /\
  outer.1 = Abrupt (Thrown (VStr "fault")) /\
  this outer.2 = this run.2 /\
  trace (world outer.2) = trace (world run.2) ++ [element_log "Note" (Thrown (VStr "fault"))].
Proof.
  apply (throwing_check_ends_the_pass Fixtures.world Fixtures.faulty_rule (VStr "")
           ["required"] [] "custom" 4 (VStr "fault") "Note" (VObj [("Note", VStr "")])).
  - apply new_wf.
  - reflexivity.
  - intros ref' Hin e'. vm_compute in Hin. apply list_elem_of_singleton in Hin as ->. done.
  - reflexivity.
  - reflexivity.
  - reflexivity.
Defined.

(** ** What a synchronous pass leaves behind *)

Lemma obj_ext {A : Type} (o o' : obj A) :
  JsObject.keys o = JsObject.keys o' -> NoDup (JsObject.keys o) ->
  (forall k, JsObject.get k o = JsObject.get k o') -> o = o'.
Proof.
  revert o'. induction o as [|[k x] o IH]; intros [|[k' x'] o'] Hkeys Hnd Hget; try done.
  cbn in Hkeys. injection Hkeys as <- Hkeys. apply NoDup_cons in Hnd as [Hk Hnd].
  pose proof (Hget k) as Hx. cbn in Hx. rewrite !decide_True in Hx by done.
  injection Hx as <-. f_equal. apply IH; [done..|].
  intros k0. destruct (decide (k = k0)) as [<-|Hne].
  - rewrite (proj2 (get_None_keys k o)) by done.
    rewrite (proj2 (get_None_keys k o')); [done|]. unfold JsObject.keys in *. by rewrite <-Hkeys.
  - specialize (Hget k0). cbn in Hget. by rewrite !decide_False in Hget by done.
Qed.

Lemma extend_twice w w0 ref v :
  heap w ref = heap (extend_AttemptedValue ref v w0) ref ->
  heap (extend_AttemptedValue ref v w) ref = heap (extend_AttemptedValue ref v w0) ref.
Proof.
  cbn. rewrite !decide_True by done. intros ->. cbn. by rewrite set_set.
Qed.

Lemma recorded_twice w w0 ref v b failure failure' :
  Err.IsAsync failure' = Err.IsAsync failure ->
  heap w ref = heap w0 ref \/ heap w ref = heap (extend_AttemptedValue ref v w0) ref ->
  recorded ref v b w failure' = recorded ref v b w0 failure.
Proof.
  intros Ha Hheap. unfold recorded. rewrite Ha.
  assert (heap (extend_AttemptedValue ref v w) ref = heap (extend_AttemptedValue ref v w0) ref)
    as ->.
  { destruct Hheap as [Hsame|Hext]; [|by apply extend_twice].
    cbn. rewrite !decide_True by done. by rewrite Hsame. }
  assert (tagName (heap w ref) = tagName (heap w0 ref)) as ->; [|done].
  destruct Hheap as [->| ->]; [done|]. cbn. by rewrite decide_True.
Qed.

(** One iteration of the synchronous loop, by what it leaves. *)
Lemma sync_step_effect v index (fr : frame sync_locals) r fr' :
  sync_step v index fr r fr' ->
  (heap (world fr') = heap (world fr) /\ this fr' = this fr /\
   (r = Normal tt ->
    Err.IsAsync <$> JsObject.get index (ValidationFailures (this fr)) = Some true)) \/
  (exists failure ref,
     JsObject.get index (ValidationFailures (this fr)) = Some failure /\
     Err.IsAsync failure = false /\
     JsObject.get index (Validators (this fr)) = Some ref /\
     r = Normal tt /\
     heap (world fr') = heap (extend_AttemptedValue ref v (world fr)) /\
     JsObject.get index (ValidationFailures (this fr'))
     = Some (recorded ref v (hasError_of (heap (world fr) ref) v) (world fr) failure) /\
     forall k, k ≠ index ->
       JsObject.get k (ValidationFailures (this fr'))
       = JsObject.get k (ValidationFailures (this fr))).
Proof.
  destruct 1 as [Hf|failure Hf Has|failure Hf Has Hnv|failure ref Hf Has Hv Hab
                 |failure ref ret Hf Has Hv Hab Hacc|failure ref e Hf Has Hv Hab Hacc].
  - left. done.
  - left. rewrite Hf. cbn. by rewrite Has.
  - left. done.
  - right. exists failure, ref. repeat (split; [done|]).
    unfold with_locals. cbn [world this]. split.
    + rewrite record_outcome_get_eq, Hf. cbn. unfold hasError_of. by rewrite Hab.
    + intros k Hne. by apply record_outcome_get_ne.
  - right. exists failure, ref. repeat (split; [done|]).
    unfold with_locals. cbn [world this]. split.
    + rewrite record_outcome_get_eq. unfold with_world. cbn [this world]. by rewrite Hf.
    + intros k Hne. by rewrite record_outcome_get_ne.
  - left. done.
Qed.

Lemma ValidateEx_loop_effects v (fr0 : frame sync_locals) :
  lastPriority (locals fr0) = 0%Z ->
  let changed fr :=
    forall ref,
      heap (world fr) ref = heap (world fr0) ref \/
      heap (world fr) ref = heap (extend_AttemptedValue ref v (world fr0)) ref /\
      exists index failure,
        JsObject.get index (Validators (this fr0)) = Some ref /\
        JsObject.get index (ValidationFailures (this fr0)) = Some failure /\
        Err.IsAsync failure = false in
  let run := ValidateEx_loop v fr0 in
  changed run.2 /\
  (forall index failure,
     JsObject.get index (ValidationFailures (this fr0)) = Some failure ->
     Err.IsAsync failure = true ->
     JsObject.get index (ValidationFailures (this run.2)) = Some failure) /\
  (run.1 = Normal tt ->
   forall index ref failure,
     JsObject.get index (Validators (this fr0)) = Some ref ->
     JsObject.get index (ValidationFailures (this fr0)) = Some failure ->
     Err.IsAsync failure = false ->
     JsObject.get index (ValidationFailures (this run.2))
     = Some (recorded ref v (hasError_of (heap (world fr0) ref) v) (world fr0) failure) /\
     heap (world run.2) ref = heap (extend_AttemptedValue ref v (world fr0)) ref).
Proof.
  intros Hl0 changed. cbn zeta. unfold ValidateEx_loop, bind, gets. cbn beta.
  set (keys := JsObject.keys (ValidationFailures (this fr0))).
  set (I := fun fr : frame sync_locals =>
              rule_kept fr0 fr /\ lastPriority (locals fr) = 0%Z /\ changed fr).
  assert (I fr0) as HI0.
  { split; [apply rule_kept_refl|]. split; [done|]. intros ref. by left. }
  assert (forall y fr, I fr -> I (ValidateEx_body v y fr).2) as HI.
  { intros y fr (Hk & Hl & Hch).
    pose proof (ValidateEx_body_step v y fr Hl) as Hstep.
    destruct (sync_step_kept _ _ _ _ _ Hl Hstep) as [Hk1 Hl1].
    split; [by eapply rule_kept_trans|]. split; [done|]. intros ref.
    destruct (sync_step_effect _ _ _ _ _ Hstep)
      as [(Hheap & _)|(failure & ref' & Hf & Ha & Hv & _ & Hheap & _)]; rewrite Hheap.
    - apply Hch.
    - destruct (decide (ref = ref')) as [->|Hne].
      + right. split.
        * destruct (Hch ref') as [Hsame|[Hext _]]; [|by apply extend_twice].
          cbn. rewrite !decide_True by done. by rewrite Hsame.
        * pose proof (kept_IsAsync _ _ Hk y) as Has. rewrite Hf in Has. cbn in Has.
          destruct (JsObject.get y (ValidationFailures (this fr0))) as [failure0|] eqn:Hf0;
            [|done].
          exists y, failure0. rewrite <-(kept_Validators _ _ Hk). split; [done|].
          split; [done|]. injection Has as Has. congruence.
      + cbn. rewrite decide_False by done. apply Hch. }
  split; [|split].
  - apply (for_each_inv I); [|done]. intros y fr _. apply HI.
  - intros index failure Hf Ha.
    apply (for_each_inv (fun fr => I fr /\
             JsObject.get index (ValidationFailures (this fr)) = Some failure)); [|done].
    intros y fr _ [(Hk & Hl & Hch) Hsame]. split; [by apply HI|].
    pose proof (ValidateEx_body_step v y fr Hl) as Hstep.
    destruct (sync_step_effect _ _ _ _ _ Hstep)
      as [(_ & -> & _)|(failure' & ref' & Hf' & Ha' & _ & _ & _ & _ & Hother)]; [done|].
    rewrite Hother; [done|]. intros ->. congruence.
  - intros Hnorm index ref failure Hv Hf Ha.
    apply (for_each_establish I
             (fun fr =>
                JsObject.get index (ValidationFailures (this fr))
                = Some (recorded ref v (hasError_of (heap (world fr0) ref) v) (world fr0) failure) /\
                heap (world fr) ref = heap (extend_AttemptedValue ref v (world fr0)) ref)
             keys _ index); try done.
    + by eapply get_Some_keys.
    + intros fr (Hk & Hl & Hch) Hn.
      pose proof (ValidateEx_body_step v index fr Hl) as Hstep.
      destruct (kept_slot _ _ _ _ Hk Hf) as (failure' & Hf' & Ha').
      destruct (sync_step_effect _ _ _ _ _ Hstep)
        as [(_ & _ & Hasync)|(failure1 & ref1 & Hf1 & _ & Hv1 & _ & Hheap & Hslot & _)].
      { specialize (Hasync Hn). rewrite Hf' in Hasync. cbn in Hasync. congruence. }
      rewrite (kept_Validators _ _ Hk), Hv in Hv1. injection Hv1 as <-.
      rewrite Hf' in Hf1. injection Hf1 as <-.
      assert (heap (world fr) ref = heap (world fr0) ref \/
              heap (world fr) ref = heap (extend_AttemptedValue ref v (world fr0)) ref) as Hheap0.
      { destruct (Hch ref) as [?|[? _]]; auto. }
      split.
      * rewrite Hslot, (hasError_of_kept _ _ _ _ (kept_validators _ _ Hk)).
        f_equal. by apply recorded_twice.
      * rewrite Hheap. destruct Hheap0 as [Hsame|Hext]; [|by apply extend_twice].
        cbn. rewrite !decide_True by done. by rewrite Hsame.
    + intros y fr (Hk & Hl & Hch) [Hslot Hheap] Hn.
      pose proof (ValidateEx_body_step v y fr Hl) as Hstep.
      destruct (sync_step_effect _ _ _ _ _ Hstep)
        as [(Hh & Ht & _)|(failure1 & ref1 & Hf1 & _ & Hv1 & _ & Hh & Hslot1 & Hother)].
      { by rewrite Hh, Ht. }
      destruct (decide (y = index)) as [->|Hne].
      * rewrite (kept_Validators _ _ Hk), Hv in Hv1. injection Hv1 as <-.
        destruct (kept_slot _ _ _ _ Hk Hf) as (failure' & Hf' & Ha').
        rewrite Hf' in Hf1. injection Hf1 as <-. split.
        -- rewrite Hslot1, (hasError_of_kept _ _ _ _ (kept_validators _ _ Hk)).
           f_equal. apply recorded_twice; [done|]. by right.
        -- rewrite Hh. by apply extend_twice.
      * split; [by rewrite Hother|]. rewrite Hh.
        destruct (decide (ref = ref1)) as [<-|Hner]; [by apply extend_twice|].
        cbn. by rewrite decide_False.
Qed.

(** The slots and the validator instances after a synchronous pass. *)
Lemma ValidateEx_outcome (w : World) (rule : t) (v : value) :
  rule_wf w rule ->
  let run := ValidateEx v (mkFrame rule w tt) in
  ((forall ref, ref ∈ due false w rule v -> forall e, isAcceptable (heap w ref) v ≠ Throws e) ->
   forall index ref failure,
     JsObject.get index (Validators rule) = Some ref ->
     JsObject.get index (ValidationFailures rule) = Some failure ->
     Err.IsAsync failure = false ->
     JsObject.get index (ValidationFailures (this run.2))
     = Some (recorded ref v (hasError_of (heap w ref) v) w failure) /\
     heap (world run.2) ref = heap (extend_AttemptedValue ref v w) ref /\
     JsObject.get "AttemptedValue" (fields (heap (world run.2) ref)) = Some v) /\
  (forall index failure,
     JsObject.get index (ValidationFailures rule) = Some failure ->
     Err.IsAsync failure = true ->
     JsObject.get index (ValidationFailures (this run.2)) = Some failure) /\
  (forall ref,
     heap (world run.2) ref = heap w ref \/
     exists index failure,
       JsObject.get index (Validators rule) = Some ref /\
       JsObject.get index (ValidationFailures rule) = Some failure /\
       Err.IsAsync failure = false).
Proof.
  intros Hwf. cbn zeta. rewrite ValidateEx_unfold. cbn zeta. cbn [snd this world].
  set (fr0 := mkFrame rule w sync_init).
  destruct (ValidateEx_loop_effects v fr0 eq_refl) as (Hch & Hasync & Hsync). cbn zeta in *.
  split; [|split].
  - intros Hquiet index ref failure Hv Hf Ha.
    destruct (ValidateEx_loop_calls v fr0 (JsObject.keys (ValidationFailures rule)))
      with (fr := fr0) as [Hnorm _]; try done.
    { intros k Hin. by apply (rule_wf_slots w). }
    { apply rule_kept_refl. }
    destruct (Hsync Hnorm index ref failure Hv Hf Ha) as [Hslot Hheap].
    split; [done|]. split; [done|]. rewrite Hheap. cbn. rewrite decide_True by done.
    cbn. apply get_set_eq.
  - done.
  - intros ref. destruct (Hch ref) as [Hsame|[_ Hex]]; [by left|by right].
Qed.

(** X8. What a synchronous pass in which no check throws leaves behind.
    The slot of each synchronous validator holds the outcome that
    validator alone decides, the arguments naming it, and, when it failed,
    its localized message formatted with the fields of the validator and
    the attempted value; the validator instance itself has the value under
    [AttemptedValue], and is otherwise the same. The slots of the
    asynchronous validators are the very same as before, and every
    validator instance is as it was unless it is a synchronous validator of
    the rule. The last two hold however the pass ends. *)
Theorem sync_pass_outcome (w : World) (rule : t) (v : value) :
  rule_wf w rule ->
  let run := ValidateEx v (mkFrame rule w tt) in
  ((forall ref, ref ∈ due false w rule v -> forall e, isAcceptable (heap w ref) v ≠ Throws e) ->
   forall index ref failure,
     JsObject.get index (Validators rule) = Some ref ->
     JsObject.get index (ValidationFailures rule) = Some failure ->
     Err.IsAsync failure = false ->
     JsObject.get index (ValidationFailures (this run.2))
     = Some (recorded ref v (hasError_of (heap w ref) v) w failure) /\
     heap (world run.2) ref = heap (extend_AttemptedValue ref v w) ref /\
     JsObject.get "AttemptedValue" (fields (heap (world run.2) ref)) = Some v) /\
  (forall index failure,
     JsObject.get index (ValidationFailures rule) = Some failure ->
     Err.IsAsync failure = true ->
     JsObject.get index (ValidationFailures (this run.2)) = Some failure) /\
  (forall ref,
     heap (world run.2) ref = heap w ref \/
     exists index failure,
       JsObject.get index (Validators rule) = Some ref /\
       JsObject.get index (ValidationFailures rule) = Some failure /\
       Err.IsAsync failure = false).
Proof. apply ValidateEx_outcome. Qed.

(** Witness for X8: the rule with [maxlength] and [number] on a value both
    validators refuse; the slot and the instance of [maxlength]. *)
Lemma sync_pass_outcome_witness :
  let w := Fixtures.world in
  let v := VStr "abcdef" in
  let run := ValidateEx v (mkFrame Fixtures.size_rule w tt) in
  JsObject.get "maxlength" (ValidationFailures (this run.2))
  = Some (recorded 1 v (hasError_of (heap w 1) v) w (new_slot w 1)) /\
  heap (world run.2) 1 = heap (extend_AttemptedValue 1 v w) 1 /\
  JsObject.get "AttemptedValue" (fields (heap (world run.2) 1)) = Some v.
Proof.
  cbn zeta.
  destruct (sync_pass_outcome Fixtures.world Fixtures.size_rule (VStr "abcdef") (new_wf _ _ _))
    as (Hsync & _).
  apply Hsync; [|reflexivity..].
  intros ref Hin e. vm_compute in Hin.
  apply elem_of_cons in Hin as [->|Hin]; [done|].
  apply list_elem_of_singleton in Hin as ->. done.
Defined.

Lemma rule_wf_kept {L L' : Type} (fr : frame L) (fr' : frame L') :
  rule_kept fr fr' -> rule_wf (world fr) (this fr) -> rule_wf (world fr') (this fr').
Proof.
  intros Hk Hwf index. specialize (Hwf index).
  rewrite (kept_Validators _ _ Hk). pose proof (kept_IsAsync _ _ Hk index) as Ha.
  destruct (JsObject.get index (ValidationFailures (this fr'))) as [failure'|],
           (JsObject.get index (ValidationFailures (this fr))) as [failure|]; try done.
  destruct (JsObject.get index (Validators (this fr))) as [ref|]; [|done].
  destruct (kept_validators _ _ Hk ref) as (-> & -> & _). injection Ha as ->. done.
Qed.

Lemma due_kept {L L' : Type} async v (fr : frame L) (fr' : frame L') :
  rule_kept fr fr' ->
  due async (world fr') (this fr') v = due async (world fr) (this fr) v.
Proof.
  intros Hk. unfold due. rewrite (kept_keys _ _ Hk).
  induction (JsObject.keys (ValidationFailures (this fr))) as [|index keys IH]; [done|].
  cbn [omap list_omap]. by rewrite IH, (due_at_kept async v fr fr' index Hk).
Qed.

Lemma ValidateEx_quiet_normal w rule v :
  rule_wf w rule ->
  (forall ref, ref ∈ due false w rule v -> forall e, isAcceptable (heap w ref) v ≠ Throws e) ->
  (ValidateEx v (mkFrame rule w tt)).1
  = Normal (sync_failures (this (ValidateEx v (mkFrame rule w tt)).2)).
Proof.
  intros Hwf Hquiet. rewrite ValidateEx_unfold. cbn zeta. cbn [fst snd this world].
  set (fr0 := mkFrame rule w sync_init).
  unfold ValidateEx_loop at 1, bind, gets. cbn [this fr0].
  destruct (ValidateEx_loop_calls v fr0 (JsObject.keys (ValidationFailures rule)))
    with (fr := fr0) as [-> _]; try done.
  - intros k Hin. by apply (rule_wf_slots w).
  - apply rule_kept_refl.
Qed.

(** X10. A synchronous pass is idempotent: when no check throws, a second
    pass on the same value returns the same failures and leaves the rule
    and every validator instance as the first pass left them. *)
Theorem sync_pass_is_idempotent (w : World) (rule : t) (v : value) :
  rule_wf w rule ->
  NoDup (JsObject.keys (ValidationFailures rule)) ->
  (forall ref, ref ∈ due false w rule v -> forall e, isAcceptable (heap w ref) v ≠ Throws e) ->
  let once := ValidateEx v (mkFrame rule w tt) in
  let twice := ValidateEx v once.2 in
  twice.1 = once.1 /\
  this twice.2 = this once.2 /\
  (forall ref, heap (world twice.2) ref = heap (world once.2) ref).
Proof.
  intros Hwf Hnd Hquiet. cbn zeta.
  destruct (ValidateEx_kept v (mkFrame rule w tt)) as [Hk _].
  pose proof (ValidateEx_quiet_normal w rule v Hwf Hquiet) as Hn1.
  destruct (ValidateEx_outcome w rule v Hwf) as (Hsync1 & Hasync1 & Hch1).
  cbn zeta in *. specialize (Hsync1 Hquiet).
  destruct (ValidateEx v (mkFrame rule w tt)) as [r1 [rule1 w1 []]]. cbn [fst snd] in *.
  assert (rule_wf w1 rule1) as Hwf1 by apply (rule_wf_kept _ _ Hk Hwf).
  assert (forall ref, ref ∈ due false w1 rule1 v ->
            forall e, isAcceptable (heap w1 ref) v ≠ Throws e) as Hquiet1.
  { intros ref Hin. pose proof (due_kept false v _ _ Hk) as Hd. cbn [this world] in Hd.
    rewrite Hd in Hin.
    destruct (kept_validators _ _ Hk ref) as (_ & _ & Hacc & _). cbn [world] in Hacc.
    rewrite Hacc. by apply Hquiet. }
  destruct (ValidateEx_kept v (mkFrame rule1 w1 tt)) as [Hk2 _].
  pose proof (ValidateEx_quiet_normal w1 rule1 v Hwf1 Hquiet1) as Hn2.
  destruct (ValidateEx_outcome w1 rule1 v Hwf1) as (Hsync2 & Hasync2 & Hch2).
  cbn zeta in *. specialize (Hsync2 Hquiet1).
  destruct (ValidateEx v (mkFrame rule1 w1 tt)) as [r2 [rule2 w2 []]]. cbn [fst snd this world] in *.
  assert (rule2 = rule1) as ->.
  { pose proof (kept_Name _ _ Hk2) as H1. pose proof (kept_Optional _ _ Hk2) as H2.
    pose proof (kept_Validators _ _ Hk2) as H3. pose proof (kept_keys _ _ Hk2) as H4.
    pose proof (kept_keys _ _ Hk) as K4. cbn [this] in *.
    assert (ValidationFailures rule2 = ValidationFailures rule1) as H5.
    { apply obj_ext; [done| |].
      { by rewrite H4, K4. }
      intros k. destruct (JsObject.get k (ValidationFailures rule)) as [failure|] eqn:Hf.
      - destruct (rule_wf_failure _ _ _ _ Hwf Hf) as (ref & Hv & _ & _).
        destruct (Err.IsAsync failure) eqn:Ha.
        + rewrite (Hasync1 k failure Hf Ha). apply Hasync2; [by apply Hasync1|done].
        + destruct (Hsync1 k ref failure Hv Hf Ha) as (Hslot1 & Hheap1 & _).
          rewrite Hslot1.
          destruct (Hsync2 k ref _ (eq_trans (f_equal (JsObject.get k) (kept_Validators _ _ Hk)) Hv)
                      Hslot1 Ha) as (-> & _).
          f_equal. rewrite (hasError_of_kept _ _ _ _ (kept_validators _ _ Hk)).
          cbn [world]. apply recorded_twice; [done|]. by right.
      - assert (JsObject.get k (ValidationFailures rule1) = None) as ->.
        { apply get_None_keys. rewrite K4. by apply get_None_keys. }
        apply get_None_keys. rewrite H4, K4. by apply get_None_keys. }
    destruct rule2, rule1. cbn in *. by subst. }
  split; [congruence|]. split; [done|]. intros ref.
  destruct (Hch2 ref) as [Hsame|(index & failure1 & Hv1 & Hf1 & Ha1)]; [done|].
  destruct (Hsync2 index ref failure1 Hv1 Hf1 Ha1) as (_ & -> & _).
  pose proof (kept_Validators _ _ Hk) as HV. cbn [this] in HV. rewrite HV in Hv1.
  destruct (rule_wf_validator _ _ _ _ Hwf Hv1) as [_ Has].
  destruct (JsObject.get index (ValidationFailures rule)) as [failure|] eqn:Hf; [|done].
  pose proof (kept_IsAsync _ _ Hk index) as Hai. cbn [this] in Hai. rewrite Hf, Hf1 in Hai.
  injection Hai as Hai.
  destruct (Hsync1 index ref failure Hv1 Hf (eq_trans (eq_sym Hai) Ha1)) as (_ & Hheap1 & _).
  rewrite Hheap1. by apply extend_twice.
Qed.

(** Witness for X10: the rule with [maxlength] and [number] on a value both
    validators refuse. *)
Lemma sync_pass_is_idempotent_witness :
  let once := ValidateEx (VStr "abcdef") (mkFrame Fixtures.size_rule Fixtures.world tt) in
  let twice := ValidateEx (VStr "abcdef") once.2 in
  twice.1 = once.1 /\
  this twice.2 = this once.2 /\
  (forall ref, heap (world twice.2) ref = heap (world once.2) ref).
Proof.
  apply (sync_pass_is_idempotent Fixtures.world Fixtures.size_rule (VStr "abcdef")).
  - apply new_wf.
  - apply (bool_decide_unpack _). vm_compute. exact I.
  - intros ref Hin e. vm_compute in Hin.
    apply elem_of_cons in Hin as [->|Hin]; [done|].
    apply list_elem_of_singleton in Hin as ->. done.
Defined.

(** ** The asynchronous pass when its validator is enumerated last *)

Lemma ValidateAsyncEx_body_idle v k (fr : frame async_locals) failure :
  JsObject.get k (ValidationFailures (this fr)) = Some failure ->
  Err.IsAsync failure = false ->
  ValidateAsyncEx_body v k fr
  = (Normal tt,
     with_locals (fun l => mkAsync (Some k) (validator l) (promises l)) fr).
Proof.
  intros Hf Ha. pose proof (ValidateAsyncEx_body_step v k fr) as Hstep.
  destruct (ValidateAsyncEx_body v k fr) as [r fr1]. cbn [fst snd] in Hstep.
  inversion Hstep; subst; congruence.
Qed.

Lemma ValidateAsyncEx_body_last v k (fr : frame async_locals) failure ref b :
  JsObject.get k (ValidationFailures (this fr)) = Some failure ->
  Err.IsAsync failure = true ->
  JsObject.get k (Validators (this fr)) = Some ref ->
  (if exempt (world fr) ref v then b = true
   else isAcceptable (heap (world fr) ref) v = Returns (RPromise (Fulfils b))) ->
  ValidateAsyncEx_body v k fr
  = (Normal tt,
     mkFrame (this fr)
       (if exempt (world fr) ref v then world fr else emit (EvCall ref v) (world fr))
       (mkAsync (Some k) (Some ref) (promises (locals fr) ++ [Fulfils b]))).
Proof.
  intros Hf Ha Hv Hsettles. pose proof (ValidateAsyncEx_body_step v k fr) as Hstep.
  destruct (ValidateAsyncEx_body v k fr) as [r fr1]. cbn [fst snd] in Hstep.
  unfold exempt in *.
  destruct Hstep as [Hf'|failure' Hf' Has|failure' Hf' Has Hnv|failure' ref' Hf' Has Hv' Hab
                     |failure' ref' p Hf' Has Hv' Hab Hacc|failure' ref' e Hf' Has Hv' Hab Hacc];
    try congruence.
  - assert (ref' = ref) as -> by congruence. rewrite Hab in *. by subst b.
  - assert (ref' = ref) as -> by congruence. rewrite Hab in *.
    rewrite Hacc in Hsettles. by injection Hsettles as ->.
  - assert (ref' = ref) as -> by congruence. rewrite Hab in *.
    by rewrite Hsettles in Hacc.
Qed.

(** X7. The asynchronous pass on a rule whose one asynchronous validator
    is enumerated last, after the synchronous ones. The handler of its
    promise then writes to the slot of that validator: when the promise is
    fulfilled with [b] (or the absent-value rule exempts the validator,
    which counts as fulfilled with true), the slot holds [HasError = !b],
    the arguments naming the validator and its message, every other slot
    is as it was, and the promise returned is resolved. *)
Theorem async_pass_sound_when_async_validator_is_last
    (sched : schedule) (w : World) (rule : t) (v : value)
    (before : list string) (k : string) (ref : nat) (failure : Err.IValidationFailure)
    (b : bool) :
  (forall results, sched results ≡ₚ results) ->
  JsObject.keys (ValidationFailures rule) = before ++ [k] ->
  (forall index, index ∈ before ->
     Err.IsAsync <$> JsObject.get index (ValidationFailures rule) = Some false) ->
  JsObject.get k (Validators rule) = Some ref ->
  JsObject.get k (ValidationFailures rule) = Some failure ->
  Err.IsAsync failure = true ->
  (if exempt w ref v then b = true
   else isAcceptable (heap w ref) v = Returns (RPromise (Fulfils b))) ->
  let run := ValidateAsyncEx sched v (mkFrame rule w tt) in
  run.1 = Normal (Resolved (async_failures (this run.2))) /\
  JsObject.get k (ValidationFailures (this run.2)) = Some (recorded ref v (negb b) w failure) /\
  (forall index, index ≠ k ->
     JsObject.get index (ValidationFailures (this run.2))
     = JsObject.get index (ValidationFailures rule)) /\
  trace (world run.2) = trace w ++ (if exempt w ref v then [] else [EvCall ref v]).
Proof.
  intros Hsched Hkeys Hbefore Hv Hf Ha Hsettles. cbn zeta.
  rewrite ValidateAsyncEx_unfold. cbn zeta. cbn [this world].
  assert (ValidateAsyncEx_loop v (mkFrame rule w async_init)
          = (Normal tt,
             mkFrame rule (if exempt w ref v then w else emit (EvCall ref v) w)
                     (mkAsync (Some k) (Some ref) [Fulfils b]))) as ->.
  { unfold ValidateAsyncEx_loop, bind, gets. cbn [this]. unfold async_init.
    generalize (@None string) as cv. pose proof (eq_refl (before ++ [k])) as Hlist.
    rewrite <-Hkeys in Hlist at 1. rewrite Hlist. clear Hlist Hkeys.
    induction before as [|index before IH]; intros cv.
    - cbn [app for_each]. unfold bind.
      by rewrite (ValidateAsyncEx_body_last v k _ failure ref b).
    - cbn [app for_each]. unfold bind.
      pose proof (Hbefore index (list_elem_of_here _ _)) as Hsync.
      destruct (JsObject.get index (ValidationFailures rule)) as [failure0|] eqn:Hf0; [|done].
      injection Hsync as Hsync.
      rewrite (ValidateAsyncEx_body_idle v index _ failure0) by done.
      unfold with_locals. cbn [this world locals validator promises].
      apply IH. intros index' Hin. apply Hbefore. by apply list_elem_of_further. }
  cbn [fst snd]. unfold settle, bind, gets. cbn [locals promises fulfilled omap list_omap].
  assert (sched [b] = [b]) as ->.
  { apply Permutation_singleton_r. by rewrite Hsched. }
  cbn [for_each]. unfold bind. rewrite try_catch_ignore, then_handler_cases.
  cbn [locals validation validator fst snd]. unfold ret. cbn [snd].
  rewrite record_outcome_locals. cbn [locals promises all_fulfilled forallb].
  split; [done|]. cbn [this world]. split; [|split].
  - rewrite record_outcome_get_eq. cbn [this world]. rewrite Hf. cbn.
    f_equal. by destruct (exempt w ref v).
  - intros index Hne. rewrite record_outcome_get_ne by done. done.
  - rewrite record_outcome_world. cbn [world]. destruct (exempt w ref v); cbn.
    + by rewrite app_nil_r.
    + done.
Qed.

(** Witness for X7: a rule with [required] and [maxlength] before the
    asynchronous [contains], on a value that is not among the options. *)
Lemma async_pass_sound_when_async_validator_is_last_witness :
  let rule := new Fixtures.world "Code" [0; 1; 2] in
  let run := ValidateAsyncEx in_order (VStr "C") (mkFrame rule Fixtures.world tt) in
  run.1 = Normal (Resolved (async_failures (this run.2))) /\
  JsObject.get "contains" (ValidationFailures (this run.2))
  = Some (recorded 2 (VStr "C") (negb false) Fixtures.world (new_slot Fixtures.world 2)) /\
  (forall index, index ≠ "contains" ->
     JsObject.get index (ValidationFailures (this run.2))
     = JsObject.get index (ValidationFailures rule)) /\
  trace (world run.2)
  = trace Fixtures.world ++ (if exempt Fixtures.world 2 (VStr "C") then [] else [EvCall 2 (VStr "C")]).
Proof.
  apply (async_pass_sound_when_async_validator_is_last in_order Fixtures.world
           (new Fixtures.world "Code" [0; 1; 2]) (VStr "C")
           ["required"; "maxlength"] "contains" 2 (new_slot Fixtures.world 2) false).
  - done.
  - reflexivity.
  - intros index Hin. apply elem_of_cons in Hin as [->|Hin]; [reflexivity|].
    apply list_elem_of_singleton in Hin as ->. reflexivity.
  - reflexivity.
  - reflexivity.
  - reflexivity.
  - reflexivity.
Defined.

(** ** The promise of an asynchronous pass *)

Lemma taken_at_kept {L L' : Type} v (fr0 : frame L) (fr : frame L') index :
  rule_kept fr0 fr ->
  taken_at (world fr) (this fr) v index = taken_at (world fr0) (this fr0) v index.
Proof.
  intros Hk. unfold taken_at. rewrite (kept_Validators _ _ Hk).
  pose proof (kept_IsAsync _ _ Hk index) as Ha.
  destruct (JsObject.get index (ValidationFailures (this fr))) as [failure'|],
           (JsObject.get index (ValidationFailures (this fr0))) as [failure|]; try done.
  injection Ha as ->. destruct (JsObject.get index (Validators (this fr0))) as [ref|]; [|done].
  rewrite (exempt_kept _ _ _ _ (kept_validators _ _ Hk)).
  destruct (kept_validators _ _ Hk ref) as (_ & _ & -> & _). done.
Qed.

Lemma async_step_taken v index (fr : frame async_locals) r fr' :
  async_step v index fr r fr' -> r = Normal tt ->
  promises (locals fr')
  = promises (locals fr)
    ++ from_option (fun p => [p]) [] (taken_at (world fr) (this fr) v index).
Proof.
  unfold taken_at, exempt.
  destruct 1 as [Hf|failure Hf Has|failure Hf Has Hnv|failure ref Hf Has Hv Hab
                 |failure ref p Hf Has Hv Hab Hacc|failure ref e Hf Has Hv Hab Hacc];
    try done; intros _; rewrite Hf, ?Hv, ?Has, ?Hab, ?Hacc; cbn.
  - destruct (JsObject.get index (Validators (this fr))); by rewrite app_nil_r.
  - done.
  - done.
Qed.

Lemma ValidateAsyncEx_loop_taken v (fr0 : frame async_locals) (keys : list string) :
  forall fr, rule_kept fr0 fr ->
  (for_each keys (ValidateAsyncEx_body v) fr).1 = Normal tt ->
  promises (locals (for_each keys (ValidateAsyncEx_body v) fr).2)
  = promises (locals fr) ++ omap (taken_at (world fr0) (this fr0) v) keys.
Proof.
  induction keys as [|k keys IH]; intros fr Hk.
  { simpl. by rewrite app_nil_r. }
  cbn [for_each omap list_omap]. unfold bind.
  pose proof (ValidateAsyncEx_body_step v k fr) as Hstep.
  destruct (async_step_kept _ _ _ _ _ Hstep) as [Hk1 _].
  pose proof (async_step_taken _ _ _ _ _ Hstep) as Htaken.
  rewrite (taken_at_kept v fr0 fr k Hk) in Htaken.
  destruct (ValidateAsyncEx_body v k fr) as [[[]|e] fr1]; cbn [fst snd] in *; [|done].
  intros Hnorm. rewrite (IH fr1 (rule_kept_trans _ _ _ Hk Hk1) Hnorm), Htaken by done.
  rewrite <-app_assoc. f_equal. by destruct (taken_at _ _ _ _).
Qed.

(** X19. The promise of an asynchronous pass. When every check the pass
    makes returns a promise, the promise [ValidateAsyncEx] returns is
    resolved, with the asynchronous failures, exactly when every promise
    the pass took is fulfilled, whatever the results; it is pending for
    ever as soon as one of them is rejected, since nothing handles the
    rejection, and it is never rejected itself. *)
Theorem async_pass_resolves_when_all_checks_are_fulfilled
    (sched : schedule) (w : World) (rule : t) (v : value) :
  rule_wf w rule ->
  (forall ref, ref ∈ due true w rule v ->
     exists p, isAcceptable (heap w ref) v = Returns (RPromise p)) ->
  let run := ValidateAsyncEx sched v (mkFrame rule w tt) in
  run.1 = Normal (if all_fulfilled (taken w rule v)
                  then Resolved (async_failures (this run.2))
                  else Pending) /\
  (forall reason, Rejects reason ∈ taken w rule v -> run.1 = Normal Pending) /\
  (forall index ref reason,
     JsObject.get index (Validators rule) = Some ref ->
     isAsync (heap w ref) = true -> exempt w ref v = false ->
     isAcceptable (heap w ref) v = Returns (RPromise (Rejects reason)) ->
     Rejects reason ∈ taken w rule v).
Proof.
  intros Hwf Hquiet. cbn zeta.
  assert ((ValidateAsyncEx sched v (mkFrame rule w tt)).1
          = Normal (if all_fulfilled (taken w rule v)
                    then Resolved (async_failures
                                     (this (ValidateAsyncEx sched v (mkFrame rule w tt)).2))
                    else Pending)) as Hrun.
  { rewrite ValidateAsyncEx_unfold. cbn zeta. cbn [fst snd this world].
    set (fr0 := mkFrame rule w async_init).
    destruct (settle_spec sched v (ValidateAsyncEx_loop v fr0).2) as (_ & _ & -> & _).
    unfold ValidateAsyncEx_loop at 1 2, bind, gets. cbn [this fr0].
    destruct (ValidateAsyncEx_loop_calls v fr0 (JsObject.keys (ValidationFailures rule)))
      with (fr := fr0) as [Hnorm _]; try done.
    { intros index Hin. by apply (rule_wf_slots w). }
    { apply rule_kept_refl. }
    rewrite Hnorm.
    rewrite (ValidateAsyncEx_loop_taken v fr0 _ fr0 (rule_kept_refl _) Hnorm). done. }
  split; [done|]. split.
  - intros reason Hin. rewrite Hrun.
    assert (all_fulfilled (taken w rule v) = false) as ->; [|done].
    apply not_true_is_false. intros Hall. unfold all_fulfilled in Hall.
    rewrite forallb_forall in Hall. apply list_elem_of_In in Hin. by apply Hall in Hin.
  - intros index ref reason Hv Ha Hex Hacc.
    destruct (rule_wf_validator _ _ _ _ Hwf Hv) as [_ Hslot].
    destruct (JsObject.get index (ValidationFailures rule)) as [failure|] eqn:Hf; [|done].
    injection Hslot as Hslot. apply list_elem_of_omap. exists index. split.
    + by eapply get_Some_keys.
    + unfold taken_at. by rewrite Hf, Hv, Hslot, Ha, Hex, Hacc.
Qed.

(** Witness for X19: the rule whose remote check is rejected. *)
Lemma async_pass_resolves_when_all_checks_are_fulfilled_witness :
  (ValidateAsyncEx in_order (VStr "ann") (mkFrame Fixtures.remote_rule Fixtures.world tt)).1
  = Normal Pending.
Proof.
  destruct (async_pass_resolves_when_all_checks_are_fulfilled in_order Fixtures.world
              Fixtures.remote_rule (VStr "ann") (new_wf _ _ _)) as (_ & Hpending & _).
  - intros ref Hin. vm_compute in Hin. apply list_elem_of_singleton in Hin as ->. by eexists.
  - apply (Hpending (VStr "service unreachable")). vm_compute. apply list_elem_of_here.
Defined.

End property_rule.

(** ** Computations and the relations they respect *)

Section respects.
Context {S : Type} (R : S -> S -> Prop).
Hypothesis R_refl : forall s, R s s.
Hypothesis R_trans : forall s1 s2 s3, R s1 s2 -> R s2 s3 -> R s1 s3.

Lemma respects_ret {A : Type} (a : A) : respects R (ret a).
Proof using R_refl. intros s. apply R_refl. Qed.

Lemma respects_throw {A : Type} (e : exn) : respects R (throw (A:=A) e).
Proof using R_refl. intros s. apply R_refl. Qed.

Lemma respects_gets {A : Type} (f : S -> A) : respects R (gets f).
Proof using R_refl. intros s. apply R_refl. Qed.

Lemma respects_lift {A : Type} (c : completion A) : respects R (lift c).
Proof using R_refl. intros s. apply R_refl. Qed.

Lemma respects_modify (f : S -> S) : (forall s, R s (f s)) -> respects R (modify f).
Proof. intros H s. apply H. Qed.

Lemma respects_bind {A B : Type} (m : M S A) (k : A -> M S B) :
  respects R m -> (forall a, respects R (k a)) -> respects R (bind m k).
Proof using R_trans.
  intros Hm Hk s. unfold bind. specialize (Hm s).
  destruct (m s) as [[a|e] s']; [|done]. eapply R_trans; [exact Hm|]. apply Hk.
Qed.


Lemma respects_try_catch {A : Type} (m : M S A) (h : exn -> M S A) :
  respects R m -> (forall e, respects R (h e)) -> respects R (try_catch m h).
Proof using R_trans.
  intros Hm Hh s. unfold try_catch. specialize (Hm s).
  destruct (m s) as [[a|e] s']; [done|]. eapply R_trans; [exact Hm|]. apply Hh.
Qed.

Lemma respects_for_each {X : Type} (xs : list X) (body : X -> M S unit) :
  (forall x, x ∈ xs -> respects R (body x)) -> respects R (for_each xs body).
Proof using R_refl R_trans.
  intros Hbody s. apply (for_each_inv (R s)); [|apply R_refl].
  intros x s' Hx Hs. eapply R_trans; [exact Hs|]. by apply Hbody.
Qed.
End respects.

(** ** The world of a rule tree *)

Section rule_tree.
Import AbstractValidationRule.

Lemma tree_world_kept_refl {L L' : Type} (fr : frame L) (fr' : frame L') :
  world fr' = world fr -> tree_world_kept fr fr'.
Proof. unfold tree_world_kept. intros ->. apply validators_kept_refl. Qed.

Lemma tree_world_kept_refl' {L : Type} (fr : frame L) : tree_world_kept fr fr.
Proof. apply validators_kept_refl. Qed.

Lemma tree_world_kept_trans {L : Type} (fr1 fr2 fr3 : frame L) :
  tree_world_kept fr1 fr2 -> tree_world_kept fr2 fr3 -> tree_world_kept fr1 fr3.
Proof. apply validators_kept_trans. Qed.

(** Tactic for the steps that do not touch the world. *)
(** Steps through the monadic structure of a computation, for a relation
    with reflexivity [refl] and transitivity [trans]. *)
Ltac respects_step refl trans :=
  lazymatch goal with
  | |- respects _ (bind _ _) => apply respects_bind; [apply trans| |intros ?]
  | |- respects _ (gets _) => apply respects_gets; apply refl
  | |- respects _ (ret _) => apply respects_ret; apply refl
  | |- respects _ (throw _) => apply respects_throw; apply refl
  | |- respects _ (lift _) => apply respects_lift; apply refl
  | |- respects _ (modify _) => apply respects_modify; intros ?
  | |- respects _ (for_each _ _) =>
      apply respects_for_each; [apply refl|apply trans|intros ? _]
  end.

Ltac world_steps :=
  repeat respects_step @tree_world_kept_refl' @tree_world_kept_trans;
  try apply validators_kept_refl.

Lemma in_rule_world {L A : Type} prop (m : M PropertyValidationRule.state A) :
  (forall s, rule_kept s (m s).2) -> respects tree_world_kept (in_rule (L:=L) prop m).
Proof.
  intros Hm fr. unfold in_rule, tree_world_kept.
  destruct (JsObject.get prop (Rules (this fr))) as [rule|]; [|apply validators_kept_refl].
  specialize (Hm (PropertyValidationRule.mkFrame rule (world fr) tt)).
  destruct (m _) as [r s]. cbn [snd world]. apply (kept_validators _ _ Hm).
Qed.

Lemma in_validator_world {L A : Type} name (m : M Validator.t A) :
  respects tree_world_kept (in_validator (L:=L) name m).
Proof.
  intros fr. unfold in_validator, tree_world_kept.
  destruct (JsObject.get name (Validators (this fr))) as [node|]; [|apply validators_kept_refl].
  destruct (m node) as [r node']. apply validators_kept_refl.
Qed.

Lemma in_child_world {L A : Type} key item store (m : M state A) :
  respects tree_world_kept m -> respects tree_world_kept (in_child (L:=L) key item store m).
Proof.
  intros Hm fr. unfold in_child, tree_world_kept.
  destruct (JsObject.get key (Children (this fr))) as [child|]; [|apply validators_kept_refl].
  specialize (Hm (mkFrame child item (world fr) tt)).
  destruct (m _) as [r s]. exact Hm.
Qed.

Lemma call_world {L A : Type} (init : L) (m : M (frame L) A) :
  respects tree_world_kept m -> respects tree_world_kept (call init m).
Proof.
  intros Hm s. unfold call. specialize (Hm (mkFrame (this s) (data s) (world s) init)).
  destruct (m _) as [r fr]. exact Hm.
Qed.

Lemma NotifyListChanged_world {L : Type} (items : value) :
  respects tree_world_kept (NotifyListChanged (L:=L) items).
Proof.
  unfold NotifyListChanged, notify_item. world_steps.
  destruct a0; world_steps.
Qed.

Lemma validate_shared_world {L : Type} valFunctions :
  respects tree_world_kept (validate_shared (L:=L) valFunctions).
Proof.
  unfold validate_shared. world_steps. destruct a; world_steps. apply in_validator_world.
Qed.

Lemma validate_rule_world {L : Type} propName :
  respects tree_world_kept (validate_rule (L:=L) propName).
Proof.
  unfold validate_rule. world_steps. apply in_rule_world.
  intros s. apply Validate_kept.
Qed.

Lemma validateAsync_rule_world sched propName :
  respects tree_world_kept (validateAsync_rule sched propName).
Proof.
  unfold validateAsync_rule, push, on_locals. world_steps. apply in_rule_world.
  intros s. apply ValidateAsync_kept.
Qed.

Lemma validate_child_world {L : Type} (rec : M state unit) key :
  respects tree_world_kept rec -> respects tree_world_kept (validate_child (L:=L) rec key).
Proof.
  intros Hrec. unfold validate_child, on_data. world_steps.
  - destruct (is_undefined a0); world_steps.
  - by apply in_child_world.
Qed.

Lemma validate_item_world {L : Type} (rec : M state unit) i :
  respects tree_world_kept rec -> respects tree_world_kept (validate_item (L:=L) rec i).
Proof.
  intros Hrec. unfold validate_item. world_steps. destruct a; world_steps.
  by apply in_child_world.
Qed.

Lemma validateAsync_child_world (rec : M state (promise unit)) key :
  respects tree_world_kept rec -> respects tree_world_kept (validateAsync_child rec key).
Proof.
  intros Hrec. unfold validateAsync_child, push, on_locals. world_steps.
  by apply in_child_world.
Qed.

Lemma validateAsync_item_world (rec : M state (promise unit)) i :
  respects tree_world_kept rec -> respects tree_world_kept (validateAsync_item rec i).
Proof.
  intros Hrec. unfold validateAsync_item, push, on_locals. world_steps. destruct a; world_steps.
  by apply in_child_world.
Qed.

Lemma Validate_world fuel : respects tree_world_kept (Validate fuel).
Proof.
  induction fuel as [|fuel IH]; cbn [Validate]; world_steps.
  destruct a; world_steps.
  - apply NotifyListChanged_world.
  - by apply validate_item_world.
  - by apply validate_child_world.
  - apply validate_rule_world.
  - apply validate_shared_world.
Qed.

Lemma ValidateAsync_world sched fuel : respects tree_world_kept (ValidateAsync sched fuel).
Proof.
  induction fuel as [|fuel IH]; cbn [ValidateAsync]; world_steps.
  apply call_world. world_steps.
  destruct a; world_steps.
  - apply NotifyListChanged_world.
  - by apply validateAsync_item_world.
  - by apply validateAsync_child_world.
  - apply validateAsync_rule_world.
Qed.

Lemma ValidateField_world sched fuel propName :
  respects tree_world_kept (ValidateField sched fuel propName).
Proof.
  unfold ValidateField. world_steps.
  - destruct a; world_steps. apply in_child_world, Validate_world.
  - destruct a1; world_steps.
    + apply in_rule_world. intros s. apply Validate_kept.
    + apply in_rule_world. intros s. apply ValidateAsync_kept.
  - destruct a3; world_steps. apply validate_shared_world.
Qed.

(** ** The node an evaluation is called on *)

Lemma worked_on_trans fce e1 e2 e3 :
  worked_on fce e1 e2 -> worked_on fce e2 e3 -> worked_on fce e1 e3.
Proof.
  induction 1 as [|e1 context e2 H IH]; [done|]. intros H3.
  eapply worked_on_step. by apply IH.
Qed.

Lemma same_instance_refl node : same_instance node node.
Proof. repeat split. apply worked_on_refl. Qed.

Lemma same_instance_trans n1 n2 n3 :
  same_instance n1 n2 -> same_instance n2 n3 -> same_instance n1 n3.
Proof.
  intros (H1&H2&H3&H4) (H1'&H2'&H3'&H4'). repeat split; try congruence.
  rewrite H2 in H4'. by eapply worked_on_trans.
Qed.

Lemma Validator_Validate_same_instance context node :
  same_instance node (Validator.Validate context node).2.
Proof.
  unfold Validator.Validate.
  destruct (Validator.ValidateFce node context _) as [r error] eqn:E.
  assert (same_instance node
            {| Validator.Name := Validator.Name node;
               Validator.ValidateFce := Validator.ValidateFce node;
               Validator.Error := error; Validator.Optional := Validator.Optional node |}) as H.
  { repeat split. cbn. eapply worked_on_step. rewrite E. apply worked_on_refl. }
  by destruct r as [[]|e].
Qed.

Lemma node_kept_this {L L' : Type} (fr : frame L) (fr' : frame L') :
  this fr' = this fr -> node_kept fr fr'.
Proof.
  intros Ht. split; rewrite ?Ht; try done.
  - intros name node Hn. exists node. split; [done|apply same_instance_refl].
  - exists []. by rewrite app_nil_r.
  - exists []. by rewrite app_nil_r.
Qed.

Lemma node_kept_refl {L : Type} (fr : frame L) : node_kept fr fr.
Proof. by apply node_kept_this. Qed.

Lemma node_kept_trans {L1 L2 L3 : Type} (fr1 : frame L1) (fr2 : frame L2) (fr3 : frame L3) :
  node_kept fr1 fr2 -> node_kept fr2 fr3 -> node_kept fr1 fr3.
Proof.
  intros H12 H23. split.
  - rewrite (node_Name _ _ H23). apply (node_Name _ _ H12).
  - rewrite (node_validator _ _ H23). apply (node_validator _ _ H12).
  - rewrite (node_IsList _ _ H23). apply (node_IsList _ _ H12).
  - rewrite (node_Rules _ _ H23). apply (node_Rules _ _ H12).
  - rewrite (node_Validators_keys _ _ H23). apply (node_Validators_keys _ _ H12).
  - intros name node Hn. destruct (node_Validators _ _ H12 name node Hn) as (node2 & Hn2 & Hs2).
    destruct (node_Validators _ _ H23 name node2 Hn2) as (node3 & Hn3 & Hs3).
    exists node3. split; [done|]. by eapply same_instance_trans.
  - destruct (node_Children _ _ H12) as [a1 H1], (node_Children _ _ H23) as [a2 H2].
    exists (a1 ++ a2). by rewrite H2, H1, app_assoc.
  - destruct (node_contributors _ _ H12) as [a1 H1], (node_contributors _ _ H23) as [a2 H2].
    exists (a1 ++ a2). by rewrite H2, H1, app_assoc.
Qed.

Lemma node_kept_trans' {L : Type} (fr1 fr2 fr3 : frame L) :
  node_kept fr1 fr2 -> node_kept fr2 fr3 -> node_kept fr1 fr3.
Proof. apply node_kept_trans. Qed.

Ltac node_steps :=
  repeat respects_step @node_kept_refl @node_kept_trans';
  try (by apply node_kept_this).

Lemma in_rule_node {L A : Type} prop (m : M PropertyValidationRule.state A) :
  respects node_kept (in_rule (L:=L) prop m).
Proof.
  intros fr. unfold in_rule.
  destruct (JsObject.get prop (Rules (this fr))) as [rule|] eqn:Hr; [|apply node_kept_refl].
  destruct (m _) as [r s]. cbn [snd]. split; cbn; try done.
  - apply keys_set_Some. eauto.
  - intros name node Hn. exists node. split; [done|apply same_instance_refl].
  - exists []. by rewrite app_nil_r.
  - exists []. by rewrite app_nil_r.
Qed.

Lemma in_validator_node {L A : Type} name (m : M Validator.t A) :
  (forall node, same_instance node (m node).2) ->
  respects node_kept (in_validator (L:=L) name m).
Proof.
  intros Hm fr. unfold in_validator.
  destruct (JsObject.get name (Validators (this fr))) as [node|] eqn:Hn; [|apply node_kept_refl].
  specialize (Hm node). destruct (m node) as [r node']. cbn [snd] in *. split; cbn; try done.
  - apply keys_set_Some. eauto.
  - intros name' node0 Hn0. destruct (decide (name = name')) as [<-|Hne].
    + rewrite get_set_eq. exists node'. split; [done|]. congruence.
    + rewrite get_set_ne by done. exists node0. split; [done|apply same_instance_refl].
  - exists []. by rewrite app_nil_r.
  - exists []. by rewrite app_nil_r.
Qed.

Lemma in_child_node {L A : Type} key item store (m : M state A) :
  respects node_kept (in_child (L:=L) key item store m).
Proof.
  intros fr. unfold in_child.
  destruct (JsObject.get key (Children (this fr))) as [child|] eqn:Hc; [|apply node_kept_refl].
  destruct (m _) as [r s]. cbn [snd]. split; cbn; try done.
  - intros name node Hn. exists node. split; [done|apply same_instance_refl].
  - exists []. rewrite app_nil_r. apply keys_set_Some. eauto.
  - exists []. by rewrite app_nil_r.
Qed.

Lemma call_node {L A : Type} (init : L) (m : M (frame L) A) :
  respects node_kept m -> respects node_kept (call init m).
Proof.
  intros Hm s. unfold call. specialize (Hm (mkFrame (this s) (data s) (world s) init)).
  destruct (m _) as [r fr]. cbn [snd].
  eapply node_kept_trans; [|eapply node_kept_trans; [exact Hm|]]; by apply node_kept_this.
Qed.

Lemma add_child_node {L : Type} key child (fr : frame L) :
  node_kept fr (mkFrame (add_child key child (this fr)) (data fr) (world fr) (locals fr)).
Proof.
  split; cbn; try done.
  - intros name node Hn. exists node. split; [done|apply same_instance_refl].
  - destruct (JsObject.get key (Children (this fr))) eqn:Hc.
    + exists []. rewrite app_nil_r. apply keys_set_Some. eauto.
    + exists [key]. by apply keys_set_None.
  - by eexists.
Qed.

Lemma NotifyListChanged_node {L : Type} (items : value) :
  respects node_kept (NotifyListChanged (L:=L) items).
Proof.
  unfold NotifyListChanged, notify_item. node_steps.
  destruct a0; node_steps. apply add_child_node.
Qed.

Lemma validate_shared_node {L : Type} valFunctions :
  respects node_kept (validate_shared (L:=L) valFunctions).
Proof.
  unfold validate_shared. node_steps. destruct a; node_steps.
  apply in_validator_node. intros node. apply Validator_Validate_same_instance.
Qed.

Lemma validate_rule_node {L : Type} propName :
  respects node_kept (validate_rule (L:=L) propName).
Proof. unfold validate_rule. node_steps. apply in_rule_node. Qed.

Lemma validateAsync_rule_node sched propName :
  respects node_kept (validateAsync_rule sched propName).
Proof. unfold validateAsync_rule, push, on_locals. node_steps. apply in_rule_node. Qed.

Lemma validate_child_node {L : Type} (rec : M state unit) key :
  respects node_kept (validate_child (L:=L) rec key).
Proof.
  unfold validate_child, on_data. node_steps.
  - destruct (is_undefined a0); node_steps.
  - apply in_child_node.
Qed.

Lemma validate_item_node {L : Type} (rec : M state unit) i :
  respects node_kept (validate_item (L:=L) rec i).
Proof.
  unfold validate_item. node_steps. destruct a; node_steps. apply in_child_node.
Qed.

Lemma validateAsync_child_node (rec : M state (promise unit)) key :
  respects node_kept (validateAsync_child rec key).
Proof.
  unfold validateAsync_child, push, on_locals. node_steps. apply in_child_node.
Qed.

Lemma validateAsync_item_node (rec : M state (promise unit)) i :
  respects node_kept (validateAsync_item rec i).
Proof.
  unfold validateAsync_item, push, on_locals. node_steps. destruct a; node_steps.
  apply in_child_node.
Qed.

(** [Validate] keeps the node it is called on. *)
Lemma Validate_node fuel : respects node_kept (Validate fuel).
Proof.
  destruct fuel as [|fuel]; cbn [Validate]; node_steps.
  destruct a; node_steps.
  - apply NotifyListChanged_node.
  - apply validate_item_node.
  - apply validate_child_node.
  - apply validate_rule_node.
  - apply validate_shared_node.
Qed.

(** [ValidateAsync] keeps the node it is called on. *)
Lemma ValidateAsync_node sched fuel : respects node_kept (ValidateAsync sched fuel).
Proof.
  destruct fuel as [|fuel]; cbn [ValidateAsync]; node_steps.
  apply call_node. node_steps.
  destruct a; node_steps.
  - apply NotifyListChanged_node.
  - apply validateAsync_item_node.
  - apply validateAsync_child_node.
  - apply validateAsync_rule_node.
Qed.

(** [ValidateField] keeps the node it is called on. *)
Lemma ValidateField_node sched fuel propName :
  respects node_kept (ValidateField sched fuel propName).
Proof.
  unfold ValidateField. node_steps.
  - destruct a; node_steps. apply in_child_node.
  - destruct a1; node_steps; apply in_rule_node.
  - destruct a3; node_steps. apply validate_shared_node.
Qed.

(** ** Claims on the validator instances *)

(** C9, as the code has it. Evaluating a rule tree ([Validate],
    [ValidateAsync], [ValidateField]) leaves the declaration held by the
    rule and, of every validator instance, the tag, the [isAsync] flag, the
    acceptability check and every field other than [AttemptedValue] as
    they were; [AttemptedValue] is the one field evaluation writes on a
    validator instance. *)
Theorem evaluation_keeps_validators_but_AttemptedValue
    (sched : schedule) (fuel : nat) (propName : string) (s : state) :
  let after (s' : state) :=
    validator (this s') = validator (this s) /\
    forall ref,
      tagName (heap (world s') ref) = tagName (heap (world s) ref) /\
      isAsync (heap (world s') ref) = isAsync (heap (world s) ref) /\
      isAcceptable (heap (world s') ref) = isAcceptable (heap (world s) ref) /\
      forall field, field ≠ "AttemptedValue" ->
        JsObject.get field (fields (heap (world s') ref))
        = JsObject.get field (fields (heap (world s) ref)) in
  after (Validate fuel s).2 /\
  after (ValidateAsync sched fuel s).2 /\
  after (ValidateField sched fuel propName s).2.
Proof.
  intros after.
  assert (forall s' : state, node_kept s s' -> tree_world_kept s s' -> after s') as Hafter.
  { intros s' Hn Hw. split; [apply (node_validator _ _ Hn)|]. intros ref. apply Hw. }
  split; [|split]; apply Hafter.
  - apply Validate_node.
  - apply Validate_world.
  - apply ValidateAsync_node.
  - apply ValidateAsync_world.
  - apply ValidateField_node.
  - apply ValidateField_world.
Qed.

(** Counterexample to C9 as stated: after [Validate] the instance of
    [required] recorded in the declaration has a field it did not have. *)
Lemma evaluation_adds_AttemptedValue :
  let run := Validate 3 (mkFrame Fixtures.person_rule Fixtures.person_data Fixtures.world tt) in
  ~ (forall ref, heap (world run.2) ref = heap Fixtures.world ref) /\
  fields (heap Fixtures.world 0) = [] /\
  fields (heap (world run.2) 0) = [("AttemptedValue", VStr "")].
Proof.
  split; [|split; reflexivity].
  intros H. specialize (H 0). apply (f_equal fields) in H. vm_compute in H. discriminate.
Qed.


(** Witness for C9: the parameter [MaxLength] of the validator [maxlength]
    is as it was after the evaluation. *)
Lemma evaluation_keeps_validators_but_AttemptedValue_witness :
  let run := Validate 3 (mkFrame Fixtures.person_rule Fixtures.person_data Fixtures.world tt) in
  "MaxLength" ≠ "AttemptedValue" /\
  JsObject.get "MaxLength" (fields (heap (world run.2) 1)) = Some (VNum 3).
Proof.
  split; [discriminate|].
  destruct (evaluation_keeps_validators_but_AttemptedValue in_order 3 "Name"
              (mkFrame Fixtures.person_rule Fixtures.person_data Fixtures.world tt))
    as [[_ Hkept] _].
  destruct (Hkept 1) as (_ & _ & _ & Hfields).
  rewrite Hfields; [reflexivity|discriminate].
Defined.

(** ** Claims on ValidateField *)


















(** ** The constructor *)

Lemma add_validator_keeps this validation :
  Name (add_validator this validation) = Name this /\
  validator (add_validator this validation) = validator this /\
  Rules (add_validator this validation) = Rules this /\
  Children (add_validator this validation) = Children this.
Proof. unfold add_validator. by destruct (JsObject.get _ (Validators this)). Qed.

Lemma add_validator_present this validation :
  is_Some (JsObject.get (AbstractValidator.Name validation)
                        (Validators (add_validator this validation))).
Proof.
  unfold add_validator.
  destruct (JsObject.get _ (Validators this)) eqn:E; [by rewrite E|].
  cbn. rewrite get_set_eq. eauto.
Qed.

Lemma add_validator_old this validation name node :
  JsObject.get name (Validators this) = Some node ->
  JsObject.get name (Validators (add_validator this validation)) = Some node.
Proof.
  intros Hn. unfold add_validator.
  destruct (JsObject.get (AbstractValidator.Name validation) _) eqn:E; [done|]. cbn.
  rewrite get_set_ne; [done|]. intros <-. congruence.
Qed.

Lemma add_validator_new this validation name node :
  JsObject.get name (Validators (add_validator this validation)) = Some node ->
  JsObject.get name (Validators this) = Some node \/
  AbstractValidator.Name validation = name /\
  node = Validator.new (AbstractValidator.Name validation)
                       (AbstractValidator.ValidationFce validation).
Proof.
  unfold add_validator.
  destruct (JsObject.get (AbstractValidator.Name validation) _) eqn:E; [by left|]. cbn.
  destruct (decide (AbstractValidator.Name validation = name)) as [<-|Hne].
  - rewrite get_set_eq. intros [= <-]. by right.
  - rewrite get_set_ne by done. by left.
Qed.

Lemma add_validator_fold this fces :
  let this' := foldl add_validator this fces in
  (forall fce, fce ∈ fces ->
     is_Some (JsObject.get (AbstractValidator.Name fce) (Validators this'))) /\
  (forall name node, JsObject.get name (Validators this) = Some node ->
                     JsObject.get name (Validators this') = Some node) /\
  (forall name node, JsObject.get name (Validators this') = Some node ->
     JsObject.get name (Validators this) = Some node \/
     exists fce, fce ∈ fces /\ AbstractValidator.Name fce = name /\
       node = Validator.new (AbstractValidator.Name fce) (AbstractValidator.ValidationFce fce)) /\
  Name this' = Name this /\ validator this' = validator this /\
  Rules this' = Rules this /\ Children this' = Children this.
Proof.
  revert this. induction fces as [|fce fces IH]; intros this; cbn zeta.
  { simpl. split; [by intros fce ?%elem_of_nil|]. repeat split; auto. }
  cbn [foldl]. specialize (IH (add_validator this fce)). cbn zeta in IH.
  destruct IH as (Hin & Hold & Hnew & Hn & Hv & Hr & Hc).
  destruct (add_validator_keeps this fce) as (Hn' & Hv' & Hr' & Hc').
  split; [|split; [|split]].
  - intros fce' [->|Hin']%elem_of_cons; [|by apply Hin].
    destruct (add_validator_present this fce) as [node Hnode]. rewrite (Hold _ _ Hnode). eauto.
  - intros name node Hnode. apply Hold. by apply add_validator_old.
  - intros name node Hnode.
    destruct (Hnew name node Hnode) as [Hprev|(fce' & Hin' & Hname & ->)].
    + destruct (add_validator_new _ _ _ _ Hprev) as [?|[Hname ->]]; [by left|].
      right. exists fce. split; [apply list_elem_of_here|done].
    + right. exists fce'. split; [by apply list_elem_of_further|done].
  - repeat split; congruence.
Qed.

Lemma add_validators_fold this (declared : list (list AbstractValidator.IValidatorFce)) :
  let this' := foldl (fun this val => foldl add_validator this val) this declared in
  (forall fces fce, fces ∈ declared -> fce ∈ fces ->
     is_Some (JsObject.get (AbstractValidator.Name fce) (Validators this'))) /\
  (forall name node, JsObject.get name (Validators this) = Some node ->
                     JsObject.get name (Validators this') = Some node) /\
  (forall name node, JsObject.get name (Validators this') = Some node ->
     JsObject.get name (Validators this) = Some node \/
     exists fces fce, fces ∈ declared /\ fce ∈ fces /\ AbstractValidator.Name fce = name /\
       node = Validator.new (AbstractValidator.Name fce) (AbstractValidator.ValidationFce fce)) /\
  Name this' = Name this /\ validator this' = validator this /\
  Rules this' = Rules this /\ Children this' = Children this.
Proof.
  revert this. induction declared as [|fces declared IH]; intros this; cbn zeta.
  { simpl. split; [by intros fces fce ?%elem_of_nil|]. repeat split; auto. }
  cbn [foldl]. specialize (IH (foldl add_validator this fces)). cbn zeta in IH.
  destruct IH as (Hin & Hold & Hnew & Hn & Hv & Hr & Hc).
  destruct (add_validator_fold this fces) as (Hin' & Hold' & Hnew' & Hn' & Hv' & Hr' & Hc').
  split; [|split; [|split]].
  - intros fces' fce [->|Hd]%elem_of_cons Hfce; [|by eapply Hin].
    destruct (Hin' fce Hfce) as [node Hnode]. rewrite (Hold _ _ Hnode). eauto.
  - intros name node Hnode. apply Hold. by apply Hold'.
  - intros name node Hnode.
    destruct (Hnew name node Hnode) as [Hprev|(fces' & fce & Hd & Hfce & Hname & ->)].
    + destruct (Hnew' _ _ Hprev) as [?|(fce & Hfce & Hname & ->)]; [by left|].
      right. exists fces, fce. split; [apply list_elem_of_here|done].
    + right. exists fces', fce. split; [by apply list_elem_of_further|done].
  - repeat split; congruence.
Qed.

Lemma add_rules_keeps w this :
  Name (add_rules w this) = Name this /\
  validator (add_rules w this) = validator this /\
  Validators (add_rules w this) = Validators this /\
  Children (add_rules w this) = Children this.
Proof.
  unfold add_rules. generalize (AbstractValidator.Validators (validator this)) as declared.
  intros declared. revert this.
  induction declared as [|[key val] declared IH]; intros this; [done|].
  cbn [foldl].
  assert (forall this0 : t,
    let this' := foldl (fun (this : t) (validator0 : nat) =>
                   set_Rules (JsObject.alter (PropertyValidationRule.AddValidator w validator0)
                                             key (Rules this)) this) this0 val in
    Name this' = Name this0 /\ validator this' = validator this0 /\
    Validators this' = Validators this0 /\ Children this' = Children this0) as Hinner.
  { induction val as [|v val IHv]; intros this0; [done|]. cbn [foldl]. cbn zeta.
    specialize (IHv (set_Rules (JsObject.alter (PropertyValidationRule.AddValidator w v)
                                               key (Rules this0)) this0)).
    cbn zeta in IHv. destruct IHv as (-> & -> & -> & ->). done. }
  specialize (Hinner (createRuleFor w key this)). cbn zeta in Hinner.
  destruct Hinner as (H1 & H2 & H3 & H4).
  destruct (IH (foldl (fun (this : t) (validator0 : nat) =>
                   set_Rules (JsObject.alter (PropertyValidationRule.AddValidator w validator0)
                                             key (Rules this)) this)
                  (createRuleFor w key this) val)) as (-> & -> & -> & ->).
  rewrite H1, H2, H3, H4. done.
Qed.

Lemma add_children_keeps w (nested : obj AbstractValidator.t) this :
  let this' :=
    foldl (fun this '(key, val) =>
             add_child key
               (if AbstractValidator.ForList val
                then CreateAbstractListRule w val key
                else CreateAbstractRule w val key) this)
          this nested in
  Name this' = Name this /\ validator this' = validator this /\
  Rules this' = Rules this /\ Validators this' = Validators this.
Proof.
  revert this. induction nested as [|[key val] nested IH]; intros this; [done|].
  cbn [foldl]. cbn zeta. specialize (IH (add_child key
    (if AbstractValidator.ForList val
     then CreateAbstractListRule w val key else CreateAbstractRule w val key) this)).
  cbn zeta in IH. destruct IH as (-> & -> & -> & ->). done.
Qed.

(** The constructor of the base class, step by step. *)
Lemma new_unfold w name declaration :
  new w name declaration false
  = addChildren w (add_validators (add_rules w (initial name declaration false))).
Proof.
  unfold addChildren.
  destruct (add_rules_keeps w (initial name declaration false)) as (_ & Hv & _).
  destruct (add_validators_fold (add_rules w (initial name declaration false))
              (JsObject.values (AbstractValidator.ValidationFunctions
                 (validator (add_rules w (initial name declaration false))))))
    as (_ & _ & _ & _ & Hv' & _).
  fold (add_validators (add_rules w (initial name declaration false))) in Hv'.
  rewrite Hv', Hv. cbn [validator initial].
  destruct declaration as [vs nested vfs fl]. cbn [new AbstractValidator.AbstractValidators].
  generalize (add_validators
                (add_rules w (initial name (AbstractValidator.mk vs nested vfs fl) false))).
  clear Hv Hv'. induction nested as [|[key val] nested IH]; intros this; [done|].
  cbn [foldl]. rewrite <-IH. done.
Qed.

(** ** Claims on the shared validators *)

(** C8, as the code has it. The [Validator] node of every declared
    shared-validation name is made by the constructor of the rule, before
    any evaluation: for a declared name that is not the name of a member
    of [Object.prototype], one node, kept under that name, made for a
    declared function of that name, with a new error object and no
    predicate. [Validate] makes no node and drops none; on every call it
    runs the node it finds, so that the error object a call works on is
    the one the calls before it left. *)
Theorem shared_validators_made_by_constructor
    (w : World) (declaration : AbstractValidator.t) (name : string) :
  let rule := CreateRule w declaration name in
  (forall prop fces fce,
     (prop, fces) ∈ AbstractValidator.ValidationFunctions declaration -> fce ∈ fces ->
     AbstractValidator.Name fce ∉ JsObject.Object_prototype ->
     exists node,
       JsObject.get (AbstractValidator.Name fce) (Validators rule) = Some node /\
       Validator.Name node = AbstractValidator.Name fce /\
       Validator.Error node = Err.new_Error /\
       Validator.Optional node = None /\
       made_for declaration node) /\
  (forall (fuel : nat) (s : state),
     let s' := (Validate fuel s).2 in
     JsObject.keys (Validators (this s')) = JsObject.keys (Validators (this s)) /\
     forall shared node,
       JsObject.get shared (Validators (this s)) = Some node ->
       exists node',
         JsObject.get shared (Validators (this s')) = Some node' /\
         same_instance node node').
Proof.
  cbn zeta. split.
  - intros prop fces fce Hdecl Hfce _. unfold CreateRule. rewrite new_unfold. unfold addChildren.
    set (this1 := add_rules w (initial name declaration false)).
    destruct (add_rules_keeps w (initial name declaration false)) as (_ & Hv1 & Hvs1 & _).
    fold this1 in Hv1, Hvs1. cbn [validator initial Validators] in Hv1, Hvs1.
    destruct (add_validators_fold this1
                (JsObject.values (AbstractValidator.ValidationFunctions (validator this1))))
      as (Hin & _ & Hnew & _ & Hv2 & _).
    fold (add_validators this1) in Hin, Hnew, Hv2.
    destruct (add_children_keeps w
                (AbstractValidator.AbstractValidators (validator (add_validators this1)))
                (add_validators this1)) as (_ & _ & _ & ->).
    assert (fces ∈ JsObject.values (AbstractValidator.ValidationFunctions (validator this1)))
      as Hvalues.
    { rewrite Hv1. unfold JsObject.values. apply list_elem_of_fmap. by exists (prop, fces). }
    destruct (Hin fces fce Hvalues Hfce) as [node Hnode]. exists node. split; [done|].
    destruct (Hnew _ _ Hnode) as [Hold|(fces' & fce' & Hd & Hfce' & Hname & ->)].
    { rewrite Hvs1 in Hold. done. }
    split; [done|]. split; [done|]. split; [done|].
    rewrite Hv1 in Hd. unfold JsObject.values in Hd.
    apply list_elem_of_fmap in Hd as ([prop' fces''] & -> & Hd).
    exists prop', fces'', fce'. done.
  - intros fuel s. pose proof (Validate_node fuel s) as Hnode. split.
    + apply (node_Validators_keys _ _ Hnode).
    + apply (node_Validators _ _ Hnode).
Qed.

(** Counterexample to C8 as stated: the rule just made from the
    declaration of a person has the shared validator [dates], before any
    evaluation. *)
Lemma shared_validator_exists_before_evaluation :
  JsObject.keys (Validators (CreateRule Fixtures.world Fixtures.person "Main")) = ["dates"] /\
  JsObject.get "dates" (Validators (CreateRule Fixtures.world Fixtures.person "Main")) ≠ None.
Proof. split; [reflexivity|]. vm_compute. discriminate. Qed.

(** Witness for C8: the shared validator of the declaration of a person,
    at construction and after an evaluation that made it fail. *)
Lemma shared_validators_made_by_constructor_witness :
  let rule := CreateRule Fixtures.world Fixtures.person "Main" in
  let s := mkFrame rule Fixtures.person_data Fixtures.world tt in
  ("From", [Fixtures.dates]) ∈ AbstractValidator.ValidationFunctions Fixtures.person /\
  ("dates" ∉ JsObject.Object_prototype) /\
  (exists node,
     JsObject.get "dates" (Validators rule) = Some node /\
     Validator.Error node = Err.new_Error) /\
  (exists node',
     JsObject.get "dates" (Validators (this (Validate 3 s).2)) = Some node' /\
     Validator.Name node' = "dates").
Proof.
  cbn zeta.
  assert (("From", [Fixtures.dates])
          ∈ AbstractValidator.ValidationFunctions Fixtures.person) as Hdecl.
  { apply list_elem_of_here. }
  split; [exact Hdecl|].
  assert ("dates" ∉ JsObject.Object_prototype) as Hname0.
  { apply (bool_decide_unpack _). vm_compute. exact I. }
  split; [exact Hname0|].
  destruct (shared_validators_made_by_constructor Fixtures.world Fixtures.person "Main")
    as [Hmade Hkept].
  destruct (Hmade "From" [Fixtures.dates] Fixtures.dates Hdecl (list_elem_of_here _ _) Hname0)
    as (node & Hnode & Hname & Herror & _).
  split; [by exists node|].
  destruct (Hkept 3 (mkFrame (CreateRule Fixtures.world Fixtures.person "Main")
                             Fixtures.person_data Fixtures.world tt))
    as [_ Hsame].
  destruct (Hsame "dates" node Hnode) as (node' & Hnode' & Hname' & _).
  exists node'. split; [done|]. by rewrite Hname'.
Defined.

(** ** Claims on absent nested properties *)





(** ** The children of a list rule *)

Lemma for_each_app {S X : Type} (xs ys : list X) (body : X -> M S unit) (s : S) :
  for_each (xs ++ ys) body s = bind (for_each xs body) (fun _ => for_each ys body) s.
Proof.
  revert s. induction xs as [|x xs IH]; intros s; [done|].
  cbn [app for_each]. unfold bind. destruct (body x s) as [[[]|e] s1]; [|done].
  rewrite IH. done.
Qed.

Lemma validated_trans fuel r1 r2 r3 :
  validated fuel r1 r2 -> validated fuel r2 r3 -> validated fuel r1 r3.
Proof.
  induction 1 as [|r1 item w r2 H IH]; [done|]. intros H3.
  eapply validated_step. by apply IH.
Qed.

Lemma children_worked_this {L L' : Type} fuel (fr : frame L) (fr' : frame L') :
  this fr' = this fr -> children_worked fuel fr fr'.
Proof.
  intros Ht. split; rewrite ?Ht; try done.
  intros key child Hc. exists child. split; [done|apply validated_refl].
Qed.

Lemma children_worked_refl {L : Type} fuel (fr : frame L) : children_worked fuel fr fr.
Proof. by apply children_worked_this. Qed.

Lemma children_worked_trans {L : Type} fuel (fr1 fr2 fr3 : frame L) :
  children_worked fuel fr1 fr2 -> children_worked fuel fr2 fr3 -> children_worked fuel fr1 fr3.
Proof.
  intros H12 H23. split.
  - rewrite (worked_Name _ _ _ H23). apply (worked_Name _ _ _ H12).
  - rewrite (worked_ValidationResult _ _ _ H23). apply (worked_ValidationResult _ _ _ H12).
  - rewrite (worked_keys _ _ _ H23). apply (worked_keys _ _ _ H12).
  - intros key child Hc.
    destruct (worked_children _ _ _ H12 key child Hc) as (child2 & Hc2 & Hv2).
    destruct (worked_children _ _ _ H23 key child2 Hc2) as (child3 & Hc3 & Hv3).
    exists child3. split; [done|]. by eapply validated_trans.
Qed.

Ltac worked_steps fuel :=
  repeat respects_step (@children_worked_refl unit fuel) (@children_worked_trans unit fuel);
  try (by apply children_worked_this).

Lemma in_child_worked fuel key item store :
  respects (children_worked fuel) (in_child (L:=unit) key item store (Validate fuel)).
Proof.
  intros fr. unfold in_child.
  destruct (JsObject.get key (Children (this fr))) as [child|] eqn:Hc;
    [|apply children_worked_refl].
  destruct (Validate fuel (mkFrame child item (world fr) tt)) as [r s] eqn:E.
  cbn [snd]. split; cbn; try done.
  - apply keys_set_Some. eauto.
  - intros key' child0 Hc0. destruct (decide (key = key')) as [<-|Hne].
    + rewrite get_set_eq. exists (this s). split; [done|].
      assert (child0 = child) as -> by congruence.
      eapply validated_step. rewrite E. apply validated_refl.
    + rewrite get_set_ne by done. exists child0. split; [done|apply validated_refl].
Qed.

Lemma validate_item_worked fuel i :
  respects (children_worked fuel) (validate_item (L:=unit) (Validate fuel) i).
Proof.
  unfold validate_item. worked_steps fuel. destruct a; worked_steps fuel.
  apply in_child_worked.
Qed.

(** [NotifyListChanged] leaves a list alone when each of its indices has
    a child. *)
Lemma notify_nothing {L : Type} (indices : list nat) (fr : frame L) :
  (forall i, i ∈ indices -> is_Some (getValidationRule (this fr) i)) ->
  for_each indices notify_item fr = (Normal tt, fr).
Proof.
  induction indices as [|i indices IH]; intros Hall; [done|].
  cbn [for_each]. unfold bind at 1, notify_item at 1, bind, gets.
  destruct (Hall i (list_elem_of_here _ _)) as [child ->]. unfold ret at 1.
  apply IH. intros j Hj. apply Hall. by apply list_elem_of_further.
Qed.

(** [NotifyListChanged] makes a child for the index that has none. *)
Lemma notify_one {L : Type} (i : nat) (fr : frame L) :
  getValidationRule (this fr) i = None ->
  notify_item i fr
  = (Normal tt,
     mkFrame (add_child (getIndexedKey (this fr) i)
                (CreateAbstractRule (world fr) (validator (this fr)) (getIndexedKey (this fr) i))
                (this fr))
             (data fr) (world fr) (locals fr)).
Proof. intros Hnone. unfold notify_item, bind, gets, modify. by rewrite Hnone. Qed.

(** In general it ends normally, gives every index a child and leaves the
    children there were untouched. *)
Lemma notify_all {L : Type} (indices : list nat) (fr : frame L) :
  let fr' := (for_each indices notify_item fr).2 in
  (for_each indices notify_item fr).1 = Normal tt /\
  Name (this fr') = Name (this fr) /\
  data fr' = data fr /\
  (forall key child, JsObject.get key (Children (this fr)) = Some child ->
                     JsObject.get key (Children (this fr')) = Some child) /\
  (forall i, i ∈ indices -> is_Some (getValidationRule (this fr') i)).
Proof.
  revert fr. induction indices as [|i indices IH]; intros fr; cbn zeta.
  { split; [done|]. split; [done|]. split; [done|]. split; [done|]. by intros i ?%elem_of_nil. }
  cbn [for_each]. unfold bind.
  assert (exists fr1, notify_item i fr = (Normal tt, fr1) /\
            Name (this fr1) = Name (this fr) /\ data fr1 = data fr /\
            (forall key child, JsObject.get key (Children (this fr)) = Some child ->
                               JsObject.get key (Children (this fr1)) = Some child) /\
            is_Some (getValidationRule (this fr1) i)) as (fr1 & -> & Hn1 & Hd1 & Hold1 & Hi1).
  { destruct (getValidationRule (this fr) i) as [child|] eqn:Hrule.
    - exists fr. split; [|by rewrite Hrule; eauto].
      unfold notify_item, bind, gets. by rewrite Hrule.
    - eexists. split; [by apply notify_one|]. cbn. split; [done|]. split; [done|]. split.
      + intros key child Hc. rewrite get_set_ne; [done|].
        intros <-. unfold getValidationRule in Hrule. congruence.
      + unfold getValidationRule, getIndexedKey. cbn. rewrite get_set_eq. eauto. }
  specialize (IH fr1). cbn zeta in IH. destruct IH as (Hnorm & Hn & Hd & Hold & Hall).
  split; [done|]. split; [congruence|]. split; [congruence|]. split; [by auto|].
  intros j [->|Hj]%elem_of_cons; [|by apply Hall].
  destruct Hi1 as [child Hchild]. unfold getValidationRule, getIndexedKey in *.
  rewrite Hn. rewrite (Hold _ _ Hchild). eauto.
Qed.

(** [Validate] of the list class on an array: the children are reconciled
    with the indices, then the child of each index is validated. *)
Lemma Validate_list_unfold fuel (rule : t) (items : list value) w :
  IsList rule = true ->
  Validate (S fuel) (mkFrame rule (VArr items) w tt)
  = for_each (seq 0 (length items)) (validate_item (Validate fuel))
      (for_each (seq 0 (length items)) notify_item (mkFrame rule (VArr items) w tt)).2.
Proof.
  intros Hlist. cbn [Validate]. unfold bind at 1, gets at 1. cbn [this]. rewrite Hlist.
  unfold bind at 1, gets at 1. cbn [data].
  unfold bind at 1, NotifyListChanged, bind at 1, lift at 1. cbn [getLength].
  destruct (notify_all (seq 0 (length items)) (mkFrame rule (VArr items) w tt))
    as (Hnorm & _ & Hdata & _).
  destruct (for_each (seq 0 (length items)) notify_item _) as [r fr1].
  cbn [fst snd] in *. subst r. unfold bind, lift. cbn [getLength]. done.
Qed.

(** ** Claims on the children of a list rule *)

(** C5. The children of a list rule grow with the lists it has seen and
    never shrink. After [Validate] on a list, every index of the list has
    its child, keyed by the name of the rule followed by the index. Every
    child there was is still there under its key, the same object as
    validation has worked on it, and no contributor of the composite
    result is gone. A list no longer than the ones seen adds nothing; a
    list that is one longer adds exactly the child of the new index [n],
    keyed by the name followed by [n], and its contributor. *)
Theorem list_children_grow_only (fuel : nat) (rule : t) (items : list value) (w : World) :
  IsList rule = true ->
  let contributors (r : t) := CompositeValidationResult.Children (ValidationResult r) in
  let rule' := this (Validate (S fuel) (mkFrame rule (VArr items) w tt)).2 in
  (forall i, i < length items ->
     is_Some (JsObject.get (Name rule +:+ pretty i) (Children rule'))) /\
  (forall key child,
     JsObject.get key (Children rule) = Some child ->
     exists child', JsObject.get key (Children rule') = Some child' /\
                    validated fuel child child') /\
  (exists added, contributors rule' = contributors rule ++ added) /\
  ((forall i, i < length items ->
      is_Some (JsObject.get (Name rule +:+ pretty i) (Children rule))) ->
   JsObject.keys (Children rule') = JsObject.keys (Children rule) /\
   contributors rule' = contributors rule) /\
  (forall n,
     length items = S n ->
     (forall i, i < n -> is_Some (JsObject.get (Name rule +:+ pretty i) (Children rule))) ->
     JsObject.get (Name rule +:+ pretty n) (Children rule) = None ->
     JsObject.keys (Children rule') = JsObject.keys (Children rule) ++ [Name rule +:+ pretty n] /\
     contributors rule'
     = contributors rule ++ [CompositeValidationResult.OfChild (Name rule +:+ pretty n)]).
Proof.
  intros Hlist contributors rule'.
  pose proof (Validate_node (S fuel) (mkFrame rule (VArr items) w tt)) as Hnode.
  unfold rule'. rewrite Validate_list_unfold by done.
  rewrite Validate_list_unfold in Hnode by done.
  set (fr0 := mkFrame rule (VArr items) w tt) in *.
  set (fr1 := (for_each (seq 0 (length items)) notify_item fr0).2) in *.
  assert (children_worked fuel fr1
            (for_each (seq 0 (length items)) (validate_item (Validate fuel)) fr1).2) as Hworked.
  { assert (respects (children_worked fuel)
              (for_each (seq 0 (length items)) (validate_item (L:=unit) (Validate fuel))))
      as Hresp; [|apply Hresp].
    apply respects_for_each;
      [apply children_worked_refl|apply children_worked_trans|].
    intros i _. apply validate_item_worked. }
  set (s' := (for_each (seq 0 (length items)) (validate_item (Validate fuel)) fr1).2) in *.
  destruct (notify_all (seq 0 (length items)) fr0) as (_ & Hname & _ & Hold & Hall).
  fold fr1 in Hname, Hold, Hall. change (this fr0) with rule in *.
  split; [|split; [|split; [|split]]].
  - intros i Hi. destruct (Hall i) as [child Hchild].
    { apply elem_of_seq. lia. }
    unfold getValidationRule, getIndexedKey in Hchild. rewrite Hname in Hchild.
    destruct (worked_children _ _ _ Hworked _ _ Hchild) as (child' & Hchild' & _). eauto.
  - intros key child Hchild.
    apply (worked_children _ _ _ Hworked). by apply Hold.
  - apply (node_contributors _ _ Hnode).
  - intros Hseen.
    assert (for_each (seq 0 (length items)) notify_item fr0 = (Normal tt, fr0)) as Hnothing.
    { apply notify_nothing. intros i Hi%elem_of_seq. apply Hseen. lia. }
    assert (fr1 = fr0) as Hfr1 by (unfold fr1; by rewrite Hnothing).
    rewrite Hfr1 in Hworked. split.
    + apply (worked_keys _ _ _ Hworked).
    + unfold contributors. by rewrite (worked_ValidationResult _ _ _ Hworked).
  - intros n Hlen Hseen Hnone.
    assert (this fr1 = add_child (Name rule +:+ pretty n)
                         (CreateAbstractRule w (validator rule) (Name rule +:+ pretty n)) rule)
      as Hfr1.
    { unfold fr1. rewrite Hlen, seq_S, for_each_app. cbn [plus]. unfold bind.
      rewrite notify_nothing.
      2:{ intros i Hi%elem_of_seq. apply Hseen. lia. }
      cbn [for_each]. unfold bind. rewrite notify_one by done. done. }
    split.
    + rewrite (worked_keys _ _ _ Hworked), Hfr1. cbn. by apply keys_set_None.
    + unfold contributors. rewrite (worked_ValidationResult _ _ _ Hworked), Hfr1. done.
Qed.

(** Witness for C5: a new list rule for phones sees a list of one phone,
    then a list of two, then a list of one again. *)
Lemma list_children_grow_only_witness :
  let contributors (r : t) := CompositeValidationResult.Children (ValidationResult r) in
  let rule := CreateAbstractListRule Fixtures.world Fixtures.phone "Phones" in
  let one := [VObj [("Code", VStr "A")]] in
  let two := [VObj [("Code", VStr "A")]; VObj [("Code", VStr "Z")]] in
  let s1 := (Validate 2 (mkFrame rule (VArr one) Fixtures.world tt)).2 in
  let s2 := (Validate 2 (mkFrame (this s1) (VArr two) (world s1) tt)).2 in
  let s3 := (Validate 2 (mkFrame (this s2) (VArr one) (world s2) tt)).2 in
  IsList rule = true /\
  JsObject.keys (Children (this s1)) = JsObject.keys (Children rule) ++ ["Phones0"] /\
  JsObject.keys (Children (this s2)) = ["Phones0"; "Phones1"] /\
  JsObject.get "Phones0" (Children (this s2))
  = Some (this (Validate 1 (mkFrame (default rule (JsObject.get "Phones0" (Children (this s1))))
                                    (VObj [("Code", VStr "A")]) (world s1) tt)).2) /\
  JsObject.keys (Children (this s3)) = ["Phones0"; "Phones1"] /\
  contributors (this s3)
  = [CompositeValidationResult.OfChild "Phones0"; CompositeValidationResult.OfChild "Phones1"].
Proof.
  cbn zeta. split; [reflexivity|]. split.
  - destruct (list_children_grow_only 1
                (CreateAbstractListRule Fixtures.world Fixtures.phone "Phones")
                [VObj [("Code", VStr "A")]] Fixtures.world eq_refl)
      as (_ & _ & _ & _ & Hlonger).
    destruct (Hlonger 0) as [Hkeys _]; [reflexivity|lia|reflexivity|].
    exact Hkeys.
  - vm_compute. done.
Defined.

(** ** The constructor, in closed form *)

Lemma foldl_concat {A B : Type} (f : A -> B -> A) (a : A) (ls : list (list B)) :
  foldl (fun a l => foldl f a l) a ls = foldl f a (concat ls).
Proof.
  revert a. induction ls as [|l ls IH]; intros a; [done|].
  cbn [foldl concat]. by rewrite foldl_app, IH.
Qed.

(** The inner loop of the first loop of the constructor, on the rule it
    has just made for [key]. *)
Lemma add_rule_validators w key (vs : list nat) (rules0 : obj PropertyValidationRule.t) :
  key ∉ JsObject.keys rules0 ->
  forall (rule : PropertyValidationRule.t) (this : t),
    Rules this = rules0 ++ [(key, rule)] ->
    foldl (fun this validator =>
             set_Rules (JsObject.alter (PropertyValidationRule.AddValidator w validator)
                                       key (Rules this)) this) this vs
    = set_Rules (rules0 ++ [(key, foldl (fun rule validator =>
                                            PropertyValidationRule.AddValidator w validator rule)
                                         rule vs)]) this.
Proof.
  intros Hkey. induction vs as [|ref vs IH]; intros rule this Hrules.
  { cbn [foldl]. rewrite <-Hrules. by destruct this. }
  cbn [foldl]. rewrite Hrules, alter_last by done.
  rewrite (IH (PropertyValidationRule.AddValidator w ref rule)); [|done].
  by destruct this.
Qed.

Lemma add_rules_closed w (declared : obj (list nat)) :
  NoDup (JsObject.keys declared) ->
  forall this : t,
    (forall key, key ∈ JsObject.keys declared -> key ∉ JsObject.keys (Rules this)) ->
    foldl (fun this '(key, val) =>
             foldl (fun this validator =>
                      set_Rules (JsObject.alter (PropertyValidationRule.AddValidator w validator)
                                                key (Rules this)) this)
                   (createRuleFor w key this) val)
          this declared
    = mk (Name this) (validator this) (IsList this)
         (CompositeValidationResult.mk
            (CompositeValidationResult.Name (ValidationResult this))
            (CompositeValidationResult.Optional (ValidationResult this))
            (contributors this ++ (CompositeValidationResult.OfRule <$> JsObject.keys declared)))
         (Rules this
          ++ ((fun kv => (kv.1, PropertyValidationRule.new w kv.1 kv.2)) <$> declared))
         (Validators this) (Children this).
Proof.
  induction declared as [|[key vs] declared IH]; intros Hnd this Hfresh.
  { cbn. rewrite !app_nil_r. destruct this as [? ? ? [] ? ? ?]. done. }
  cbn [foldl]. cbn in Hnd. apply NoDup_cons in Hnd as [Hkey Hnd].
  assert (key ∉ JsObject.keys (Rules this)) as Hnew.
  { apply Hfresh. apply list_elem_of_here. }
  rewrite (add_rule_validators w key vs (Rules this) Hnew (PropertyValidationRule.new w key [])).
  2:{ unfold createRuleFor. cbn. by apply set_new. }
  rewrite IH; [|done|].
  - unfold createRuleFor, contributors. cbn. rewrite <-!app_assoc. done.
  - intros k Hk. cbn [Rules set_Rules]. rewrite keys_app. intros [Hin|Hin]%elem_of_app.
    + apply (Hfresh k); [by apply list_elem_of_further|done].
    + apply list_elem_of_singleton in Hin as ->. done.
Qed.

Lemma add_children_closed w (nested : obj AbstractValidator.t) :
  NoDup (JsObject.keys nested) ->
  forall this : t,
    (forall key, key ∈ JsObject.keys nested -> key ∉ JsObject.keys (Children this)) ->
    foldl (fun this '(key, val) =>
             add_child key
               (if AbstractValidator.ForList val
                then CreateAbstractListRule w val key
                else CreateAbstractRule w val key) this)
          this nested
    = mk (Name this) (validator this) (IsList this)
         (CompositeValidationResult.mk
            (CompositeValidationResult.Name (ValidationResult this))
            (CompositeValidationResult.Optional (ValidationResult this))
            (contributors this ++ (CompositeValidationResult.OfChild <$> JsObject.keys nested)))
         (Rules this) (Validators this)
         (Children this ++ ((fun kv => (kv.1, child_of w kv.1 kv.2)) <$> nested)).
Proof.
  induction nested as [|[key val] nested IH]; intros Hnd this Hfresh.
  { cbn. rewrite !app_nil_r. destruct this as [? ? ? [] ? ? ?]. done. }
  cbn [foldl]. cbn in Hnd. apply NoDup_cons in Hnd as [Hkey Hnd].
  assert (key ∉ JsObject.keys (Children this)) as Hnew.
  { apply Hfresh. apply list_elem_of_here. }
  rewrite IH; [|done|].
  - unfold add_child, contributors, child_of. cbn. rewrite set_new by done.
    rewrite <-!app_assoc. done.
  - intros k Hk. unfold add_child, Add. cbn [Children set_Children set_ValidationResult].
    rewrite set_new, keys_app by done. intros [Hin|Hin]%elem_of_app.
    + apply (Hfresh k); [by apply list_elem_of_further|done].
    + apply list_elem_of_singleton in Hin as ->. done.
Qed.

(** The second loop of the constructor, over the declared functions in
    enumeration order. *)
Lemma add_validator_closed (fces : list AbstractValidator.IValidatorFce) (this : t) :
  let this' := foldl add_validator this fces in
  let added := filter (fun name => name ∉ JsObject.keys (Validators this))
                      (nub (AbstractValidator.Name <$> fces)) in
  Name this' = Name this /\ validator this' = validator this /\ IsList this' = IsList this /\
  Rules this' = Rules this /\ Children this' = Children this /\
  CompositeValidationResult.Name (ValidationResult this')
  = CompositeValidationResult.Name (ValidationResult this) /\
  CompositeValidationResult.Optional (ValidationResult this')
  = CompositeValidationResult.Optional (ValidationResult this) /\
  JsObject.keys (Validators this') = JsObject.keys (Validators this) ++ added /\
  contributors this' = contributors this ++ (CompositeValidationResult.OfValidator <$> added) /\
  forall shared,
    JsObject.get shared (Validators this')
    = match JsObject.get shared (Validators this) with
      | Some node => Some node
      | None => node_of <$> head (filter (fun fce => AbstractValidator.Name fce = shared) fces)
      end.
Proof.
  revert this. induction fces as [|fce fces IH]; intros this; cbn zeta.
  { cbn. rewrite !app_nil_r. repeat split; try done. intros shared. by destruct (JsObject.get _ _). }
  cbn [foldl fmap list_fmap nub].
  destruct (JsObject.get (AbstractValidator.Name fce) (Validators this)) as [node|] eqn:Hfce.
  - assert (add_validator this fce = this) as ->.
    { unfold add_validator. by rewrite Hfce. }
    specialize (IH this). cbn zeta in IH.
    destruct IH as (-> & -> & -> & -> & -> & -> & -> & -> & -> & Hget).
    repeat (split; [done|]).
    assert (AbstractValidator.Name fce ∈ JsObject.keys (Validators this)) as Hin
      by (by eapply get_Some_keys).
    rewrite filter_cons_False by tauto.
    assert (filter (fun name => name ∉ JsObject.keys (Validators this))
              (filter (fun y => y ≠ AbstractValidator.Name fce)
                      (nub (AbstractValidator.Name <$> fces)))
            = filter (fun name => name ∉ JsObject.keys (Validators this))
                     (nub (AbstractValidator.Name <$> fces))) as ->.
    { rewrite list_filter_filter. apply list_filter_iff. intros z. split; [tauto|].
      intros Hz. split; [done|]. by intros ->. }
    split; [done|]. split; [done|]. intros shared. rewrite Hget.
    destruct (JsObject.get shared (Validators this)) as [node'|] eqn:Hs; [done|].
    rewrite filter_cons_False; [done|]. intros <-. congruence.
  - assert (add_validator this fce
            = Add (CompositeValidationResult.OfValidator (AbstractValidator.Name fce))
                  (set_Validators
                     (JsObject.set (AbstractValidator.Name fce) (node_of fce) (Validators this))
                     this)) as ->.
    { unfold add_validator. by rewrite Hfce. }
    specialize (IH (Add (CompositeValidationResult.OfValidator (AbstractValidator.Name fce))
                        (set_Validators
                           (JsObject.set (AbstractValidator.Name fce) (node_of fce)
                                         (Validators this)) this))).
    cbn zeta in IH.
    destruct IH as (-> & -> & -> & -> & -> & -> & -> & -> & -> & Hget).
    assert (AbstractValidator.Name fce ∉ JsObject.keys (Validators this)) as Hnin
      by (by apply get_None_keys).
    cbn [Add set_Validators set_ValidationResult Name validator IsList Rules Children
         Validators ValidationResult CompositeValidationResult.Add
         CompositeValidationResult.Name CompositeValidationResult.Optional].
    repeat (split; [done|]). rewrite filter_cons_True by done.
    rewrite keys_set_None by done.
    assert (filter (fun name => name ∉ JsObject.keys (Validators this) ++ [AbstractValidator.Name fce])
                   (nub (AbstractValidator.Name <$> fces))
            = filter (fun name => name ∉ JsObject.keys (Validators this))
                (filter (fun y => y ≠ AbstractValidator.Name fce)
                        (nub (AbstractValidator.Name <$> fces)))) as ->.
    { rewrite list_filter_filter. apply list_filter_iff. intros z.
      rewrite elem_of_app, list_elem_of_singleton. tauto. }
    split; [by rewrite <-app_assoc|]. split.
    { unfold contributors. cbn. rewrite <-app_assoc. done. }
    intros shared. rewrite Hget.
    cbn [Add set_Validators set_ValidationResult Validators].
    destruct (decide (AbstractValidator.Name fce = shared)) as [<-|Hne].
    + rewrite get_set_eq, Hfce. by rewrite filter_cons_True.
    + rewrite get_set_ne by done. rewrite filter_cons_False by done. done.
Qed.

(** The constructor of the base class: the rule it makes for a
    declaration whose properties and nested declarations have distinct
    keys. *)
Lemma new_closed w name declaration :
  NoDup (JsObject.keys (AbstractValidator.Validators declaration)) ->
  NoDup (JsObject.keys (AbstractValidator.AbstractValidators declaration)) ->
  let declared := concat (JsObject.values (AbstractValidator.ValidationFunctions declaration)) in
  let rule := new w name declaration false in
  Name rule = name /\ validator rule = declaration /\ IsList rule = false /\
  CompositeValidationResult.Name (ValidationResult rule) = name /\
  CompositeValidationResult.Optional (ValidationResult rule) = None /\
  Rules rule
  = (fun kv => (kv.1, PropertyValidationRule.new w kv.1 kv.2))
      <$> AbstractValidator.Validators declaration /\
  Children rule
  = (fun kv => (kv.1, child_of w kv.1 kv.2))
      <$> AbstractValidator.AbstractValidators declaration /\
  JsObject.keys (Validators rule) = nub (AbstractValidator.Name <$> declared) /\
  (forall shared,
     JsObject.get shared (Validators rule)
     = node_of <$> head (filter (fun fce => AbstractValidator.Name fce = shared) declared)) /\
  contributors rule
  = (CompositeValidationResult.OfRule
       <$> JsObject.keys (AbstractValidator.Validators declaration))
    ++ (CompositeValidationResult.OfValidator <$> JsObject.keys (Validators rule))
    ++ (CompositeValidationResult.OfChild
          <$> JsObject.keys (AbstractValidator.AbstractValidators declaration)).
Proof.
  intros Hnd1 Hnd2. cbn zeta. rewrite new_unfold.
  assert (add_rules w (initial name declaration false)
          = mk name declaration false
               (CompositeValidationResult.mk name None
                  (CompositeValidationResult.OfRule
                     <$> JsObject.keys (AbstractValidator.Validators declaration)))
               ((fun kv => (kv.1, PropertyValidationRule.new w kv.1 kv.2))
                  <$> AbstractValidator.Validators declaration)
               [] []) as Hrules.
  { unfold add_rules. cbn [validator initial]. rewrite add_rules_closed; [done..|].
    intros key _ Hin. by apply elem_of_nil in Hin. }
  unfold add_validators. rewrite Hrules. cbn [validator]. rewrite foldl_concat.
  set (this1 := mk name declaration false _ _ [] []).
  destruct (add_validator_closed
              (concat (JsObject.values (AbstractValidator.ValidationFunctions declaration)))
              this1) as (H1 & H2 & H3 & H4 & H5 & H6 & H7 & H8 & H9 & H10).
  cbn zeta in *.
  set (this2 := foldl add_validator this1 _) in *.
  unfold addChildren. rewrite H2. cbn [this1 validator].
  rewrite add_children_closed; [|done|].
  2:{ intros key _. rewrite H5. cbn. intros Hin. by apply elem_of_nil in Hin. }
  cbn [Name validator IsList ValidationResult Rules Validators Children
       CompositeValidationResult.Name CompositeValidationResult.Optional].
  rewrite H1, H2, H3, H4, H5, H6, H7. cbn [this1 Name validator IsList Rules Children
    ValidationResult CompositeValidationResult.Name CompositeValidationResult.Optional app].
  repeat (split; [done|]).
  assert (filter (fun name0 => name0 ∉ JsObject.keys (Validators this1))
                 (nub (AbstractValidator.Name
                         <$> concat (JsObject.values
                                       (AbstractValidator.ValidationFunctions declaration))))
          = nub (AbstractValidator.Name
                   <$> concat (JsObject.values
                                 (AbstractValidator.ValidationFunctions declaration)))) as Hall.
  { apply filter_all, Forall_forall. intros x _ Hin. by apply elem_of_nil in Hin. }
  rewrite Hall in H8, H9. cbn [this1 Validators JsObject.keys fmap list_fmap app] in H8.
  split; [done|]. split.
  { intros shared. rewrite H10. done. }
  unfold contributors at 1. cbn [ValidationResult CompositeValidationResult.Children].
  rewrite H9, H8. unfold contributors. cbn. by rewrite <-app_assoc.
Qed.

(** X11. The rule the constructor makes mirrors the declaration. For a
    declaration whose properties and whose nested declarations have
    distinct keys, the rule has one property rule per declared property, in
    the order of the declaration, each made of the validators declared for
    the property; one child per nested declaration, a list rule or an
    object rule as the declaration says; and a composite result whose
    contributors are the property rules, then the shared validators, then
    the children. A list rule starts with no property rule, no shared
    validator and no child, whatever the declaration. *)
Theorem constructor_mirrors_declaration
    (w : World) (declaration : AbstractValidator.t) (name : string) :
  NoDup (JsObject.keys (AbstractValidator.Validators declaration)) ->
  NoDup (JsObject.keys (AbstractValidator.AbstractValidators declaration)) ->
  let rule := CreateRule w declaration name in
  let items := CreateAbstractListRule w declaration name in
  (Name rule = name /\ validator rule = declaration /\ IsList rule = false) /\
  JsObject.keys (Rules rule) = JsObject.keys (AbstractValidator.Validators declaration) /\
  (forall prop,
     JsObject.get prop (Rules rule)
     = PropertyValidationRule.new w prop
         <$> JsObject.get prop (AbstractValidator.Validators declaration)) /\
  JsObject.keys (Children rule)
  = JsObject.keys (AbstractValidator.AbstractValidators declaration) /\
  (forall key,
     JsObject.get key (Children rule)
     = child_of w key <$> JsObject.get key (AbstractValidator.AbstractValidators declaration)) /\
  contributors rule
  = (CompositeValidationResult.OfRule <$> JsObject.keys (Rules rule))
    ++ (CompositeValidationResult.OfValidator <$> JsObject.keys (Validators rule))
    ++ (CompositeValidationResult.OfChild <$> JsObject.keys (Children rule)) /\
  (IsList items = true /\ Rules items = [] /\ Validators items = [] /\ Children items = [] /\
   contributors items = []).
Proof.
  intros Hnd1 Hnd2. cbn zeta. unfold CreateRule.
  destruct (new_closed w name declaration Hnd1 Hnd2)
    as (H1 & H2 & H3 & _ & _ & H4 & H5 & _ & _ & H6).
  cbn zeta in *. split; [done|]. rewrite H4, H5, !keys_fmap_entries.
  split; [done|]. split; [apply get_fmap_entries|]. split; [done|].
  split; [apply get_fmap_entries|]. split; [|done].
  rewrite H6. done.
Qed.

(** Witness for X11: the declaration of a person. *)
Lemma constructor_mirrors_declaration_witness :
  let rule := CreateRule Fixtures.world Fixtures.person "Main" in
  JsObject.keys (Rules rule) = ["Name"; "From"] /\
  JsObject.keys (Children rule) = ["Mobile"; "Phones"] /\
  contributors rule
  = (CompositeValidationResult.OfRule <$> JsObject.keys (Rules rule))
    ++ (CompositeValidationResult.OfValidator <$> JsObject.keys (Validators rule))
    ++ (CompositeValidationResult.OfChild <$> JsObject.keys (Children rule)).
Proof.
  destruct (constructor_mirrors_declaration Fixtures.world Fixtures.person "Main")
    as (_ & Hrules & _ & Hchildren & _ & Hcontributors & _).
  - apply (bool_decide_unpack _). vm_compute. exact I.
  - apply (bool_decide_unpack _). vm_compute. exact I.
  - split; [exact Hrules|]. split; [exact Hchildren|exact Hcontributors].
Defined.

(** X12. Of the validation functions declared under one name, the first
    is kept. When the declared names are plain keys (no array index, no
    name of a member of [Object.prototype]), the constructor makes one
    shared validator per declared name, in the order the names are first
    met when the declared functions are enumerated property by property,
    and the node of a name holds the first function declared under that
    name; a function declared later under the same name, for the same
    property or another, is in no node. *)
Theorem shared_validator_holds_first_declared_function
    (w : World) (declaration : AbstractValidator.t) (name : string) :
  Forall (fun fce => JsObject.plain (AbstractValidator.Name fce))
         (concat (JsObject.values (AbstractValidator.ValidationFunctions declaration))) ->
  let declared := concat (JsObject.values (AbstractValidator.ValidationFunctions declaration)) in
  let rule := CreateRule w declaration name in
  JsObject.keys (Validators rule) = nub (AbstractValidator.Name <$> declared) /\
  (forall shared,
     JsObject.get shared (Validators rule)
     = node_of <$> head (filter (fun fce => AbstractValidator.Name fce = shared) declared)) /\
  (forall shared node,
     JsObject.get shared (Validators rule) = Some node ->
     exists earlier fce later,
       declared = earlier ++ fce :: later /\
       AbstractValidator.Name fce = shared /\
       Forall (fun other => AbstractValidator.Name other ≠ shared) earlier /\
       Validator.ValidateFce node = AbstractValidator.ValidationFce fce).
Proof.
  intros _. cbn zeta. unfold CreateRule. rewrite new_unfold. unfold addChildren.
  destruct (add_children_keeps w
              (AbstractValidator.AbstractValidators
                 (validator (add_validators (add_rules w (initial name declaration false)))))
              (add_validators (add_rules w (initial name declaration false))))
    as (_ & _ & _ & ->).
  destruct (add_rules_keeps w (initial name declaration false)) as (_ & Hv & Hvs & _).
  unfold add_validators. rewrite Hv, foldl_concat. cbn [validator initial].
  destruct (add_validator_closed
              (concat (JsObject.values (AbstractValidator.ValidationFunctions declaration)))
              (add_rules w (initial name declaration false)))
    as (_ & _ & _ & _ & _ & _ & _ & Hkeys & _ & Hget).
  cbn zeta in *. rewrite Hvs in Hkeys, Hget. cbn [initial Validators JsObject.get] in Hkeys, Hget.
  assert (JsObject.keys
            (Validators
               (foldl add_validator (add_rules w (initial name declaration false))
                  (concat (JsObject.values (AbstractValidator.ValidationFunctions declaration)))))
          = nub (AbstractValidator.Name
                   <$> concat (JsObject.values
                                 (AbstractValidator.ValidationFunctions declaration)))) as Hkeys'.
  { rewrite Hkeys. cbn [JsObject.keys fmap list_fmap app].
    apply filter_all, Forall_forall. intros x _ Hin. by apply elem_of_nil in Hin. }
  split; [done|]. split; [done|].
  intros shared node Hnode. rewrite Hget in Hnode.
  destruct (head (filter _ _)) as [fce|] eqn:Hhead; [|done]. injection Hnode as <-.
  destruct (head_filter_Some _ _ _ Hhead) as (earlier & later & Hdecl & Hearlier).
  exists earlier, fce, later. split; [done|]. split; [|done].
  apply head_Some_elem_of, list_elem_of_filter in Hhead. tauto.
Qed.

(** Witness for X12: the declaration of a person, whose one shared
    validation is [dates]. *)
Lemma shared_validator_holds_first_declared_function_witness :
  let rule := CreateRule Fixtures.world Fixtures.person "Main" in
  JsObject.keys (Validators rule) = ["dates"] /\
  JsObject.get "dates" (Validators rule) = Some (node_of Fixtures.dates).
Proof.
  destruct (shared_validator_holds_first_declared_function Fixtures.world Fixtures.person "Main")
    as (Hkeys & Hget & _).
  - apply (bool_decide_unpack _). vm_compute. exact I.
  - split; [exact Hkeys|exact (Hget "dates")].
Defined.

(** ** The children of a list rule, index by index *)

Lemma getIndexedKey_inj (rule : t) (i j : nat) :
  getIndexedKey rule i = getIndexedKey rule j -> i = j.
Proof.
  unfold getIndexedKey. intros Heq%String.app_inj. by apply pretty_nat_inj in Heq.
Qed.

Lemma notify_indexed {L : Type} (m n : nat) (fr : frame L) :
  JsObject.keys (Children (this fr)) = getIndexedKey (this fr) <$> seq 0 m ->
  let fr' := (for_each (seq 0 n) notify_item fr).2 in
  Name (this fr') = Name (this fr) /\
  JsObject.keys (Children (this fr')) = getIndexedKey (this fr) <$> seq 0 (max m n) /\
  contributors (this fr')
  = contributors (this fr)
    ++ ((fun i => CompositeValidationResult.OfChild (getIndexedKey (this fr) i))
          <$> seq m (n - m)).
Proof.
  intros Hkeys. induction n as [|n IH]; cbn zeta.
  { cbn [seq for_each]. unfold ret. cbn [snd]. rewrite Nat.max_0_r. cbn.
    by rewrite app_nil_r. }
  rewrite seq_S, for_each_app. cbn [plus]. unfold bind.
  destruct (notify_all (seq 0 n) fr) as (Hnorm & _).
  cbn zeta in IH. destruct IH as (Hname & Hk & Hc).
  destruct (for_each (seq 0 n) notify_item fr) as [r fr1]. cbn [fst snd] in *. subst r.
  assert (forall i, getIndexedKey (this fr1) i = getIndexedKey (this fr) i) as Hsame.
  { intros i. unfold getIndexedKey. by rewrite Hname. }
  cbn [for_each]. unfold bind.
  destruct (decide (n < m)) as [Hlt|Hge].
  - assert (is_Some (getValidationRule (this fr1) n)) as [child Hchild].
    { unfold getValidationRule. apply keys_get_Some. rewrite Hk, Hsame.
      apply list_elem_of_fmap_2, elem_of_seq. lia. }
    assert (notify_item n fr1 = (Normal tt, fr1)) as ->.
    { unfold notify_item, bind, gets. by rewrite Hchild. }
    cbn [snd ret]. unfold ret. cbn [snd].
    replace (max m (S n)) with (max m n) by lia.
    replace (S n - m) with (n - m) by lia. done.
  - assert (getValidationRule (this fr1) n = None) as Hnone.
    { unfold getValidationRule. apply get_None_keys. rewrite Hk, Hsame.
      intros (i & Hi & Hin)%list_elem_of_fmap. apply getIndexedKey_inj in Hi as <-.
      apply elem_of_seq in Hin. lia. }
    rewrite notify_one by done. unfold ret. cbn [snd this].
    unfold add_child, Add. cbn [Name Children set_Children set_ValidationResult].
    split; [done|]. split.
    + rewrite keys_set_None by done. rewrite Hk, Hsame.
      replace (max m n) with n by lia. replace (max m (S n)) with (S n) by lia.
      by rewrite seq_S, fmap_app.
    + unfold contributors in *. cbn. rewrite Hc, Hsame.
      replace (S n - m) with (S (n - m)) by lia. rewrite seq_S, fmap_app, app_assoc.
      cbn. replace (m + (n - m)) with n by lia. done.
Qed.

(** The loop of [ValidateAsync] of the list class works on the children
    there are: it adds none, drops none and leaves the composite result
    alone. *)
Lemma validateAsync_items_keep_children (rec : M state (promise unit)) (indices : list nat)
    (fr : frame (list (promise unit))) :
  let fr' := (for_each indices (validateAsync_item rec) fr).2 in
  JsObject.keys (Children (this fr')) = JsObject.keys (Children (this fr)) /\
  ValidationResult (this fr') = ValidationResult (this fr).
Proof.
  cbn zeta.
  apply (for_each_inv (fun fr' =>
           JsObject.keys (Children (this fr')) = JsObject.keys (Children (this fr)) /\
           ValidationResult (this fr') = ValidationResult (this fr))); [|done].
  intros i s _ [Hkeys Hresult].
  unfold validateAsync_item, push, on_locals, bind, gets, lift, modify.
  destruct (getValidationRule (this s) i) as [child|] eqn:Hchild; [|done].
  destruct (getIndex (data s) i) as [item|e]; [|done]. cbn [fst snd].
  unfold in_child. unfold getValidationRule in Hchild. rewrite Hchild.
  destruct (rec _) as [[p|e] s1]; cbn [fst snd this set_Children Children ValidationResult];
    (split; [|done]); rewrite <-Hkeys; apply keys_set_Some; eauto.
Qed.

Lemma ValidateAsync_list_this sched fuel (rule : t) (items : list value) w :
  IsList rule = true ->
  this (ValidateAsync sched (S fuel) (mkFrame rule (VArr items) w tt)).2
  = this (for_each (seq 0 (length items)) (validateAsync_item (ValidateAsync sched fuel))
            (for_each (seq 0 (length items)) notify_item (mkFrame rule (VArr items) w [])).2).2.
Proof.
  intros Hlist. cbn [ValidateAsync]. unfold call. cbn [this data world].
  unfold bind at 1, gets at 1. cbn [this]. rewrite Hlist.
  unfold bind at 1. unfold bind at 1, gets at 1. cbn [data].
  unfold bind at 1, NotifyListChanged, bind at 1, lift at 1. cbn [getLength].
  destruct (notify_all (seq 0 (length items)) (mkFrame rule (VArr items) w ([] : list (promise unit))))
    as (Hnorm & _ & Hdata & _).
  destruct (for_each (seq 0 (length items)) notify_item _) as [r fr1].
  cbn [fst snd] in *. subst r. unfold bind at 1, lift at 1. cbn [getLength].
  destruct (for_each (seq 0 (length items)) _ fr1) as [[[]|e] fr2]; cbn [snd this]; [|done].
  unfold bind, gets, ret. done.
Qed.

(** X13. A list rule holds one child per index, up to the length of the
    longest list it has seen. When its children are those of the indices
    below [m], [Validate] on a list leaves it with the children of the
    indices below the larger of [m] and the length of the list, keyed by
    the name of the rule followed by the index, in the order of the
    indices; the contributors added are those of the new indices; and
    different indices never share a key. [ValidateAsync] does the same to
    the children and the contributors. This holds however the calls
    end. *)
Theorem list_rule_children_are_indexed
    (sched : schedule) (fuel : nat) (rule : t) (items : list value) (w : World) (m : nat) :
  IsList rule = true ->
  JsObject.keys (Children rule) = getIndexedKey rule <$> seq 0 m ->
  let indexed (rule' : t) :=
    JsObject.keys (Children rule')
    = (fun i => Name rule +:+ pretty i) <$> seq 0 (max m (length items)) /\
    contributors rule'
    = contributors rule
      ++ ((fun i => CompositeValidationResult.OfChild (Name rule +:+ pretty i))
            <$> seq m (length items - m)) /\
    NoDup (JsObject.keys (Children rule')) in
  indexed (this (Validate (S fuel) (mkFrame rule (VArr items) w tt)).2) /\
  indexed (this (ValidateAsync sched (S fuel) (mkFrame rule (VArr items) w tt)).2) /\
  (forall i j, getIndexedKey rule i = getIndexedKey rule j -> i = j).
Proof.
  intros Hlist Hkeys indexed.
  assert (forall rule' : t,
            JsObject.keys (Children rule')
            = (fun i => Name rule +:+ pretty i) <$> seq 0 (max m (length items)) ->
            contributors rule'
            = contributors rule
              ++ ((fun i => CompositeValidationResult.OfChild (Name rule +:+ pretty i))
                    <$> seq m (length items - m)) ->
            indexed rule') as Hindexed.
  { intros rule' Hk Hc. split; [done|]. split; [done|].
    rewrite Hk. apply NoDup_fmap_2_strong; [|apply NoDup_seq].
    intros i j _ _ Hij. by apply (getIndexedKey_inj rule). }
  split; [|split; [|apply getIndexedKey_inj]].
  - rewrite Validate_list_unfold by done.
    set (fr0 := mkFrame rule (VArr items) w tt).
    destruct (notify_indexed m (length items) fr0 Hkeys) as (_ & Hk & Hc). cbn zeta in *.
    set (fr1 := (for_each (seq 0 (length items)) notify_item fr0).2) in *.
    assert (children_worked fuel fr1
              (for_each (seq 0 (length items)) (validate_item (Validate fuel)) fr1).2) as Hworked.
    { assert (respects (children_worked fuel)
                (for_each (seq 0 (length items)) (validate_item (L:=unit) (Validate fuel))))
        as Hresp; [|apply Hresp].
      apply respects_for_each;
        [apply children_worked_refl|apply children_worked_trans|].
      intros i _. apply validate_item_worked. }
    apply Hindexed.
    + rewrite (worked_keys _ _ _ Hworked), Hk. done.
    + unfold contributors in *. rewrite (worked_ValidationResult _ _ _ Hworked), Hc. done.
  - rewrite ValidateAsync_list_this by done.
    set (fr0 := mkFrame rule (VArr items) w ([] : list (promise unit))).
    destruct (notify_indexed m (length items) fr0 Hkeys) as (_ & Hk & Hc). cbn zeta in *.
    set (fr1 := (for_each (seq 0 (length items)) notify_item fr0).2) in *.
    destruct (validateAsync_items_keep_children (ValidateAsync sched fuel)
                (seq 0 (length items)) fr1) as [Hk' Hr'].
    apply Hindexed.
    + rewrite Hk', Hk. done.
    + unfold contributors in *. rewrite Hr', Hc. done.
Qed.

(** Witness for X13: a new list rule for phones on a list of two. *)
Lemma list_rule_children_are_indexed_witness :
  let rule := CreateAbstractListRule Fixtures.world Fixtures.phone "Phones" in
  let items := [VObj [("Code", VStr "A")]; VObj [("Code", VStr "Z")]] in
  let rule' := this (Validate 2 (mkFrame rule (VArr items) Fixtures.world tt)).2 in
  JsObject.keys (Children rule') = ["Phones0"; "Phones1"] /\
  contributors rule'
  = [CompositeValidationResult.OfChild "Phones0"; CompositeValidationResult.OfChild "Phones1"].
Proof.
  destruct (list_rule_children_are_indexed in_order 1
              (CreateAbstractListRule Fixtures.world Fixtures.phone "Phones")
              [VObj [("Code", VStr "A")]; VObj [("Code", VStr "Z")]] Fixtures.world 0)
    as ((Hkeys & Hcontributors & _) & _).
  - reflexivity.
  - reflexivity.
  - split; [exact Hkeys|exact Hcontributors].
Defined.

(** ** What evaluation does to the data context *)

Lemma data_kept_refl {L : Type} (fr : frame L) : data_kept fr fr.
Proof. done. Qed.

Lemma data_kept_trans {L : Type} (fr1 fr2 fr3 : frame L) :
  data_kept fr1 fr2 -> data_kept fr2 fr3 -> data_kept fr1 fr3.
Proof. unfold data_kept. congruence. Qed.

Ltac data_steps :=
  repeat respects_step @data_kept_refl @data_kept_trans;
  try (by unfold data_kept).

Lemma in_rule_data {L A : Type} prop (m : M PropertyValidationRule.state A) :
  respects data_kept (in_rule (L:=L) prop m).
Proof.
  intros fr. unfold in_rule, data_kept.
  destruct (JsObject.get prop (Rules (this fr))) as [rule|]; [|done].
  by destruct (m _) as [r s].
Qed.

Lemma in_validator_data {L A : Type} name (m : M Validator.t A) :
  respects data_kept (in_validator (L:=L) name m).
Proof.
  intros fr. unfold in_validator, data_kept.
  destruct (JsObject.get name (Validators (this fr))) as [node|]; [|done].
  by destruct (m node) as [r node'].
Qed.

Lemma call_data {L A : Type} (init : L) (m : M (frame L) A) :
  respects data_kept m -> respects data_kept (call init m).
Proof.
  intros Hm s. unfold call. specialize (Hm (mkFrame (this s) (data s) (world s) init)).
  destruct (m _) as [r fr]. exact Hm.
Qed.

Lemma NotifyListChanged_data {L : Type} (items : value) :
  respects data_kept (NotifyListChanged (L:=L) items).
Proof.
  unfold NotifyListChanged, notify_item. data_steps. destruct a0; data_steps.
Qed.

Lemma validate_shared_data {L : Type} valFunctions :
  respects data_kept (validate_shared (L:=L) valFunctions).
Proof.
  unfold validate_shared. data_steps. destruct a; data_steps. apply in_validator_data.
Qed.

Lemma validate_rule_data {L : Type} propName :
  respects data_kept (validate_rule (L:=L) propName).
Proof. unfold validate_rule. data_steps. apply in_rule_data. Qed.

Lemma validateAsync_rule_data sched propName :
  respects data_kept (validateAsync_rule sched propName).
Proof. unfold validateAsync_rule, push, on_locals. data_steps. apply in_rule_data. Qed.

(** A nested object put back where it was read from, as it was read. *)
Lemma put_prop_same key (context : value) :
  put_prop key context (default VUndefined
                          (match context with
                           | VObj props => JsObject.get key props
                           | _ => None
                           end)) = context.
Proof.
  destruct context as [| | | | |props|]; try done. cbn. f_equal.
  apply alter_id. by intros x ->.
Qed.

Lemma put_index_same i (items : list value) :
  put_index i (VArr items) (default VUndefined (items !! i)) = VArr items.
Proof.
  unfold put_index, setIndex. f_equal.
  destruct (items !! i) as [x|] eqn:Hi; cbn.
  - by apply list_insert_id.
  - apply list_insert_ge. by apply lookup_ge_None.
Qed.

Lemma validateAsync_child_data (rec : M state (promise unit)) key :
  respects data_kept rec -> respects data_kept (validateAsync_child rec key).
Proof.
  intros Hrec fr. unfold validateAsync_child, push, on_locals, bind, gets, lift, modify.
  destruct (data fr) as [| | | | |props|] eqn:Hdata; cbn [getProp]; try done.
  unfold in_child. destruct (JsObject.get key (Children (this fr))) as [child|]; [|done].
  specialize (Hrec (mkFrame child (default VUndefined (JsObject.get key props)) (world fr) tt)).
  unfold data_kept in *. destruct (rec _) as [[p|e] s]; cbn [snd data] in *;
    rewrite Hrec, Hdata; apply (put_prop_same key (VObj props)).
Qed.

Lemma validateAsync_item_data (rec : M state (promise unit)) i :
  respects data_kept rec -> respects data_kept (validateAsync_item rec i).
Proof.
  intros Hrec fr. unfold validateAsync_item, push, on_locals, bind, gets, lift, modify.
  destruct (getValidationRule (this fr) i); [|done].
  destruct (data fr) as [| | | | | |items] eqn:Hdata; cbn [getIndex]; try done.
  unfold in_child. destruct (JsObject.get _ (Children (this fr))) as [child|]; [|done].
  specialize (Hrec (mkFrame child (default VUndefined (items !! i)) (world fr) tt)).
  unfold data_kept in *. destruct (rec _) as [[p|e] s]; cbn [snd data] in *;
    rewrite Hrec, Hdata; apply put_index_same.
Qed.

Lemma ValidateAsync_data sched fuel : respects data_kept (ValidateAsync sched fuel).
Proof.
  induction fuel as [|fuel IH]; cbn [ValidateAsync]; data_steps.
  apply call_data. data_steps.
  destruct a; data_steps.
  - apply NotifyListChanged_data.
  - by apply validateAsync_item_data.
  - by apply validateAsync_child_data.
  - apply validateAsync_rule_data.
Qed.

(** X14. The asynchronous evaluation of a rule tree never writes to the
    data context: whatever the tree and the data, and however the call
    ends, the context and everything nested in it are the same after
    [ValidateAsync] as before. *)
Theorem asynchronous_evaluation_leaves_the_data
    (sched : schedule) (fuel : nat) (s : state) :
  data (ValidateAsync sched fuel s).2 = data s.
Proof. apply ValidateAsync_data. Qed.

(** ** The synchronous evaluation and the data context *)

Lemma context_kept_but_refl keys context : context_kept_but keys context context.
Proof. destruct context; cbn; eauto. Qed.

Lemma context_kept_but_trans keys c1 c2 c3 :
  context_kept_but keys c1 c2 -> context_kept_but keys c2 c3 -> context_kept_but keys c1 c3.
Proof.
  destruct c1 as [| | | | |props|items]; cbn; try (by intros ->).
  - intros (props2 & -> & H2). cbn. intros (props3 & -> & H3). exists props3.
    split; [done|]. intros key Hkey. by rewrite H3, H2.
  - intros (items2 & -> & H2). cbn. intros (items3 & -> & H3). exists items3.
    split; [done|]. congruence.
Qed.

Lemma context_kept_refl {L : Type} keys (fr : frame L) :
  context_kept_but keys (data fr) (data fr).
Proof. apply context_kept_but_refl. Qed.

Lemma context_kept_trans {L : Type} keys (fr1 fr2 fr3 : frame L) :
  context_kept_but keys (data fr1) (data fr2) -> context_kept_but keys (data fr2) (data fr3) ->
  context_kept_but keys (data fr1) (data fr3).
Proof. apply context_kept_but_trans. Qed.

Lemma data_kept_context {L A : Type} keys (m : M (frame L) A) :
  respects data_kept m ->
  respects (fun fr fr' => context_kept_but keys (data fr) (data fr')) m.
Proof. intros Hm fr. rewrite (Hm fr). apply context_kept_but_refl. Qed.

Lemma in_child_prop_context {L A : Type} keys key item (m : M state A) (fr : frame L) :
  key ∈ keys ->
  context_kept_but keys (data fr) (data (in_child key item (put_prop key) m fr).2).
Proof.
  intros Hkey. unfold in_child.
  destruct (JsObject.get key (Children (this fr))) as [child|]; [|apply context_kept_but_refl].
  destruct (m _) as [r s]. cbn [snd data].
  destruct (data fr) as [| | | | |props|items]; cbn; eauto.
  eexists. split; [done|]. intros k Hk. apply get_alter_ne. by intros ->.
Qed.

Lemma validate_child_context {L : Type} keys (rec : M state unit) key :
  key ∈ keys ->
  respects (fun fr fr' : frame L => context_kept_but keys (data fr) (data fr'))
           (validate_child rec key).
Proof.
  intros Hkey fr. unfold validate_child, on_data, bind, gets, lift, modify, ret.
  destruct (data fr) as [| | | | |props|items] eqn:Hdata; cbn [getProp fst snd];
    try (rewrite Hdata; apply context_kept_but_refl).
  destruct (is_undefined (default VUndefined (JsObject.get key props))).
  - cbn [setProp data getProp].
    eapply context_kept_but_trans; [|by apply in_child_prop_context].
    cbn [data]. eexists. split; [done|]. intros k Hk. apply get_set_ne. by intros ->.
  - rewrite Hdata. cbn [getProp]. rewrite <-Hdata. by apply in_child_prop_context.
Qed.

Lemma validate_item_context {L : Type} keys (rec : M state unit) i :
  respects (fun fr fr' : frame L => context_kept_but keys (data fr) (data fr'))
           (validate_item rec i).
Proof.
  unfold validate_item.
  repeat respects_step (@context_kept_refl L keys) (@context_kept_trans L keys).
  destruct a; repeat respects_step (@context_kept_refl L keys) (@context_kept_trans L keys).
  intros fr. unfold in_child.
  destruct (JsObject.get a (Children (this fr))) as [child|]; [|apply context_kept_but_refl].
  destruct (rec _) as [r s]. cbn [snd data]. unfold put_index, setIndex.
  destruct (data fr) as [| | | | |props|items]; cbn; eauto.
  eexists. split; [done|]. apply length_insert.
Qed.

(** X15. The synchronous evaluation of a rule writes to the data context
    only where the rule has a child: after [Validate], an object context
    has the same properties as before, with the same values, but for the
    properties named by the children (which [Validate] initialises when
    they are undefined and hands to the children); a list context has as
    many elements as before; any other context is untouched. This holds
    however the call ends. *)
Theorem synchronous_evaluation_writes_child_properties_only (fuel : nat) (s : state) :
  context_kept_but (JsObject.keys (Children (this s))) (data s) (data (Validate fuel s).2).
Proof.
  set (keys := JsObject.keys (Children (this s))).
  destruct fuel as [|fuel]; [apply context_kept_but_refl|].
  cbn [Validate]. unfold bind at 1, gets at 1.
  destruct (IsList (this s)).
  - assert (respects (fun fr fr' : state => context_kept_but keys (data fr) (data fr'))
              (context <- gets data ;;
               NotifyListChanged context ;;;
               length <- lift (getLength context) ;;
               for_each (seq 0 length) (validate_item (Validate fuel)))%js) as Hresp;
      [|apply Hresp].
    repeat respects_step (@context_kept_refl unit keys) (@context_kept_trans unit keys).
    + apply data_kept_context, NotifyListChanged_data.
    + apply validate_item_context.
  - unfold bind at 1, gets at 1. fold keys.
    assert (respects (fun fr fr' : state => context_kept_but keys (data fr) (data fr'))
              (for_each keys (validate_child (Validate fuel)) ;;;
               props <- gets (fun fr => JsObject.keys (Rules (this fr))) ;;
               for_each props validate_rule ;;;
               declared <- gets (fun fr =>
                 JsObject.values (AbstractValidator.ValidationFunctions (validator (this fr)))) ;;
               for_each declared validate_shared)%js) as Hresp;
      [|apply Hresp].
    apply respects_bind; [apply context_kept_trans| |intros _].
    { apply respects_for_each; [apply context_kept_refl|apply context_kept_trans|].
      intros key Hkey. by apply validate_child_context. }
    repeat respects_step (@context_kept_refl unit keys) (@context_kept_trans unit keys).
    + apply data_kept_context, validate_rule_data.
    + apply data_kept_context, validate_shared_data.
Qed.

(** X16. A targeted evaluation and the data context. [ValidateField] for
    the property [P] writes to the context at [P] at most, and only
    through the child of [P]; unlike [Validate] it does not initialise an
    undefined nested property. For a property that has no child, no
    property rule and no declared shared validation, and whose name is not
    the name of a member of [Object.prototype], it does nothing at all and
    ends normally. *)
Theorem ValidateField_and_the_data
    (sched : schedule) (fuel : nat) (P : string) (s : state) :
  context_kept_but [P] (data s) (data (ValidateField sched fuel P s).2) /\
  (JsObject.get P (Children (this s)) = None ->
   data (ValidateField sched fuel P s).2 = data s) /\
  (P ∉ JsObject.Object_prototype ->
   JsObject.get P (Children (this s)) = None ->
   JsObject.get P (Rules (this s)) = None ->
   JsObject.get P (AbstractValidator.ValidationFunctions (validator (this s))) = None ->
   ValidateField sched fuel P s = (Normal tt, s)).
Proof.
  assert (forall childRule : option t,
            respects (fun fr fr' : state => context_kept_but [P] (data fr) (data fr'))
              (match childRule with
               | Some _ =>
                   context <- gets data ;;
                   item <- lift (getProp context P) ;;
                   in_child P item (put_prop P) (Validate fuel)
               | None => ret ()
               end)%js) as Hchild.
  { intros [child|];
      repeat respects_step (@context_kept_refl unit [P]) (@context_kept_trans unit [P]).
    intros fr. apply in_child_prop_context. apply list_elem_of_here. }
  assert (respects (@data_kept unit unit)
            (rule <- gets (fun fr => JsObject.get P (Rules (this fr))) ;;
             match rule with
             | None => ret tt
             | Some _ =>
                 context <- gets data ;;
                 in_rule P
                   (PropertyValidationRule.Validate (ValidationContext.mk P context)) ;;;
                 in_rule P
                   (PropertyValidationRule.ValidateAsync sched (ValidationContext.mk P context)) ;;;
                 ret tt
             end ;;;
             validationFces <- gets (fun fr =>
               JsObject.get P (AbstractValidator.ValidationFunctions (validator (this fr)))) ;;
             match validationFces with
             | None => ret tt
             | Some validationFces => validate_shared validationFces
             end)%js) as Hrest.
  { data_steps.
    - destruct a; data_steps; apply in_rule_data.
    - destruct a1; data_steps. apply validate_shared_data. }
  split; [|split].
  - unfold ValidateField. apply (respects_bind _ (context_kept_trans [P])).
    + apply respects_gets, context_kept_refl.
    + intros childRule. apply (respects_bind _ (context_kept_trans [P])); [apply Hchild|].
      intros _. by apply data_kept_context.
  - intros Hnone. unfold ValidateField. unfold bind at 1, gets at 1. rewrite Hnone.
    unfold bind at 1, ret at 1. apply Hrest.
  - intros _ Hc Hr Hf. unfold ValidateField, bind, gets, ret. by rewrite Hc, Hr, Hf.
Qed.

(** Witness for X16: a person, for a property the declaration does not
    mention. *)
Lemma ValidateField_and_the_data_witness :
  let s := mkFrame Fixtures.person_rule Fixtures.person_data Fixtures.world tt in
  data (ValidateField in_order 3 "Name" s).2 = data s /\
  ValidateField in_order 3 "Nickname" s = (Normal tt, s).
Proof.
  destruct (ValidateField_and_the_data in_order 3 "Name"
              (mkFrame Fixtures.person_rule Fixtures.person_data Fixtures.world tt))
    as (_ & Hdata & _).
  destruct (ValidateField_and_the_data in_order 3 "Nickname"
              (mkFrame Fixtures.person_rule Fixtures.person_data Fixtures.world tt))
    as (_ & _ & Hidle).
  split.
  - apply Hdata. reflexivity.
  - apply Hidle; [|reflexivity..]. apply (bool_decide_unpack _). vm_compute. exact I.
Defined.

(** ** What Validate leaves in a property rule of the node *)

Lemma rules_kept_refl {L : Type} (fr : frame L) : rules_kept fr fr.
Proof. done. Qed.

Lemma rules_kept_trans {L : Type} (fr1 fr2 fr3 : frame L) :
  rules_kept fr1 fr2 -> rules_kept fr2 fr3 -> rules_kept fr1 fr3.
Proof. unfold rules_kept. congruence. Qed.

Ltac rules_steps :=
  repeat respects_step @rules_kept_refl @rules_kept_trans;
  try (by unfold rules_kept).

Lemma in_child_rules {L A : Type} key item store (m : M state A) :
  respects rules_kept (in_child (L:=L) key item store m).
Proof.
  intros fr. unfold in_child, rules_kept.
  destruct (JsObject.get key (Children (this fr))) as [child|]; [|done].
  by destruct (m _) as [r s].
Qed.

Lemma in_validator_rules {L A : Type} name (m : M Validator.t A) :
  respects rules_kept (in_validator (L:=L) name m).
Proof.
  intros fr. unfold in_validator, rules_kept.
  destruct (JsObject.get name (Validators (this fr))) as [node|]; [|done].
  by destruct (m node) as [r node'].
Qed.

Lemma validate_child_rules {L : Type} (rec : M state unit) key :
  respects rules_kept (validate_child (L:=L) rec key).
Proof.
  unfold validate_child, on_data. rules_steps.
  - destruct (is_undefined a0); rules_steps.
  - apply in_child_rules.
Qed.

Lemma validate_shared_rules {L : Type} valFunctions :
  respects rules_kept (validate_shared (L:=L) valFunctions).
Proof.
  unfold validate_shared. rules_steps. destruct a; rules_steps. apply in_validator_rules.
Qed.

(** A property rule whose [Validate] ends normally has run [ValidateEx]
    on the value of the property to its normal end. *)
Lemma property_Validate_normal context (s : PropertyValidationRule.state) failures :
  (PropertyValidationRule.Validate context s).1 = Normal failures ->
  exists v, ValidationContext.Value context = Normal v /\
            PropertyValidationRule.ValidateEx v s = PropertyValidationRule.Validate context s.
Proof.
  unfold PropertyValidationRule.Validate, try_catch, bind, lift.
  destruct (ValidationContext.Value context) as [v|e]; [|done].
  intros Hn. exists v. split; [done|].
  by destruct (PropertyValidationRule.ValidateEx v s) as [[fs|e] s'].
Qed.

(** One iteration of the second loop of [Validate], seen from the rule of
    the property [P]. *)
Lemma validate_rule_step {L : Type} y (fr : frame L) :
  let fr' := (validate_rule y fr).2 in
  data fr' = data fr /\
  validators_kept (world fr) (world fr') /\
  (forall P, P ≠ y -> JsObject.get P (Rules (this fr')) = JsObject.get P (Rules (this fr))) /\
  (forall rule, JsObject.get y (Rules (this fr)) = Some rule ->
     let run := PropertyValidationRule.Validate (ValidationContext.mk y (data fr))
                  (PropertyValidationRule.mkFrame rule (world fr) tt) in
     JsObject.get y (Rules (this fr')) = Some (PropertyValidationRule.this run.2) /\
     ((validate_rule y fr).1 = Normal tt -> exists failures, run.1 = Normal failures)).
Proof.
  cbn zeta. unfold validate_rule, bind, gets, in_rule, ret.
  destruct (JsObject.get y (Rules (this fr))) as [rule|] eqn:Hrule.
  - pose proof (Validate_kept (ValidationContext.mk y (data fr))
                  (PropertyValidationRule.mkFrame rule (world fr) tt)) as Hk.
    destruct (PropertyValidationRule.Validate _ _) as [[failures|e] s1] eqn:E; cbn [fst snd] in *.
    + split; [done|]. split; [apply (kept_validators _ _ Hk)|]. split.
      * intros P HP. cbn. by apply get_set_ne.
      * intros rule0 [= <-]. rewrite E. cbn. rewrite get_set_eq. split; [done|].
        intros _. by eexists.
    + split; [done|]. split; [apply (kept_validators _ _ Hk)|]. split.
      * intros P HP. cbn. by apply get_set_ne.
      * intros rule0 [= <-]. rewrite E. cbn. rewrite get_set_eq. split; [done|]. done.
  - split; [done|]. split; [apply validators_kept_refl|]. split; [done|]. done.
Qed.

(** X17. [Validate] on an object leaves, in the property rule of each
    declared property, the outcome of the validators of that property on
    the value of the property. For a property [P] that is not also the key
    of a child, when the call ends normally the slot of each synchronous
    validator of [P] holds [HasError] as that validator decides it on
    [context[P]] (undefined when the context has no such property), and
    the arguments naming the validator. *)
Theorem Validate_records_the_outcomes_of_a_property
    (fuel : nat) (s : state) (props : obj value) (P : string)
    (rule : PropertyValidationRule.t) (index : string) (ref : nat) :
  IsList (this s) = false ->
  data s = VObj props ->
  P ∉ JsObject.keys (Children (this s)) ->
  JsObject.get P (Rules (this s)) = Some rule ->
  rule_wf (world s) rule ->
  JsObject.get index (PropertyValidationRule.Validators rule) = Some ref ->
  isAsync (heap (world s) ref) = false ->
  let run := Validate (S fuel) s in
  run.1 = Normal tt ->
  exists rule' failure,
    JsObject.get P (Rules (this run.2)) = Some rule' /\
    JsObject.get index (PropertyValidationRule.ValidationFailures rule') = Some failure /\
    Err.HasError (Err.Error failure)
    = hasError_of (heap (world s) ref) (default VUndefined (JsObject.get P props)) /\
    Err.TranslateArgs (Err.Error failure)
    = Some {| Err.TranslateId := index; Err.MessageArgs := ref |}.
Proof.
  intros Hlist Hdata HP Hrule Hwf Hv Hsync. cbn zeta.
  set (v := default VUndefined (JsObject.get P props)).
  destruct (rule_wf_validator _ _ _ _ Hwf Hv) as [Htag Hslot]. rewrite Hsync in Hslot.
  cbn [Validate]. unfold bind, gets. rewrite Hlist.
  set (keys := JsObject.keys (Children (this s))) in *.
  (* the children *)
  set (children := for_each keys (validate_child (L:=unit) (Validate fuel))).
  assert (rules_kept s (children s).2) as Hrules1.
  { assert (respects rules_kept children) as Hresp; [|apply Hresp].
    apply respects_for_each; [apply rules_kept_refl|apply rules_kept_trans|].
    intros key _. apply validate_child_rules. }
  assert (tree_world_kept s (children s).2) as Hworld1.
  { assert (respects tree_world_kept children) as Hresp; [|apply Hresp].
    apply respects_for_each; [apply tree_world_kept_refl'|apply tree_world_kept_trans|].
    intros key _. apply validate_child_world, Validate_world. }
  assert (context_kept_but keys (data s) (data (children s).2)) as Hdata1.
  { assert (respects (fun fr fr' : state => context_kept_but keys (data fr) (data fr')) children)
      as Hresp; [|apply Hresp].
    apply respects_for_each; [apply context_kept_refl|apply context_kept_trans|].
    intros key Hkey. by apply validate_child_context. }
  rewrite Hdata in Hdata1. destruct Hdata1 as (props1 & Hdata1 & Hsame).
  destruct (children s) as [[[]|e] fr1]; [|done].
  cbn [fst snd] in *. unfold rules_kept, tree_world_kept in *.
  (* the property rules *)
  set (rules := for_each (JsObject.keys (Rules (this fr1))) (validate_rule (L:=unit))).
  set (I := fun fr : state =>
              data fr = VObj props1 /\ validators_kept (world s) (world fr) /\
              exists ruleP,
                JsObject.get P (Rules (this fr)) = Some ruleP /\
                PropertyValidationRule.Validators ruleP = PropertyValidationRule.Validators rule /\
                Err.IsAsync <$> JsObject.get index (PropertyValidationRule.ValidationFailures ruleP)
                = Some false).
  set (Q := fun fr : state =>
              exists rule' failure,
                JsObject.get P (Rules (this fr)) = Some rule' /\
                JsObject.get index (PropertyValidationRule.ValidationFailures rule') = Some failure /\
                Err.HasError (Err.Error failure) = hasError_of (heap (world s) ref) v /\
                Err.TranslateArgs (Err.Error failure)
                = Some {| Err.TranslateId := index; Err.MessageArgs := ref |}).
  assert (I fr1) as HI1.
  { split; [done|]. split; [done|]. exists rule. rewrite Hrules1. done. }
  assert (forall y fr, I fr -> I (validate_rule y fr).2) as HI.
  { intros y fr (Hd & Hw & ruleP & HruleP & HvP & HaP).
    destruct (validate_rule_step y fr) as (Hd' & Hw' & Hother & Hown). cbn zeta in *.
    split; [congruence|]. split; [by eapply validators_kept_trans|].
    destruct (decide (P = y)) as [<-|Hne].
    - destruct (Hown ruleP HruleP) as [Hget _]. eexists. split; [exact Hget|].
      pose proof (Validate_kept (ValidationContext.mk P (data fr))
                    (PropertyValidationRule.mkFrame ruleP (world fr) tt)) as Hk.
      rewrite (kept_Validators _ _ Hk), (kept_IsAsync _ _ Hk). done.
    - exists ruleP. by rewrite Hother. }
  assert (forall fr, I fr -> (validate_rule P fr).1 = Normal tt -> Q (validate_rule P fr).2)
    as Hest.
  { intros fr (Hd & Hw & ruleP & HruleP & HvP & HaP) Hnorm.
    destruct (validate_rule_step P fr) as (_ & _ & _ & Hown). cbn zeta in *.
    destruct (Hown ruleP HruleP) as [Hget Hrun]. destruct (Hrun Hnorm) as [failures Hfs].
    destruct (property_Validate_normal _ _ _ Hfs) as (v' & Hvalue & Hex).
    assert (v' = v) as ->.
    { unfold ValidationContext.Value in Hvalue. cbn in Hvalue. rewrite Hd in Hvalue.
      cbn in Hvalue. injection Hvalue as <-. unfold v. rewrite Hsame; done. }
    rewrite <-Hex in Hget, Hfs.
    destruct (ValidateEx_slot v (PropertyValidationRule.mkFrame ruleP (world fr) tt) index ref)
      as [(failure & Hf & Hh & Ht & _) _].
    - eauto.
    - done.
    - cbn. by rewrite HvP.
    - exists (PropertyValidationRule.this
                (PropertyValidationRule.ValidateEx v
                   (PropertyValidationRule.mkFrame ruleP (world fr) tt)).2), failure.
      split; [done|]. split; [done|]. cbn [PropertyValidationRule.world] in *.
      rewrite Hh, Ht, (hasError_of_kept _ _ _ _ Hw). split; [done|].
      destruct (Hw ref) as (-> & _). by rewrite Htag. }
  assert (Q (rules fr1).2 \/ (rules fr1).1 ≠ Normal tt) as Hafter.
  { destruct ((rules fr1).1) as [[]|e] eqn:Hn; [left|by right].
    apply (for_each_establish I Q _ _ P); try done.
    - rewrite Hrules1. by eapply get_Some_keys.
    - intros y fr HIfr HQ Hnorm. destruct (decide (y = P)) as [->|Hne]; [by apply Hest|].
      destruct (validate_rule_step y fr) as (_ & _ & Hother & _). cbn zeta in *.
      destruct HQ as (rule' & failure & Hget & Hrest).
      exists rule', failure. by rewrite Hother. }
  destruct (rules fr1) as [[[]|e] fr2]; cbn [fst snd] in *; [|done].
  destruct Hafter as [HQ|]; [|done].
  (* the shared validators *)
  intros Hnorm.
  assert (rules_kept fr2
            (for_each (JsObject.values
                         (AbstractValidator.ValidationFunctions (validator (this fr2))))
                      (validate_shared (L:=unit)) fr2).2) as Hrules3.
  { assert (respects (@rules_kept unit unit)
              (for_each (JsObject.values
                           (AbstractValidator.ValidationFunctions (validator (this fr2))))
                        validate_shared)) as Hresp; [|apply Hresp].
    apply respects_for_each; [apply rules_kept_refl|apply rules_kept_trans|].
    intros fces _. apply validate_shared_rules. }
  unfold rules_kept in Hrules3. rewrite Hrules3. exact HQ.
Qed.

(** Witness for X17: the name of a person, which is empty. *)
Lemma Validate_records_the_outcomes_of_a_property_witness :
  let s := mkFrame Fixtures.person_rule Fixtures.person_data Fixtures.world tt in
  exists rule' failure,
    JsObject.get "Name" (Rules (this (Validate 3 s).2)) = Some rule' /\
    JsObject.get "required" (PropertyValidationRule.ValidationFailures rule') = Some failure /\
    Err.HasError (Err.Error failure) = hasError_of Fixtures.required (VStr "") /\
    Err.TranslateArgs (Err.Error failure)
    = Some {| Err.TranslateId := "required"; Err.MessageArgs := 0 |}.
Proof.
  apply (Validate_records_the_outcomes_of_a_property 2
           (mkFrame Fixtures.person_rule Fixtures.person_data Fixtures.world tt)
           [("Name", VStr ""); ("From", VStr "soon");
            ("Mobile", VObj [("Code", VStr "+420")]);
            ("Phones", VArr [VObj [("Code", VStr "A")]])]
           "Name" (PropertyValidationRule.new Fixtures.world "Name" [0]) "required" 0).
  - reflexivity.
  - reflexivity.
  - vm_compute. intros Hin. repeat (apply elem_of_cons in Hin as [Hin|Hin]; [done|]).
    by apply elem_of_nil in Hin.
  - reflexivity.
  - apply new_wf.
  - reflexivity.
  - reflexivity.
  - vm_compute. reflexivity.
Defined.

(** ** The optional predicates through evaluation *)

Lemma optionals_kept_this {L L' : Type} (fr : frame L) (fr' : frame L') :
  ValidationResult (this fr') = ValidationResult (this fr) ->
  Rules (this fr') = Rules (this fr) ->
  optionals_kept fr fr'.
Proof.
  intros Hresult Hrules. unfold optionals_kept. cbn zeta. rewrite Hresult, Hrules.
  split; [done|]. split; [done|]. eauto.
Qed.

Lemma optionals_kept_refl {L : Type} (fr : frame L) : optionals_kept fr fr.
Proof. by apply optionals_kept_this. Qed.

Lemma optionals_kept_trans {L : Type} (fr1 fr2 fr3 : frame L) :
  optionals_kept fr1 fr2 -> optionals_kept fr2 fr3 -> optionals_kept fr1 fr3.
Proof.
  intros (Hn & Ho & Hr) (Hn' & Ho' & Hr'). split; [congruence|]. split; [congruence|].
  intros prop rule Hrule. destruct (Hr prop rule Hrule) as (rule2 & Hrule2 & Hn2 & Ho2).
  destruct (Hr' prop rule2 Hrule2) as (rule3 & Hrule3 & Hn3 & Ho3).
  exists rule3. split; [done|]. split; congruence.
Qed.

Ltac optional_steps :=
  repeat respects_step @optionals_kept_refl @optionals_kept_trans;
  try (by apply optionals_kept_this).

Lemma in_rule_optionals {L A : Type} prop (m : M PropertyValidationRule.state A) :
  (forall s, rule_kept s (m s).2) -> respects optionals_kept (in_rule (L:=L) prop m).
Proof.
  intros Hm fr. unfold in_rule.
  destruct (JsObject.get prop (Rules (this fr))) as [rule|] eqn:Hrule;
    [|apply optionals_kept_refl].
  specialize (Hm (PropertyValidationRule.mkFrame rule (world fr) tt)).
  destruct (m _) as [r s]. cbn [snd] in *. split; [done|]. split; [done|].
  intros prop' rule' Hrule'. cbn. destruct (decide (prop = prop')) as [<-|Hne].
  - rewrite get_set_eq. eexists. split; [done|].
    assert (rule' = rule) as -> by congruence.
    split; [apply (kept_Name _ _ Hm)|apply (kept_Optional _ _ Hm)].
  - rewrite get_set_ne by done. eauto.
Qed.

Lemma in_validator_optionals {L A : Type} name (m : M Validator.t A) :
  respects optionals_kept (in_validator (L:=L) name m).
Proof.
  intros fr. unfold in_validator.
  destruct (JsObject.get name (Validators (this fr))) as [node|]; [|apply optionals_kept_refl].
  destruct (m node) as [r node']. by apply optionals_kept_this.
Qed.

Lemma in_child_optionals {L A : Type} key item store (m : M state A) :
  respects optionals_kept (in_child (L:=L) key item store m).
Proof.
  intros fr. unfold in_child.
  destruct (JsObject.get key (Children (this fr))) as [child|]; [|apply optionals_kept_refl].
  destruct (m _) as [r s]. by apply optionals_kept_this.
Qed.

Lemma call_optionals {L A : Type} (init : L) (m : M (frame L) A) :
  respects optionals_kept m -> respects optionals_kept (call init m).
Proof.
  intros Hm s. unfold call. specialize (Hm (mkFrame (this s) (data s) (world s) init)).
  destruct (m _) as [r fr]. exact Hm.
Qed.

Lemma NotifyListChanged_optionals {L : Type} (items : value) :
  respects optionals_kept (NotifyListChanged (L:=L) items).
Proof.
  unfold NotifyListChanged, notify_item. optional_steps. destruct a0; optional_steps.
  split; [done|]. split; [done|]. cbn. eauto.
Qed.

Lemma validate_shared_optionals {L : Type} valFunctions :
  respects optionals_kept (validate_shared (L:=L) valFunctions).
Proof.
  unfold validate_shared. optional_steps. destruct a; optional_steps.
  apply in_validator_optionals.
Qed.

Lemma validate_rule_optionals {L : Type} propName :
  respects optionals_kept (validate_rule (L:=L) propName).
Proof.
  unfold validate_rule. optional_steps. apply in_rule_optionals. intros s. apply Validate_kept.
Qed.

Lemma validateAsync_rule_optionals sched propName :
  respects optionals_kept (validateAsync_rule sched propName).
Proof.
  unfold validateAsync_rule, push, on_locals. optional_steps.
  apply in_rule_optionals. intros s. apply ValidateAsync_kept.
Qed.

Lemma validate_child_optionals {L : Type} (rec : M state unit) key :
  respects optionals_kept (validate_child (L:=L) rec key).
Proof.
  unfold validate_child, on_data. optional_steps.
  - destruct (is_undefined a0); optional_steps.
  - apply in_child_optionals.
Qed.

Lemma validate_item_optionals {L : Type} (rec : M state unit) i :
  respects optionals_kept (validate_item (L:=L) rec i).
Proof.
  unfold validate_item. optional_steps. destruct a; optional_steps.
  apply in_child_optionals.
Qed.

Lemma validateAsync_child_optionals (rec : M state (promise unit)) key :
  respects optionals_kept (validateAsync_child rec key).
Proof.
  unfold validateAsync_child, push, on_locals. optional_steps. apply in_child_optionals.
Qed.

Lemma validateAsync_item_optionals (rec : M state (promise unit)) i :
  respects optionals_kept (validateAsync_item rec i).
Proof.
  unfold validateAsync_item, push, on_locals. optional_steps. destruct a; optional_steps.
  apply in_child_optionals.
Qed.

Lemma Validate_optionals fuel : respects optionals_kept (Validate fuel).
Proof.
  destruct fuel as [|fuel]; cbn [Validate]; optional_steps.
  destruct a; optional_steps.
  - apply NotifyListChanged_optionals.
  - apply validate_item_optionals.
  - apply validate_child_optionals.
  - apply validate_rule_optionals.
  - apply validate_shared_optionals.
Qed.

Lemma ValidateAsync_optionals sched fuel : respects optionals_kept (ValidateAsync sched fuel).
Proof.
  destruct fuel as [|fuel]; cbn [ValidateAsync]; optional_steps.
  apply call_optionals. optional_steps.
  destruct a; optional_steps.
  - apply NotifyListChanged_optionals.
  - apply validateAsync_item_optionals.
  - apply validateAsync_child_optionals.
  - apply validateAsync_rule_optionals.
Qed.

Lemma ValidateField_optionals sched fuel propName :
  respects optionals_kept (ValidateField sched fuel propName).
Proof.
  unfold ValidateField. optional_steps.
  - destruct a; optional_steps. apply in_child_optionals.
  - destruct a1; optional_steps.
    + apply in_rule_optionals. intros s. apply Validate_kept.
    + apply in_rule_optionals. intros s. apply ValidateAsync_kept.
  - destruct a3; optional_steps. apply validate_shared_optionals.
Qed.

(** X18. The optional predicates are set by [SetOptional] and by nothing
    else. [SetOptional] installs the predicate on the composite result of
    the node it is called on and leaves the property rules, the shared
    validators and the children of the node as they are (it is not handed
    down). No evaluation ([Validate], [ValidateAsync], [ValidateField])
    changes the predicate or the name of the composite result, of a
    property rule or of a shared validator of the node, however it
    ends. *)
Theorem evaluation_keeps_the_optional_predicates
    (sched : schedule) (fuel : nat) (P : string) (fce : IOptional) (s : state) :
  let kept (s' : state) :=
    CompositeValidationResult.Optional (ValidationResult (this s'))
    = CompositeValidationResult.Optional (ValidationResult (this s)) /\
    CompositeValidationResult.Name (ValidationResult (this s'))
    = CompositeValidationResult.Name (ValidationResult (this s)) /\
    (forall prop rule,
       JsObject.get prop (Rules (this s)) = Some rule ->
       exists rule',
         JsObject.get prop (Rules (this s')) = Some rule' /\
         PropertyValidationRule.Name rule' = PropertyValidationRule.Name rule /\
         PropertyValidationRule.Optional rule' = PropertyValidationRule.Optional rule) /\
    (forall name node,
       JsObject.get name (Validators (this s)) = Some node ->
       exists node',
         JsObject.get name (Validators (this s')) = Some node' /\
         Validator.Name node' = Validator.Name node /\
         Validator.Optional node' = Validator.Optional node) in
  kept (Validate fuel s).2 /\
  kept (ValidateAsync sched fuel s).2 /\
  kept (ValidateField sched fuel P s).2 /\
  CompositeValidationResult.Optional (ValidationResult (SetOptional fce (this s))) = Some fce /\
  CompositeValidationResult.Children (ValidationResult (SetOptional fce (this s)))
  = CompositeValidationResult.Children (ValidationResult (this s)) /\
  Rules (SetOptional fce (this s)) = Rules (this s) /\
  Validators (SetOptional fce (this s)) = Validators (this s) /\
  Children (SetOptional fce (this s)) = Children (this s).
Proof.
  intros kept.
  assert (forall s' : state, optionals_kept s s' -> node_kept s s' -> kept s') as Hkept.
  { intros s' (Hn & Ho & Hr) Hnode. split; [done|]. split; [done|]. split; [done|].
    intros name node Hnode'.
    destruct (node_Validators _ _ Hnode name node Hnode') as (node' & Hget & Hn' & _ & Ho' & _).
    eauto. }
  split; [|split; [|split]].
  - apply Hkept; [apply Validate_optionals|apply Validate_node].
  - apply Hkept; [apply ValidateAsync_optionals|apply ValidateAsync_node].
  - apply Hkept; [apply ValidateField_optionals|apply ValidateField_node].
  - done.
Qed.

End rule_tree.

(** ** The declaration surface *)

Section declaration.
Import AbstractValidator.

Lemma register_Validators (this : t) (r : registration) :
  Validators (register this r)
  = match r with
    | ARule prop validator =>
        JsObject.set prop (default [] (JsObject.get prop (Validators this)) ++ [validator])
                     (Validators this)
    | AValidation _ _ => Validators this
    end.
Proof. by destruct r. Qed.

Lemma register_ValidationFunctions (this : t) (r : registration) :
  ValidationFunctions (register this r)
  = match r with
    | ARule _ _ => ValidationFunctions this
    | AValidation prop fce =>
        JsObject.set prop (default [] (JsObject.get prop (ValidationFunctions this)) ++ [fce])
                     (ValidationFunctions this)
    end.
Proof. by destruct r. Qed.

Lemma registered_get {A : Type} (field : t -> obj (list A)) (entry : string -> registration -> option A)
    (prop_of : registration -> option string) :
  (forall this r,
     field (register this r)
     = match prop_of r with
       | Some prop =>
           JsObject.set prop
             (default [] (JsObject.get prop (field this))
              ++ from_option (fun x => [x]) [] (entry prop r))
             (field this)
       | None => field this
       end) ->
  (forall r prop, prop_of r = Some prop -> is_Some (entry prop r)) ->
  (forall r prop, is_Some (entry prop r) -> prop_of r = Some prop) ->
  forall (rs : list registration) (this : t) prop,
    JsObject.get prop (field (foldl register this rs))
    = match omap (entry prop) rs with
      | [] => JsObject.get prop (field this)
      | entries => Some (default [] (JsObject.get prop (field this)) ++ entries)
      end.
Proof.
  intros Hstep Hsome Honly rs. induction rs as [|r rs IH]; intros this prop; [done|].
  cbn [foldl omap list_omap]. rewrite IH, Hstep.
  destruct (entry prop r) as [x|] eqn:Hentry.
  - rewrite (Honly r prop) by eauto. rewrite Hentry, get_set_eq. cbn.
    destruct (omap (entry prop) rs); [done|]. by rewrite <-app_assoc.
  - destruct (prop_of r) as [prop'|] eqn:Hprop; [|done].
    rewrite get_set_ne; [done|]. intros ->.
    destruct (Hsome r prop Hprop) as [x Hx]. congruence.
Qed.

(** X1. A declaration collects what is registered on it. After a series
    of [RuleFor] and [ValidationFor] calls on a new declaration, for
    properties that are plain keys (no array index, no name of a member of
    [Object.prototype]), the validators recorded for a property are the
    ones registered for it, in the order of the calls, and likewise the
    validation functions; a property nothing was registered for has no
    entry; the properties are enumerated in the order in which they were
    first registered; and the two kinds of registration do not disturb
    each other, nor the nested declarations and the list flag. *)
Theorem declaration_collects_registrations (rs : list registration) :
  Forall (fun r => JsObject.plain (registered_prop r)) rs ->
  let declaration := foldl register new rs in
  JsObject.keys (Validators declaration) = nub (omap rule_prop rs) /\
  JsObject.keys (ValidationFunctions declaration) = nub (omap validation_prop rs) /\
  (forall prop,
     JsObject.get prop (Validators declaration) = recorded_list (omap (rule_for prop) rs)) /\
  (forall prop,
     JsObject.get prop (ValidationFunctions declaration)
     = recorded_list (omap (validation_for prop) rs)) /\
  AbstractValidators declaration = [] /\ ForList declaration = false /\
  NoDup (JsObject.keys (Validators declaration)) /\
  NoDup (JsObject.keys (ValidationFunctions declaration)).
Proof.
  intros _. cbn zeta.
  assert (AbstractValidators (foldl register new rs) = [] /\
          ForList (foldl register new rs) = false) as [Hnested Hlist].
  { induction rs as [|r rs IH] using rev_ind; [done|].
    rewrite foldl_app. cbn [foldl]. by destruct r. }
  assert (JsObject.keys (Validators (foldl register new rs)) = nub (omap rule_prop rs)) as Hk1.
  { rewrite (keys_accumulate rule_prop register (fun this => JsObject.keys (Validators this))).
    - cbn. apply filter_all, Forall_forall. intros x _ Hin. by apply elem_of_nil in Hin.
    - intros s [prop validator|prop fce]; cbn; [apply keys_set|done]. }
  assert (JsObject.keys (ValidationFunctions (foldl register new rs))
          = nub (omap validation_prop rs)) as Hk2.
  { rewrite (keys_accumulate validation_prop register
               (fun this => JsObject.keys (ValidationFunctions this))).
    - cbn. apply filter_all, Forall_forall. intros x _ Hin. by apply elem_of_nil in Hin.
    - intros s [prop validator|prop fce]; cbn; [done|apply keys_set]. }
  split; [done|]. split; [done|]. split; [|split; [|split; [|split; [|split]]]].
  - intros prop. rewrite (registered_get Validators rule_for rule_prop).
    + unfold recorded_list. by destruct (omap (rule_for prop) rs).
    + intros this [p v|p f]; cbn; [|done]. by rewrite decide_True.
    + intros [p v|p f] prop' [= <-]. cbn. rewrite decide_True by done. eauto.
    + intros [p v|p f] prop' [x Hx]; cbn in *; [|done].
      destruct (decide (p = prop')) as [->|]; done.
  - intros prop. rewrite (registered_get ValidationFunctions validation_for validation_prop).
    + unfold recorded_list. by destruct (omap (validation_for prop) rs).
    + intros this [p v|p f]; cbn; [done|]. by rewrite decide_True.
    + intros [p v|p f] prop' [= <-]. cbn. rewrite decide_True by done. eauto.
    + intros [p v|p f] prop' [x Hx]; cbn in *; [done|].
      destruct (decide (p = prop')) as [->|]; done.
  - done.
  - done.
  - rewrite Hk1. apply NoDup_nub.
  - rewrite Hk2. apply NoDup_nub.
Qed.

(** Witness for X1: the registrations of a name and of a period. *)
Lemma declaration_collects_registrations_witness :
  let declaration :=
    ValidationFor "From" Fixtures.dates
      (RuleFor "Name" 1 (RuleFor "From" 5 (RuleFor "Name" 0 new))) in
  JsObject.keys (Validators declaration) = ["Name"; "From"] /\
  JsObject.get "Name" (Validators declaration) = Some [0; 1] /\
  JsObject.get "From" (ValidationFunctions declaration) = Some [Fixtures.dates] /\
  JsObject.get "Name" (ValidationFunctions declaration) = None.
Proof.
  destruct (declaration_collects_registrations
              [ARule "Name" 0; ARule "From" 5; ARule "Name" 1; AValidation "From" Fixtures.dates])
    as (Hkeys & _ & Hrules & Hfces & _).
  - apply (bool_decide_unpack _). vm_compute. exact I.
  - split; [exact Hkeys|]. split; [exact (Hrules "Name")|].
    split; [exact (Hfces "From")|exact (Hfces "Name")].
Defined.

End declaration.
